(** * climakitae threshold tools: a shallow embedding

    This development embeds the extreme-value engine of
    [climakitae/threshold_tools.py] and states its specification.

    Conventions.
    - A Python float is a [num]: either [NaN] or a finite value [Num q]
      with [q] the rational it denotes.  Arithmetic is exact; the rounding
      error of binary floating point is not part of the model.
    - A Python call either returns or raises: [result A].
    - numpy's global random generator, and the sequence of xarray
      operations performed on the data, are threaded through a state
      monad [M].
    - lmoments3, scipy.stats and the entropy source of numpy.random are
      external: they are the fields of the class [Libs], together with the
      exceptions xarray raises on an array of the wrong shape.
    - An array holds its metadata and the series of its points.  With a
      single point it stands for a plain time series, with several for a
      grid over [y] and [x]. *)

From Stdlib Require Import ZArith QArith Qround Qabs Lia Lqa List Bool Sorted.
From stdpp Require Import base strings gmap list.

Open Scope string_scope.

(** ** Python values *)

(** The exception classes the module raises or catches. [Exception] stands
    for any class that none of the handlers of the module catches. *)
Inductive exn : Type :=
| ValueError (msg : string)
| ZeroDivisionError
| AttributeError
| KeyError (key : string)
| UnboundLocalError (var : string)
| IndexError (msg : string)
| Exception (msg : string).

Inductive result (A : Type) : Type :=
| Ok (a : A)
| Raise (e : exn).
Arguments Ok {A} a.
Arguments Raise {A} e.

Definition rbind {A B} (r : result A) (k : A -> result B) : result B :=
  match r with
  | Ok a => k a
  | Raise e => Raise e
  end.

(** [try: r except (classes): h]. *)
Definition try_except {A} (r : result A) (caught : exn -> bool) (h : A) : result A :=
  match r with
  | Ok a => Ok a
  | Raise e => if caught e then Ok h else Raise e
  end.

Definition is_ValueError (e : exn) : bool :=
  match e with ValueError _ => true | _ => false end.
Definition is_ZeroDivisionError (e : exn) : bool :=
  match e with ZeroDivisionError => true | _ => false end.
Definition is_AttributeError (e : exn) : bool :=
  match e with AttributeError => true | _ => false end.

(** [except (ValueError, ZeroDivisionError)] *)
Definition caught_VZ (e : exn) : bool :=
  is_ValueError e || is_ZeroDivisionError e.

(** [except (ValueError, ZeroDivisionError, AttributeError)] *)
Definition caught_VZA (e : exn) : bool :=
  is_ValueError e || is_ZeroDivisionError e || is_AttributeError e.

(** Floats. *)
Inductive num : Type :=
| NaN
| Num (q : Q).

Definition is_nan (x : num) : bool :=
  match x with NaN => true | Num _ => false end.

Definition num_lift2 (f : Q -> Q -> Q) (x y : num) : num :=
  match x, y with
  | Num a, Num b => Num (f a b)
  | _, _ => NaN
  end.

Definition num_sub : num -> num -> num := num_lift2 Qminus.

(** [x == y]: false as soon as one side is NaN. *)
Definition num_eqb (x y : num) : bool :=
  match x, y with
  | Num a, Num b => Qeq_bool a b
  | _, _ => false
  end.

(** [x > y] and [x < y]: false as soon as one side is NaN. *)
Definition num_gtb (x y : num) : bool :=
  match x, y with
  | Num a, Num b => negb (Qle_bool a b)
  | _, _ => false
  end.

Definition num_ltb (x y : num) : bool := num_gtb y x.

(** [x / y]: division by zero raises. *)
Definition num_div (x y : num) : result num :=
  match x, y with
  | Num a, Num b => if Qeq_bool b 0%Q then Raise ZeroDivisionError else Ok (Num (a / b)%Q)
  | NaN, Num b => if Qeq_bool b 0%Q then Raise ZeroDivisionError else Ok NaN
  | _, NaN => Ok NaN
  end.

(** Round half to even, to the nearest integer. *)
Definition round_half_even (q : Q) : Z :=
  let fl := Qfloor q in
  let r := (q - inject_Z fl)%Q in
  match (r ?= 1 # 2)%Q with
  | Lt => fl
  | Gt => (fl + 1)%Z
  | Eq => if Z.even fl then fl else (fl + 1)%Z
  end.

(** [round(x, ndigits)], on the value the float denotes: the nearest
    multiple of [10^-ndigits], ties to the even one. *)
Definition py_round (x : num) (ndigits : nat) : num :=
  match x with
  | NaN => NaN
  | Num q =>
      let scale := inject_Z (10 ^ Z.of_nat ndigits) in
      Num (inject_Z (round_half_even (q * scale)%Q) / scale)%Q
  end.

(** ** Fitted distributions *)

(** A frozen scipy distribution: its inverse and forward functions. *)
Record rv_frozen : Type := {
  ppf : num -> result num;
  cdf : num -> result num
}.

(** [fitted_distr.ppf(x)]: the attribute lookup fails on [None]. *)
Definition call_ppf (fitted_distr : option rv_frozen) (x : num) : result num :=
  match fitted_distr with
  | Some d => ppf d x
  | None => Raise AttributeError
  end.

Definition call_cdf (fitted_distr : option rv_frozen) (x : num) : result num :=
  match fitted_distr with
  | Some d => cdf d x
  | None => Raise AttributeError
  end.

(** The local variable [result] of [calculate_return], read at the final
    [return]: unbound when no branch assigned it. *)
Definition read_local {A} (name : string) (v : option (result A)) : result A :=
  match v with
  | Some r => r
  | None => Raise (UnboundLocalError name)
  end.

Definition calculate_return (fitted_distr : option rv_frozen)
    (data_variable : string) (arg_value : num) : result num :=
  read_local "result"
    (if String.eqb data_variable "return_value" then
       Some (try_except
               (rbind (num_div (Num 1%Q) arg_value) (fun inv =>
                let return_event := num_sub (Num 1%Q) inv in
                rbind (call_ppf fitted_distr return_event) (fun return_value =>
                Ok (py_round return_value 5))))
               caught_VZA NaN)
     else if String.eqb data_variable "return_prob" then
       Some (try_except
               (rbind (call_cdf fitted_distr arg_value) (fun c =>
                Ok (num_sub (Num 1%Q) c)))
               caught_VZA NaN)
     else if String.eqb data_variable "return_period" then
       Some (try_except
               (rbind (call_cdf fitted_distr arg_value) (fun return_prob =>
                if num_eqb return_prob (Num 1%Q) then Ok NaN
                else
                  rbind (num_div (Num (-1)%Q) (num_sub return_prob (Num 1%Q)))
                    (fun return_period => Ok (py_round return_period 3))))
               caught_VZA NaN)
     else None).

(** ** The world: numpy's random generator and the xarray operations *)

(** The operations xarray performs on the values of an array. *)
Inductive xr_op : Type :=
| OpCompare
| OpGroupbySum (key : string)
| OpResampleMax
| OpStack
| OpUnstack
| OpApplyUfunc.

Record world : Type := mkWorld {
  rng_pos : nat;          (* raw draws consumed so far *)
  xr_log : list xr_op     (* operations on the data, oldest first *)
}.

Definition M (A : Type) : Type := world -> result A * world.

Definition mret {A} (a : A) : M A := fun w => (Ok a, w).
Definition mraise {A} (e : exn) : M A := fun w => (Raise e, w).
Definition mbind {A B} (m : M A) (k : A -> M B) : M B :=
  fun w => match m w with
           | (Ok a, w') => k a w'
           | (Raise e, w') => (Raise e, w')
           end.
Definition lift {A} (r : result A) : M A := fun w => (r, w).

Notation "'do' x <- m ;; k" := (mbind m (fun x => k))
  (at level 10, x name, m at level 99, k at level 200).

Definition log_op (o : xr_op) : M unit :=
  fun w => (Ok tt, mkWorld (rng_pos w) (xr_log w ++ [o])).

(** ** Labelled arrays *)

Record Timestamp : Type := mkTime {
  year : Z;
  month : Z;
  day : Z;
  hour : Z
}.

(** A calendar day, the value of [time.date]. *)
Definition date_t : Type := (Z * Z * Z)%type.

Definition date (t : Timestamp) : date_t := (year t, month t, day t).

(** [pd.to_datetime(date)]: midnight of that day. *)
Definition to_datetime (d : date_t) : Timestamp :=
  let '(y, m, dd) := d in mkTime y m dd 0.

Definition date_compare (a b : date_t) : comparison :=
  let '(y1, m1, d1) := a in
  let '(y2, m2, d2) := b in
  match (y1 ?= y2)%Z with
  | Eq => match (m1 ?= m2)%Z with
          | Eq => (d1 ?= d2)%Z
          | c => c
          end
  | c => c
  end.

(** An array holds its metadata and, for every point of its non-time
    axes, the entries of that point.  A time series is a list of stamped
    values; a reduced array holds one scalar per point. *)
Record DataArray (A : Type) : Type := mkDA {
  da_attrs : gmap string string;
  da_points : list A
}.
Arguments mkDA {A} da_attrs da_points.
Arguments da_attrs {A} d.
Arguments da_points {A} d.

Definition series (A : Type) : Type := list (Timestamp * A).

Record Dataset : Type := mkDS {
  ds_attrs : gmap string string;
  ds_vars : list (string * DataArray num)
}.

(** [x.attrs = value]: xarray stores [dict(value)], a copy. *)
Definition set_attrs {A} (x : DataArray A) (value : gmap string string) : DataArray A :=
  mkDA value (da_points x).

(** [x.attrs[key] = v] *)
Definition attrs_setitem {A} (x : DataArray A) (key v : string) : DataArray A :=
  mkDA (<[key := v]> (da_attrs x)) (da_points x).

Definition ds_set_attrs (ds : Dataset) (value : gmap string string) : Dataset :=
  mkDS value (ds_vars ds).

Definition ds_attrs_setitem (ds : Dataset) (key v : string) : Dataset :=
  mkDS (<[key := v]> (ds_attrs ds)) (ds_vars ds).

(** [ds[name].attrs[key] = v] *)
Definition ds_var_attrs_setitem (ds : Dataset) (name key v : string) : Dataset :=
  mkDS (ds_attrs ds)
    (map (fun '(n, x) => if String.eqb n name then (n, attrs_setitem x key v) else (n, x))
         (ds_vars ds)).

(** [ds[name] = x] on a name not yet present. *)
Definition ds_setitem (ds : Dataset) (name : string) (x : DataArray num) : Dataset :=
  mkDS (ds_attrs ds) (ds_vars ds ++ [(name, x)]).

(** [x.rename(name).to_dataset()] *)
Definition to_dataset (name : string) (x : DataArray num) : Dataset :=
  mkDS ∅ [(name, x)].

(** ** The external libraries *)

(** The L-moment distribution objects of [lmoments3.distr]. *)
Inductive lmom_distr_t : Type :=
| ldistr_gev | ldistr_gum | ldistr_wei | ldistr_pe3 | ldistr_gpa.

(** The distribution constructors of [scipy.stats]. *)
Inductive scipy_distr : Type :=
| genextreme | gumbel_r | weibull_min | pearson3 | genpareto.

(** The parameter dictionary returned by a fit. *)
Definition params : Type := list (string * num).

Class Libs : Type := {
  (* lmom_distr.lmom_fit(sample) *)
  lmom_fit : lmom_distr_t -> list num -> result params;
  (* stats.<family>( **lmoments ) *)
  stats_frozen : scipy_distr -> params -> result rv_frozen;
  (* stats.kstest(sample, name, args=...) *)
  stats_kstest : list num -> string -> list num -> result (num * num);
  (* the raw draws of numpy's global generator *)
  random_raw : nat -> nat;
  (* str(x) *)
  py_str : num -> string;
  (* series.resample(time="A").max(), on the values of one point *)
  resample_year_max : list (Timestamp * num) -> list (Timestamp * num);
  (* what groupby("allpoints") raises on an array of the given number of
     points when squeeze() has left it nothing to group *)
  xr_groupby_error : nat -> exn;
  (* what an unvectorised apply_ufunc raises on the values of an array that
     has dimensions besides time *)
  xr_block_error : list (list num) -> exn
}.

(** [d[key]] *)
Fixpoint params_get (d : params) (key : string) : result num :=
  match d with
  | [] => Raise (KeyError key)
  | (k, v) :: d' => if String.eqb k key then Ok v else params_get d' key
  end.

(** The tuple [(d[k1], d[k2], ...)], evaluated from the left. *)
Fixpoint params_get_all (d : params) (keys : list string) : result (list num) :=
  match keys with
  | [] => Ok []
  | k :: keys' =>
      rbind (params_get d k) (fun v =>
      rbind (params_get_all d keys') (fun vs => Ok (v :: vs)))
  end.

Definition str_in (s : string) (l : list string) : bool :=
  existsb (String.eqb s) l.

Definition distrs : list string :=
  ["gev"; "gumbel"; "weibull"; "pearson3"; "genpareto"].

(** The [if distr == "gev": ... elif distr == "gumbel": ... ] chain that
    every operation repeats; [otherwise] is what happens when no branch
    is taken. *)
Definition family_chain {A} (distr : string)
    (gev gumbel weibull pearson genpareto otherwise : A) : A :=
  if String.eqb distr "gev" then gev
  else if String.eqb distr "gumbel" then gumbel
  else if String.eqb distr "weibull" then weibull
  else if String.eqb distr "pearson3" then pearson
  else if String.eqb distr "genpareto" then genpareto
  else otherwise.

Definition get_lmom_distr (distr : string) : result lmom_distr_t :=
  if negb (str_in distr distrs) then
    Raise (ValueError
      "invalid distr type. expected one of the following: ['gev', 'gumbel', 'weibull', 'pearson3', 'genpareto']")
  else
    family_chain distr
      (Ok ldistr_gev) (Ok ldistr_gum) (Ok ldistr_wei) (Ok ldistr_pe3) (Ok ldistr_gpa)
      (Raise (UnboundLocalError "lmom_distr")).

Section WithLibs.
Context `{Libs}.

(** One branch of [get_fitted_distr]. *)
Definition fit_with (sd : scipy_distr) (lmom_distr : lmom_distr_t)
    (ams : list num) : result (params * rv_frozen) :=
  rbind (lmom_fit lmom_distr ams) (fun lmoments =>
  rbind (stats_frozen sd lmoments) (fun fitted_distr =>
  Ok (lmoments, fitted_distr))).

Definition get_fitted_distr (ams : list num) (distr : string)
    (lmom_distr : lmom_distr_t) : result (params * rv_frozen) :=
  family_chain distr
    (fit_with genextreme lmom_distr ams)
    (fit_with gumbel_r lmom_distr ams)
    (fit_with weibull_min lmom_distr ams)
    (fit_with pearson3 lmom_distr ams)
    (fit_with genpareto lmom_distr ams)
    (Raise (UnboundLocalError "lmoments")).

(** The body of one [try] block of [ks_stat]: fit, then test against the
    scipy distribution [name] with the fitted parameters [keys]. *)
Definition ks_try (distr : string) (lmom_distr : lmom_distr_t)
    (name : string) (keys : list string) (ams : list num) : result (num * num) :=
  try_except
    (rbind (get_fitted_distr ams distr lmom_distr) (fun '(lmoments, _) =>
     rbind (params_get_all lmoments keys) (fun args =>
     rbind (stats_kstest ams name args) (fun ks =>
     Ok (fst ks, snd ks)))))
    caught_VZ (NaN, NaN).

(** The closure [ks_stat] of [get_ks_stat]. *)
Definition ks_stat (distr : string) (lmom_distr : lmom_distr_t)
    (ams : list num) : result (num * num) :=
  family_chain distr
    (ks_try distr lmom_distr "genextreme" ["c"; "loc"; "scale"] ams)
    (ks_try distr lmom_distr "gumbel_r" ["loc"; "scale"] ams)
    (ks_try distr lmom_distr "weibull_min" ["c"; "loc"; "scale"] ams)
    (ks_try distr lmom_distr "pearson3" ["skew"; "loc"; "scale"] ams)
    (ks_try distr lmom_distr "genpareto" ["c"; "loc"; "scale"] ams)
    (Raise (UnboundLocalError "d_statistic")).

(** [np.random.choice(a, size=size, replace=True)]: [size] draws, each
    the element of [a] at a raw draw reduced modulo [len(a)]. *)
Definition draw_at (a : list num) (pos : nat) : num :=
  nth (random_raw pos mod length a) a NaN.

Definition random_choice (a : list num) (size : nat) : M (list num) :=
  fun w =>
    match a, size with
    | [], S _ =>
        (Raise (ValueError "'a' cannot be empty unless no samples are taken"), w)
    | _, _ =>
        (Ok (map (draw_at a) (seq (rng_pos w) size)),
         mkWorld (rng_pos w + size) (xr_log w))
    end.

Definition data_variables : list string :=
  ["return_value"; "return_prob"; "return_period"].

(** The body of one [try] block shared by [bootstrap] and by the point
    functions of the [get_return_*] family. *)
Definition fit_and_calculate (ams : list num) (distr : string)
    (lmom_distr : lmom_distr_t) (data_variable : string) (arg_value : num)
    : result num :=
  try_except
    (rbind (get_fitted_distr ams distr lmom_distr) (fun '(_, fitted_distr) =>
     calculate_return (Some fitted_distr) data_variable arg_value))
    caught_VZ NaN.

Definition bootstrap (ams : list num) (distr : string)
    (data_variable : string) (arg_value : num) : M num :=
  if negb (str_in data_variable data_variables) then
    mraise (ValueError
      "invalid data variable type. expected one of the following: ['return_value', 'return_prob', 'return_period']")
  else
    do lmom_distr <- lift (get_lmom_distr distr) ;;
    let sample_size := length ams in
    do new_ams <- random_choice ams sample_size ;;
    let attempt :=
      fit_and_calculate new_ams distr lmom_distr data_variable arg_value in
    lift (family_chain distr attempt attempt attempt attempt attempt
            (Raise (UnboundLocalError "result"))).

(** [np.percentile(a, q)] on a non-empty [a]: linear interpolation
    between the two nearest ranks; a NaN anywhere in [a] makes every
    percentile NaN. *)
Fixpoint insert_sorted (x : Q) (l : list Q) : list Q :=
  match l with
  | [] => [x]
  | y :: l' => if Qle_bool x y then x :: l else y :: insert_sorted x l'
  end.

Definition sort_values (l : list Q) : list Q := fold_right insert_sorted [] l.

Fixpoint finite_values (a : list num) : list Q :=
  match a with
  | [] => []
  | NaN :: a' => finite_values a'
  | Num q :: a' => q :: finite_values a'
  end.

Definition lerp (a b t : Q) : Q := (a + (b - a) * t)%Q.

Definition virtual_index (n : nat) (q : Q) : Q :=
  (q / 100 * inject_Z (Z.of_nat (n - 1)))%Q.

(** The value interpolated at the fractional rank [vi] of the sorted
    values [s]: between the ranks [floor vi] and [floor vi + 1], the
    latter clipped to the last one. *)
Definition at_rank (s : list Q) (x0 : Q) (vi : Q) : Q :=
  let i := Z.to_nat (Qfloor vi) in
  let gamma := (vi - inject_Z (Qfloor vi))%Q in
  lerp (nth i s x0) (nth (Nat.min (i + 1) (length s - 1)) s x0) gamma.

Definition percentile_linear (a : list num) (q : Q) : num :=
  if existsb is_nan a then NaN
  else
    let s := sort_values (finite_values a) in
    match s with
    | [] => NaN
    | x0 :: _ => Num (at_rank s x0 (virtual_index (length s) q))
    end.

Definition valid_percentile (q : Q) : bool := Qle_bool 0 q && Qle_bool q 100.

(** The percentiles are validated first; the ranks of an empty [a] are then
    out of bounds. *)
Definition np_percentile (a : list num) (qs : list Q) : result (list num) :=
  if forallb valid_percentile qs then
    match a with
    | [] => Raise (IndexError "index -1 is out of bounds for axis 0 with size 0")
    | _ :: _ => Ok (map (percentile_linear a) qs)
    end
  else Raise (ValueError "Percentiles must be in the range [0, 100]").

(** The [for _ in range(bootstrap_runs)] loop of [conf_int]. *)
Fixpoint bootstrap_loop (runs : nat) (ams : list num) (distr data_variable : string)
    (arg_value : num) (bootstrap_values : list num) : M (list num) :=
  match runs with
  | O => mret bootstrap_values
  | S runs' =>
      do result <- bootstrap ams distr data_variable arg_value ;;
      bootstrap_loop runs' ams distr data_variable arg_value (bootstrap_values ++ [result])
  end.

Definition conf_int (ams : list num) (distr data_variable : string) (arg_value : num)
    (bootstrap_runs : nat) (conf_int_lower_bound conf_int_upper_bound : Q)
    : M (num * num) :=
  do bootstrap_values <-
    bootstrap_loop bootstrap_runs ams distr data_variable arg_value [] ;;
  do conf_int_array <-
    lift (np_percentile bootstrap_values [conf_int_lower_bound; conf_int_upper_bound]) ;;
  let conf_int_lower_limit := nth 0 conf_int_array NaN in
  let conf_int_upper_limit := nth 1 conf_int_array NaN in
  mret (conf_int_lower_limit, conf_int_upper_limit).

(** ** Vectorisation *)

(** An array of the model with a single point stands for a plain time
    series, whose only dimension is time; an array with several points
    stands for a grid over [y] and [x], whose points are its cells.

    What [xr.apply_ufunc] is handed: the array itself, or its points
    grouped one by one. *)
Inductive ufunc_input : Type :=
| Whole (x : DataArray (series num))
| Grouped (x : DataArray (series num)).

(** [ams.stack(allpoints=["y", "x"]).squeeze().groupby("allpoints")]:
    [squeeze()] drops a dimension of length one, so that fewer than two
    points leave nothing to group by and [groupby] raises. *)
Definition stack (x : DataArray (series num)) : M ufunc_input :=
  do _ <- log_op OpStack ;;
  match da_points x with
  | _ :: _ :: _ => mret (Grouped x)
  | points => mraise (xr_groupby_error (length points))
  end.

(** [new_ds.unstack("allpoints")] reshapes; the points stay as they are. *)
Definition unstack {A} (x : A) : M A := do _ <- log_op OpUnstack ;; mret x.

Fixpoint map_points {A B} (f : A -> M B) (l : list A) : M (list B) :=
  match l with
  | [] => mret []
  | a :: l' => do b <- f a ;; do bs <- map_points f l' ;; mret (b :: bs)
  end.

(** [xr.apply_ufunc(f, ams, input_core_dims=[["time"]], ...)], without
    [vectorize]: on grouped points [f] receives the values of each point
    along time; on the array itself [f] is called once, on all its values.
    For a plain time series these are the values along time. For a grid
    they form a block that [f] cannot take as a sample, and a result of [f]
    would lack the dimensions of the grid: the call raises. *)
Definition apply_ufunc {B} (f : list num -> M B) (ams : ufunc_input)
    : M (list B) :=
  do _ <- log_op OpApplyUfunc ;;
  match ams with
  | Grouped x => map_points (fun s => f (map snd s)) (da_points x)
  | Whole x =>
      match da_points x with
      | [s] => do b <- f (map snd s) ;; mret [b]
      | points => mraise (xr_block_error (map (map snd) points))
      end
  end.

Definition get_ams (da : DataArray (series num)) (extremes_type : string)
    : M (DataArray (series num)) :=
  let extremes_types := ["max"] in
  if negb (str_in extremes_type extremes_types) then
    mraise (ValueError "invalid extremes type. expected one of the following: ['max']")
  else if String.eqb extremes_type "max" then
    do _ <- log_op OpResampleMax ;;
    let ams := mkDA (da_attrs da) (map resample_year_max (da_points da)) in
    let ams := attrs_setitem ams "extreme value extraction method" "block maxima" in
    let ams := attrs_setitem ams "extremes type" "maxima" in
    let ams := attrs_setitem ams "block size" "1 year" in
    let ams := attrs_setitem ams "timeseries type" "annual max series" in
    mret ams
  else mraise (UnboundLocalError "ams").

Definition get_lmoments (ams : DataArray (series num)) (distr : string)
    (multiple_points : bool) : M (DataArray params) :=
  do lmom_distr <- lift (get_lmom_distr distr) ;;
  let ams_attributes := da_attrs ams in
  do ams <- (if multiple_points then stack ams else mret (Whole ams)) ;;
  do lmoments <- apply_ufunc (fun a => lift (lmom_fit lmom_distr a)) ams ;;
  let new_ds := mkDA ∅ lmoments in
  do new_ds <- (if multiple_points then unstack new_ds else mret new_ds) ;;
  let new_ds := set_attrs new_ds ams_attributes in
  let new_ds := attrs_setitem new_ds "distribution" distr in
  mret new_ds.

Definition get_ks_stat (ams : DataArray (series num)) (distr : string)
    (multiple_points : bool) : M Dataset :=
  do lmom_distr <- lift (get_lmom_distr distr) ;;
  let ams_attributes := da_attrs ams in
  do ams <- (if multiple_points then stack ams else mret (Whole ams)) ;;
  do stats <- apply_ufunc (fun a => lift (ks_stat distr lmom_distr a)) ams ;;
  let d_statistic := mkDA ∅ (map fst stats) in
  let p_value := mkDA ∅ (map snd stats) in
  let new_ds := to_dataset "d_statistic" d_statistic in
  let new_ds := ds_setitem new_ds "p_value" p_value in
  do new_ds <- (if multiple_points then unstack new_ds else mret new_ds) ;;
  let new_ds := ds_var_attrs_setitem new_ds "d_statistic" "stat test" "KS test" in
  let new_ds := ds_var_attrs_setitem new_ds "p_value" "stat test" "KS test" in
  let new_ds := ds_set_attrs new_ds ams_attributes in
  let new_ds := ds_attrs_setitem new_ds "distribution" distr in
  mret new_ds.

(** One branch of the point functions of [get_return_value],
    [get_return_prob] and [get_return_period]: the estimate inside the
    [try], the confidence interval after it. *)
Definition estimate_with_conf_int (ams : list num) (distr : string)
    (lmom_distr : lmom_distr_t) (data_variable : string) (arg_value : num)
    (bootstrap_runs : nat) (conf_int_lower_bound conf_int_upper_bound : Q)
    : M (num * num * num) :=
  do estimate <-
    lift (fit_and_calculate ams distr lmom_distr data_variable arg_value) ;;
  do limits <- conf_int ams distr data_variable arg_value bootstrap_runs
                 conf_int_lower_bound conf_int_upper_bound ;;
  mret (estimate, fst limits, snd limits).

(** The closure applied at every point; [local] is the name of its result
    variable ([return_value], [return_prob] or [return_period]). *)
Definition point_function (local : string) (distr : string)
    (lmom_distr : lmom_distr_t) (data_variable : string) (arg_value : num)
    (bootstrap_runs : nat) (conf_int_lower_bound conf_int_upper_bound : Q)
    (ams : list num) : M (num * num * num) :=
  let branch :=
    estimate_with_conf_int ams distr lmom_distr data_variable arg_value
      bootstrap_runs conf_int_lower_bound conf_int_upper_bound in
  family_chain distr branch branch branch branch branch
    (mraise (UnboundLocalError local)).

(** What the three [get_return_*] functions share once [data_variable],
    the argument and the label of the estimate are fixed. *)
Definition return_dataset (data_variable : string) (label_key label_value : string)
    (ams : DataArray (series num)) (arg_value : num) (distr : string)
    (bootstrap_runs : nat) (conf_int_lower_bound conf_int_upper_bound : Q)
    (multiple_points : bool) : M Dataset :=
  do lmom_distr <- lift (get_lmom_distr distr) ;;
  let ams_attributes := da_attrs ams in
  do ams <- (if multiple_points then stack ams else mret (Whole ams)) ;;
  do triples <-
    apply_ufunc
      (point_function data_variable distr lmom_distr data_variable arg_value
         bootstrap_runs conf_int_lower_bound conf_int_upper_bound) ams ;;
  let estimate := mkDA ∅ (map (fun t => fst (fst t)) triples) in
  let conf_int_lower_limit := mkDA ∅ (map (fun t => snd (fst t)) triples) in
  let conf_int_upper_limit := mkDA ∅ (map snd triples) in
  let new_ds := to_dataset data_variable estimate in
  let new_ds := ds_setitem new_ds "conf_int_lower_limit" conf_int_lower_limit in
  let new_ds := ds_setitem new_ds "conf_int_upper_limit" conf_int_upper_limit in
  do new_ds <- (if multiple_points then unstack new_ds else mret new_ds) ;;
  let new_ds := ds_var_attrs_setitem new_ds data_variable label_key label_value in
  let new_ds :=
    ds_var_attrs_setitem new_ds "conf_int_lower_limit"
      "confidence interval lower bound"
      (py_str (Num conf_int_lower_bound) ++ "th percentile") in
  let new_ds :=
    ds_var_attrs_setitem new_ds "conf_int_upper_limit"
      "confidence interval upper bound"
      (py_str (Num conf_int_upper_bound) ++ "th percentile") in
  let new_ds := ds_set_attrs new_ds ams_attributes in
  let new_ds := ds_attrs_setitem new_ds "distribution" distr in
  mret new_ds.

Definition get_return_value (ams : DataArray (series num)) (return_period : num)
    (distr : string) (bootstrap_runs : nat)
    (conf_int_lower_bound conf_int_upper_bound : Q) (multiple_points : bool)
    : M Dataset :=
  return_dataset "return_value" "return period"
    ("1 in " ++ py_str return_period ++ " year event")
    ams return_period distr bootstrap_runs
    conf_int_lower_bound conf_int_upper_bound multiple_points.

Definition get_return_prob (ams : DataArray (series num)) (threshold : num)
    (distr : string) (bootstrap_runs : nat)
    (conf_int_lower_bound conf_int_upper_bound : Q) (multiple_points : bool)
    : M Dataset :=
  return_dataset "return_prob" "threshold"
    ("exceedance of " ++ py_str threshold ++ " value event")
    ams threshold distr bootstrap_runs
    conf_int_lower_bound conf_int_upper_bound multiple_points.

Definition get_return_period (ams : DataArray (series num)) (return_value : num)
    (distr : string) (bootstrap_runs : nat)
    (conf_int_lower_bound conf_int_upper_bound : Q) (multiple_points : bool)
    : M Dataset :=
  return_dataset "return_period" "return value"
    ("occurrence of a " ++ py_str return_value ++ " value event")
    ams return_value distr bootstrap_runs
    conf_int_lower_bound conf_int_upper_bound multiple_points.

End WithLibs.

(** ** The exceedance engine *)

(** [da > threshold_value] and [da < threshold_value], entry by entry. *)
Definition xr_compare (test : num -> num -> bool) (da : DataArray (series num))
    (threshold_value : num) : M (DataArray (series bool)) :=
  do _ <- log_op OpCompare ;;
  mret (mkDA ∅ (map (map (fun '(t, v) => (t, test v threshold_value))) (da_points da))).

(** [groupby(key).sum()] on flags: the groups are the distinct keys in
    increasing order, each with the number of its true entries. *)
Fixpoint add_to_group {K} (cmp : K -> K -> comparison) (k : K) (v : Z)
    (groups : list (K * Z)) : list (K * Z) :=
  match groups with
  | [] => [(k, v)]
  | (k', v') :: groups' =>
      match cmp k k' with
      | Lt => (k, v) :: groups
      | Eq => (k', (v' + v)%Z) :: groups'
      | Gt => (k', v') :: add_to_group cmp k v groups'
      end
  end.

Definition group_sum {K} (cmp : K -> K -> comparison) (key : Timestamp -> K)
    (s : series bool) : list (K * Z) :=
  fold_left (fun groups '(t, b) => add_to_group cmp (key t) (Z.b2z b) groups) s [].

Definition xr_groupby_sum {K} (name : string) (cmp : K -> K -> comparison)
    (key : Timestamp -> K) (da : DataArray (series bool)) : M (DataArray (list (K * Z))) :=
  do _ <- log_op (OpGroupbySum name) ;;
  mret (mkDA ∅ (map (group_sum cmp key) (da_points da))).

(** [day_totals > 0] *)
Definition xr_positive {K} (da : DataArray (list (K * Z))) : M (DataArray (list (K * bool))) :=
  do _ <- log_op OpCompare ;;
  mret (mkDA ∅ (map (map (fun '(k, n) => (k, (0 <? n)%Z))) (da_points da))).

Definition get_exceedance_events (da : DataArray (series num)) (threshold_value : num)
    (threshold_direction : string) (groupby : option string)
    : M (DataArray (series bool)) :=
  do events_da <-
    (if String.eqb threshold_direction "above" then
       xr_compare num_gtb da threshold_value
     else if String.eqb threshold_direction "below" then
       xr_compare num_ltb da threshold_value
     else
       mraise (ValueError
         ("Unknown value for `threshold_direction` parameter: " ++ threshold_direction
          ++ ". Available options are 'above' or 'below'."))) ;;
  match groupby with
  | Some g =>
      if String.eqb g "1day" then
        do day_totals <- xr_groupby_sum "time.date" date_compare date events_da ;;
        do events_da <- xr_positive day_totals ;;
        (* events_da["date"] = pd.to_datetime(events_da.date), renamed to time *)
        mret (mkDA (da_attrs events_da)
                (map (map (fun '(d, b) => (to_datetime d, b))) (da_points events_da)))
      else
        mraise (ValueError "Duration options other than '1day' not yet implmented.")
  | None => mret events_da
  end.

Definition get_exceedance_count (da : DataArray (series num)) (threshold_value : num)
    (period_length : string) (threshold_direction : string)
    (duration groupby smoothing : option string)
    : M (DataArray (list (Z * Z))) :=
  if bool_decide (duration <> None) then
    mraise (ValueError "Duration option not yet implemented.")
  else if bool_decide (smoothing <> None) then
    mraise (ValueError "Smoothing option not yet implemented.")
  else
    do events_da <-
      get_exceedance_events da threshold_value threshold_direction groupby ;;
    if String.eqb period_length "1year" then
      xr_groupby_sum "time.year" Z.compare year events_da
    else
      mraise (ValueError
        "Other period_length options not yet implemented. Please use '1year'.").

(** ** A small instance of the libraries

    Used to run the embedding on concrete inputs: every family is fitted
    as the uniform distribution over the range of the sample. *)
Module Fixture.

Definition q_min (l : list Q) (d : Q) : Q :=
  fold_right (fun x m => if Qle_bool x m then x else m) d l.
Definition q_max (l : list Q) (d : Q) : Q :=
  fold_right (fun x m => if Qle_bool m x then x else m) d l.

Definition fit (ld : lmom_distr_t) (a : list num) : result params :=
  if existsb is_nan a then Raise (ValueError "L-Moments invalid")
  else
    match finite_values a with
    | [] => Raise (ValueError "At least 2 data points must be provided.")
    | x :: l =>
        let lo := q_min l x in
        let hi := q_max l x in
        if Qeq_bool lo hi then Raise (ValueError "L-Moments invalid")
        else
          let shape :=
            match ld with
            | ldistr_gum => []
            | ldistr_pe3 => [("skew", Num 0%Q)]
            | _ => [("c", Num (-1)%Q)]
            end in
          Ok (shape ++ [("loc", Num lo); ("scale", Num (hi - lo)%Q)])%list
    end.

Definition param_or (d : params) (key : string) (default : Q) : Q :=
  match params_get d key with
  | Ok (Num q) => q
  | _ => default
  end.

Definition uniform (loc scale : Q) : rv_frozen :=
  {| ppf := fun p =>
       match p with
       | Num q =>
           if Qle_bool 0 q && Qle_bool q 1 then Ok (Num (loc + q * scale)%Q)
           else Ok NaN
       | NaN => Ok NaN
       end;
     cdf := fun x =>
       match x with
       | Num q =>
           if Qle_bool q loc then Ok (Num 0%Q)
           else if Qle_bool (loc + scale)%Q q then Ok (Num 1%Q)
           else Ok (Num ((q - loc) / scale)%Q)
       | NaN => Ok NaN
       end |}.

Definition frozen (sd : scipy_distr) (d : params) : result rv_frozen :=
  Ok (uniform (param_or d "loc" 0%Q) (param_or d "scale" 1%Q)).

Definition kstest (a : list num) (name : string) (args : list num) : result (num * num) :=
  match a with
  | [] => Raise (ValueError "Data passed to ks_1samp must not be empty")
  | _ => Ok (Num (1 # 4), Num (3 # 4))
  end.

#[export] Instance libs : Libs := {|
  lmom_fit := fit;
  stats_frozen := frozen;
  stats_kstest := kstest;
  random_raw := fun n => (n * n * n / 7 + 3 * n)%nat;
  py_str := fun _ => "x";
  resample_year_max := fun s => s;
  xr_groupby_error := fun _ =>
    ValueError "not enough values to unpack (expected 1, got 0)";
  xr_block_error := fun _ =>
    ValueError "applied function returned data with unexpected number of dimensions"
|}.

(** The same libraries, with an L-moment fit that gives up: its iteration
    does not converge, which lmoments3 reports with a plain exception. *)
Definition stalled : Libs := {|
  lmom_fit := fun _ _ => Raise (Exception "Iteration has not converged");
  stats_frozen := frozen;
  stats_kstest := kstest;
  random_raw := fun n => (n * n * n / 7 + 3 * n)%nat;
  py_str := fun _ => "x";
  resample_year_max := fun s => s;
  xr_groupby_error := fun _ =>
    ValueError "not enough values to unpack (expected 1, got 0)";
  xr_block_error := fun _ =>
    ValueError "applied function returned data with unexpected number of dimensions"
|}.

(** The world before anything ran. *)
Definition world0 : world := mkWorld 0 [].

Definition at_hour (y m d h : Z) (v : Q) : Timestamp * num := (mkTime y m d h, Num v).

Definition sample : list num :=
  [Num 3%Q; Num 1%Q; Num 4%Q; Num 1%Q; Num 5%Q; Num 9%Q; Num 2%Q; Num 6%Q].

Definition annual (values : list num) : series num :=
  map (fun '(y, v) => (mkTime y 12 31 0, v))
    (combine (map Z.of_nat (seq 2000 (length values))) values).

(** A plain time series. *)
Definition sample_array : DataArray (series num) :=
  mkDA {["units" := "K"]} [annual sample].

(** A grid of two points. *)
Definition sample2 : list num :=
  [Num 2%Q; Num 7%Q; Num 1%Q; Num 8%Q; Num 2%Q; Num 8%Q; Num 1%Q; Num 8%Q].

Definition grid_array : DataArray (series num) :=
  mkDA {["units" := "K"]} [annual sample; annual sample2].

(** Three years of entries against the threshold 35: five above in 2001,
    none in 2002, twelve in 2003. *)
Definition hours (y m d : Z) (first count : nat) (v : Q) : series num :=
  map (fun h => at_hour y m d (Z.of_nat h) v) (seq first count).

Definition three_years : series num :=
  (hours 2001 7 1 0 5 40 ++ hours 2001 1 1 5 2 10 ++
   hours 2002 7 1 0 3 20 ++
   hours 2003 7 1 0 12 36 ++ hours 2003 1 1 12 1 35)%list.

End Fixture.

(** ** Vocabulary of the specification *)

(** Division where it is defined, as the specification writes it. *)
Definition num_quot : num -> num -> num := num_lift2 Qdiv.

(** The return period the specification assigns to a non-exceedance
    probability [p]: undefined at [p = 1], [-1 / (p - 1)] rounded to three
    decimals otherwise. *)
Definition spec_return_period (p : num) : num :=
  if num_eqb p (Num 1%Q) then NaN
  else py_round (num_quot (Num (-1)%Q) (num_sub p (Num 1%Q))) 3.

(** The scipy distribution and the fitted parameters the goodness-of-fit
    test uses for each family. *)
Definition ks_name (distr : string) : string :=
  family_chain distr "genextreme" "gumbel_r" "weibull_min" "pearson3" "genpareto" "".

Definition ks_keys (distr : string) : list string :=
  family_chain distr
    ["c"; "loc"; "scale"] ["loc"; "scale"] ["c"; "loc"; "scale"]
    ["skew"; "loc"; "scale"] ["c"; "loc"; "scale"] [].


(** The scipy constructor [get_fitted_distr] pairs with each family name. *)
Definition scipy_of (distr : string) : scipy_distr :=
  family_chain distr genextreme gumbel_r weibull_min pearson3 genpareto genextreme.

(** One evaluation as the specification describes it, on a sample at
    hand: refit the family, then evaluate the return-metric calculator on
    the refit. A step that fails with a [ValueError] or a
    [ZeroDivisionError] yields NaN; any other exception is passed on. *)
Definition soft (r : result num) : result num :=
  match r with
  | Ok v => Ok v
  | Raise e => if caught_VZ e then Ok NaN else Raise e
  end.

Definition refit_metric `{L : Libs} (sample : list num) (distr : string)
    (ld : lmom_distr_t) (kind : string) (arg : num) : result num :=
  match lmom_fit ld sample with
  | Raise e => soft (Raise e)
  | Ok lmoments =>
      match stats_frozen (scipy_of distr) lmoments with
      | Raise e => soft (Raise e)
      | Ok fitted => soft (calculate_return (Some fitted) kind arg)
      end
  end.

(** The resample a bootstrap replicate draws when the generator stands at
    [pos]: as many draws as the sample has elements, each the element at
    a raw draw reduced modulo the size. Then the outcome of that
    replicate, and the outcomes of [runs] successive replicates. *)
Definition resample `{L : Libs} (ams : list num) (pos : nat) : list num :=
  map (fun i => nth (random_raw i mod length ams) ams NaN) (seq pos (length ams)).

Definition replicate_at `{L : Libs} (ams : list num) (distr : string)
    (ld : lmom_distr_t) (kind : string) (arg : num) (pos : nat) : result num :=
  refit_metric (resample ams pos) distr ld kind arg.

Definition value_of (r : result num) : num :=
  match r with Ok v => v | Raise _ => NaN end.

Definition outcomes `{L : Libs} (ams : list num) (distr : string)
    (ld : lmom_distr_t) (kind : string) (arg : num) (pos runs : nat) : list num :=
  map (fun i => value_of (replicate_at ams distr ld kind arg (pos + i * length ams)))
      (seq 0 runs).

(** The flags of a series against a threshold, the number of entries of
    the calendar year [y] that lie strictly above the threshold, and the
    number of raised flags of that year. *)
Definition flags_above (thr : num) (s : series num) : series bool :=
  map (fun '(t, v) => (t, num_gtb v thr)) s.

Definition count_above (thr : num) (y : Z) (s : series num) : Z :=
  Z.of_nat (length (List.filter (fun '(t, v) => (year t =? y)%Z && num_gtb v thr) s)).

Definition flag_count (y : Z) (fl : series bool) : Z :=
  Z.of_nat (length (List.filter (fun '(t, b) => (year t =? y)%Z && b) fl)).

(** The total recorded for the key [y] in a list of groups. *)
Fixpoint group_total (y : Z) (groups : list (Z * Z)) : Z :=
  match groups with
  | [] => 0
  | (k, v) :: groups' =>
      ((if (k =? y)%Z then v else 0) + group_total y groups')%Z
  end.

(** A fallible function applied to every element, stopping at the first
    error. *)
Fixpoint traverse {A B} (f : A -> result B) (l : list A) : result (list B) :=
  match l with
  | [] => Ok []
  | a :: l' => rbind (f a) (fun b => rbind (traverse f l') (fun bs => Ok (b :: bs)))
  end.

(** The operations a vectorised function logs around its point function. *)
Definition vectorised_ops (multiple_points : bool) : list xr_op :=
  if multiple_points then [OpStack; OpApplyUfunc; OpUnstack] else [OpApplyUfunc].

(** The arrays a fit-derived function is meant for: with
    [multiple_points] a grid of at least two points, without it a single
    time series; in both cases more than one entry along time, which
    [squeeze()] would otherwise drop as well. *)
Definition shape_fits (multiple_points : bool) (points : list (series num)) : Prop :=
  (if multiple_points then (2 <= length points)%nat else length points = 1%nat) /\
  Forall (fun s => (2 <= length s)%nat) points.

(** [x] lies between two of the numbers of [outs]. *)
Definition within_outcomes (outs : list num) (x : Q) : Prop :=
  exists a b, In (Num a) outs /\ In (Num b) outs /\ (a <= x)%Q /\ (x <= b)%Q.

(** The random draws the bootstrap of every point consumes: [runs]
    resamples of the length of each series. *)
Definition total_draws (runs : nat) (points : list (series num)) : nat :=
  fold_right (fun s acc => (runs * length s + acc)%nat) 0%nat points.

(** The dataset the [get_return_*] functions assemble from the triples
    (estimate, lower limit, upper limit) of the points. *)
Definition assembled (kind key label : string) (lo hi : Q) `{L : Libs}
    (attrs : gmap string string) (distr : string)
    (triples : list (num * num * num)) : Dataset :=
  let new_ds := to_dataset kind (mkDA ∅ (map (fun t => fst (fst t)) triples)) in
  let new_ds := ds_setitem new_ds "conf_int_lower_limit"
                  (mkDA ∅ (map (fun t => snd (fst t)) triples)) in
  let new_ds := ds_setitem new_ds "conf_int_upper_limit" (mkDA ∅ (map snd triples)) in
  let new_ds := ds_var_attrs_setitem new_ds kind key label in
  let new_ds := ds_var_attrs_setitem new_ds "conf_int_lower_limit"
                  "confidence interval lower bound"
                  (py_str (Num lo) ++ "th percentile") in
  let new_ds := ds_var_attrs_setitem new_ds "conf_int_upper_limit"
                  "confidence interval upper bound"
                  (py_str (Num hi) ++ "th percentile") in
  ds_attrs_setitem (ds_set_attrs new_ds attrs) "distribution" distr.

(** The flags of a series strictly below a threshold, and per calendar
    year: the entries below the threshold, the entries flagged in neither
    direction, and all entries. *)
Definition flags_below (thr : num) (s : series num) : series bool :=
  map (fun '(t, v) => (t, num_ltb v thr)) s.

Definition count_below (thr : num) (y : Z) (s : series num) : Z :=
  Z.of_nat (length (List.filter (fun '(t, v) => (year t =? y)%Z && num_ltb v thr) s)).

Definition unflagged (thr v : num) : bool :=
  negb (num_gtb v thr) && negb (num_ltb v thr).

Definition count_unflagged (thr : num) (y : Z) (s : series num) : Z :=
  Z.of_nat (length (List.filter (fun '(t, v) => (year t =? y)%Z && unflagged thr v) s)).

Definition entries_in_year (y : Z) (s : series num) : Z :=
  Z.of_nat (length (List.filter (fun '(t, _) => (year t =? y)%Z) s)).

(** The sum of the counts of all periods. *)
Definition sum_counts {K} (counts : list (K * Z)) : Z :=
  fold_right (fun kc acc => (snd kc + acc)%Z) 0%Z counts.

(** Calendar days in chronological order. *)
Definition date_lt (a b : date_t) : Prop := date_compare a b = Lt.

(** The flags [get_exceedance_events] returns for a series under
    [groupby="1day"]: one per calendar day, stamped at midnight. *)
Definition day_flags (thr : num) (s : series num) : series bool :=
  map (fun '(d, b) => (to_datetime d, b))
    (map (fun '(d, n) => (d, (0 <? n)%Z))
       (group_sum date_compare date (flags_above thr s))).

(** The total recorded for the key [y] in a list of groups, for any key
    type, and the number of raised flags whose key is [y]. *)
Definition is_Eq (c : comparison) : bool :=
  match c with Eq => true | _ => false end.

Fixpoint key_total {K} (cmp : K -> K -> comparison) (y : K)
    (groups : list (K * Z)) : Z :=
  match groups with
  | [] => 0
  | (k, v) :: groups' =>
      ((if is_Eq (cmp k y) then v else 0) + key_total cmp y groups')%Z
  end.

Definition key_count {K} (cmp : K -> K -> comparison) (key : Timestamp -> K)
    (y : K) (fl : series bool) : Z :=
  Z.of_nat (length (List.filter (fun '(t, b) => is_Eq (cmp (key t) y) && b) fl)).

(** The total recorded in the groups of the days of the year [y]. *)
Fixpoint year_total (y : Z) (groups : list (date_t * Z)) : Z :=
  match groups with
  | [] => 0
  | (d, v) :: groups' =>
      ((if (fst (fst d) =? y)%Z then v else 0) + year_total y groups')%Z
  end.

(** * Properties *)

(** ** The return-metric calculator *)

Lemma try_except_ok {A} (a : A) caught (h : A) :
  try_except (Ok a) caught h = Ok a.
Proof. reflexivity. Qed.

Lemma try_except_caught {A} (e : exn) caught (h : A) :
  caught e = true -> try_except (Raise e) caught h = Ok h.
Proof. intros Hc. simpl. now rewrite Hc. Qed.

Lemma num_div_defined (x y : num) :
  num_eqb y (Num 0%Q) = false -> num_div x y = Ok (num_quot x y).
Proof.
  destruct x as [|a], y as [|b]; simpl; intros Hy; try reflexivity;
    now rewrite Hy.
Qed.

Lemma num_div_by_zero (x y : num) :
  num_eqb y (Num 0%Q) = true -> num_div x y = Raise ZeroDivisionError.
Proof.
  destruct x as [|a], y as [|b]; simpl; intros Hy; try discriminate;
    now rewrite Hy.
Qed.

Lemma sub_one_nonzero (p : num) :
  num_eqb p (Num 1%Q) = false -> num_eqb (num_sub p (Num 1%Q)) (Num 0%Q) = false.
Proof.
  destruct p as [|q]; simpl; [reflexivity|].
  intros Hp. destruct (Qeq_bool (q - 1) 0) eqn:E; [|reflexivity].
  apply Qeq_bool_iff in E.
  assert (Hq : Qeq_bool q 1 = true) by (apply Qeq_bool_iff; lra).
  congruence.
Qed.

(** The branch [calculate_return] takes for each supported kind. *)
Lemma calculate_return_value_eq (fd : option rv_frozen) (T : num) :
  calculate_return fd "return_value" T =
  try_except
    (rbind (num_div (Num 1%Q) T) (fun inv =>
     rbind (call_ppf fd (num_sub (Num 1%Q) inv)) (fun return_value =>
     Ok (py_round return_value 5))))
    caught_VZA NaN.
Proof. reflexivity. Qed.

Lemma calculate_return_prob_eq (fd : option rv_frozen) (m : num) :
  calculate_return fd "return_prob" m =
  try_except
    (rbind (call_cdf fd m) (fun c => Ok (num_sub (Num 1%Q) c)))
    caught_VZA NaN.
Proof. reflexivity. Qed.

Lemma calculate_return_period_eq (fd : option rv_frozen) (m : num) :
  calculate_return fd "return_period" m =
  try_except
    (rbind (call_cdf fd m) (fun return_prob =>
     if num_eqb return_prob (Num 1%Q) then Ok NaN
     else
       rbind (num_div (Num (-1)%Q) (num_sub return_prob (Num 1%Q)))
         (fun return_period => Ok (py_round return_period 3))))
    caught_VZA NaN.
Proof. reflexivity. Qed.

Lemma return_period_of_cdf (fd : option rv_frozen) (m p : num) :
  call_cdf fd m = Ok p ->
  calculate_return fd "return_period" m = Ok (spec_return_period p).
Proof.
  intros Hc. rewrite calculate_return_period_eq, Hc.
  unfold spec_return_period. cbn [rbind].
  destruct (num_eqb p (Num 1%Q)) eqn:E; [reflexivity|].
  now rewrite (num_div_defined _ _ (sub_one_nonzero p E)).
Qed.

(** C1. On a fitted distribution whose inverse and forward functions
    return, [calculate_return] computes: for ["return_value"] and a period
    [T], the inverse function at [1 - 1/T], rounded to 5 decimals; for
    ["return_prob"] and a magnitude [m], [1 - CDF(m)], not rounded; for
    ["return_period"] and [m], NaN when [CDF(m)] equals 1 and otherwise
    [-1 / (CDF(m) - 1)] rounded to 3 decimals. *)
Theorem calculate_return_computes (fd : option rv_frozen) (T m v c : num) :
  num_eqb T (Num 0%Q) = false ->
  call_ppf fd (num_sub (Num 1%Q) (num_quot (Num 1%Q) T)) = Ok v ->
  call_cdf fd m = Ok c ->
  calculate_return fd "return_value" T = Ok (py_round v 5) /\
  calculate_return fd "return_prob" m = Ok (num_sub (Num 1%Q) c) /\
  calculate_return fd "return_period" m =
    Ok (if num_eqb c (Num 1%Q) then NaN
        else py_round (num_quot (Num (-1)%Q) (num_sub c (Num 1%Q))) 3).
Proof.
  intros HT Hv Hc. split; [|split].
  - rewrite calculate_return_value_eq, (num_div_defined _ _ HT).
    cbn [rbind]. now rewrite Hv.
  - now rewrite calculate_return_prob_eq, Hc.
  - apply (return_period_of_cdf fd m c Hc).
Qed.

Lemma calculate_return_computes_witness :
  calculate_return (Some (Fixture.uniform 1 8)) "return_value" (Num 10%Q)
    = Ok (py_round (Num (1 + (1 - 1 / 10) * 8)%Q) 5) /\
  calculate_return (Some (Fixture.uniform 1 8)) "return_prob" (Num 7%Q)
    = Ok (num_sub (Num 1%Q) (Num ((7 - 1) / 8)%Q)) /\
  calculate_return (Some (Fixture.uniform 1 8)) "return_period" (Num 7%Q)
    = Ok (py_round (num_quot (Num (-1)%Q) (num_sub (Num ((7 - 1) / 8)%Q) (Num 1%Q))) 3).
Proof.
  apply (calculate_return_computes (Some (Fixture.uniform 1 8))
           (Num 10%Q) (Num 7%Q)
           (Num (1 + (1 - 1 / 10) * 8)%Q) (Num ((7 - 1) / 8)%Q));
    reflexivity.
Defined.

(** C10. The kind is not validated by [calculate_return]: on any string
    outside the three supported kinds no branch assigns [result] and the
    final [return] raises, whatever the distribution; [bootstrap] rejects
    such a kind before it does anything else. *)
Theorem calculate_return_unknown_kind
    `{L : Libs} (fd : option rv_frozen) (kind : string) (arg : num) :
  str_in kind data_variables = false ->
  calculate_return fd kind arg = Raise (UnboundLocalError "result") /\
  forall ams distr w,
    bootstrap ams distr kind arg w =
      (Raise (ValueError
         "invalid data variable type. expected one of the following: ['return_value', 'return_prob', 'return_period']"),
       w).
Proof.
  intros Hk. split.
  - unfold str_in, data_variables in Hk. cbn [existsb] in Hk.
    rewrite orb_false_r in Hk.
    apply orb_false_elim in Hk as [H1 Hk].
    apply orb_false_elim in Hk as [H2 H3].
    unfold calculate_return. now rewrite H1, H2, H3.
  - intros ams distr w. unfold bootstrap. now rewrite Hk.
Qed.

Lemma calculate_return_unknown_kind_witness :
  calculate_return (Some (Fixture.uniform 1 8)) "return_level" (Num 10%Q)
    = Raise (UnboundLocalError "result").
Proof.
  exact (proj1 (calculate_return_unknown_kind (L := Fixture.libs)
                  (Some (Fixture.uniform 1 8)) "return_level" (Num 10%Q)
                  eq_refl)).
Defined.

Lemma py_round_is_nan (x : num) (n : nat) : is_nan (py_round x n) = is_nan x.
Proof. now destruct x. Qed.

Lemma spec_return_period_nan (p : num) :
  is_nan (spec_return_period p) = true <->
  is_nan p = true \/ num_eqb p (Num 1%Q) = true.
Proof.
  unfold spec_return_period.
  destruct (num_eqb p (Num 1%Q)) eqn:E.
  - split; [now right | reflexivity].
  - rewrite py_round_is_nan. destruct p as [|q]; simpl.
    + split; [now left | reflexivity].
    + split; [discriminate | intros [?|?]; discriminate].
Qed.

(** C2, as stated, fails: at a NaN magnitude the forward function returns
    NaN, as scipy's does; the comparison with 1.0 is then false and the
    return period is NaN although the probability is not 1. *)
Lemma return_period_nan_not_only_at_one :
  ~ (forall (fd : option rv_frozen) (m p : num),
       call_cdf fd m = Ok p ->
       (calculate_return fd "return_period" m = Ok NaN <->
        num_eqb p (Num 1%Q) = true)).
Proof.
  intros Hclaim.
  destruct (Hclaim (Some (Fixture.uniform 1 8)) NaN NaN eq_refl) as [Hnan _].
  specialize (Hnan eq_refl). discriminate Hnan.
Qed.

(** C2, amended. Whatever the distribution and the argument, an error of
    one of the classes [ValueError], [ZeroDivisionError], [AttributeError]
    (the last is what a missing fit raises) inside a supported kind yields
    NaN: a zero period, a failing inverse function, a failing forward
    function. When the forward function returns a probability [p], the
    return period is returned, never raised, and it is NaN exactly when
    [p] is NaN or equals 1. *)
Theorem calculate_return_fails_softly
    (fd : option rv_frozen) (arg : num) (e : exn) :
  caught_VZA e = true ->
  (num_eqb arg (Num 0%Q) = true ->
     calculate_return fd "return_value" arg = Ok NaN) /\
  (num_eqb arg (Num 0%Q) = false ->
   call_ppf fd (num_sub (Num 1%Q) (num_quot (Num 1%Q) arg)) = Raise e ->
     calculate_return fd "return_value" arg = Ok NaN) /\
  (call_cdf fd arg = Raise e ->
     calculate_return fd "return_prob" arg = Ok NaN /\
     calculate_return fd "return_period" arg = Ok NaN) /\
  (forall p, call_cdf fd arg = Ok p ->
     exists r, calculate_return fd "return_period" arg = Ok r /\
       (is_nan r = true <-> is_nan p = true \/ num_eqb p (Num 1%Q) = true)).
Proof.
  intros He. split; [|split; [|split]].
  - intros H0. rewrite calculate_return_value_eq, (num_div_by_zero _ _ H0).
    reflexivity.
  - intros H0 Hp. rewrite calculate_return_value_eq, (num_div_defined _ _ H0).
    cbn [rbind]. rewrite Hp. now apply try_except_caught.
  - intros Hc. split.
    + rewrite calculate_return_prob_eq, Hc. now apply try_except_caught.
    + rewrite calculate_return_period_eq, Hc. now apply try_except_caught.
  - intros p Hc. exists (spec_return_period p). split.
    + now apply return_period_of_cdf.
    + apply spec_return_period_nan.
Qed.

Lemma calculate_return_fails_softly_witness :
  calculate_return None "return_prob" (Num 3%Q) = Ok NaN /\
  calculate_return None "return_period" (Num 3%Q) = Ok NaN.
Proof.
  apply (calculate_return_fails_softly None (Num 3%Q) AttributeError eq_refl).
  reflexivity.
Defined.

(** ** The goodness-of-fit tester *)

Lemma str_in_distrs (distr : string) :
  str_in distr distrs = true ->
  distr = "gev" \/ distr = "gumbel" \/ distr = "weibull" \/
  distr = "pearson3" \/ distr = "genpareto".
Proof.
  unfold str_in, distrs. cbn [existsb]. rewrite orb_false_r.
  intros Hd. repeat (apply orb_prop in Hd as [Hd|Hd]);
    apply String.eqb_eq in Hd; tauto.
Qed.

Ltac each_family H :=
  apply str_in_distrs in H;
  destruct H as [H|[H|[H|[H|H]]]]; subst.

Lemma ks_stat_supported `{L : Libs} (distr : string) (ld : lmom_distr_t)
    (ams : list num) :
  str_in distr distrs = true ->
  ks_stat distr ld ams = ks_try distr ld (ks_name distr) (ks_keys distr) ams.
Proof. intros Hd. each_family Hd; reflexivity. Qed.

Lemma get_fitted_distr_supported `{L : Libs} (ams : list num) (distr : string)
    (ld : lmom_distr_t) :
  str_in distr distrs = true ->
  get_fitted_distr ams distr ld = fit_with (scipy_of distr) ld ams.
Proof. intros Hd. each_family Hd; reflexivity. Qed.

Lemma params_get_In (d : params) (key : string) (v : num) :
  List.NoDup (map fst d) -> In (key, v) d -> params_get d key = Ok v.
Proof.
  induction d as [|[k x] d IH]; intros Hnd Hin; [destruct Hin|].
  cbn [map fst] in Hnd. apply List.NoDup_cons_iff in Hnd as [Hk Hnd].
  cbn [params_get]. destruct Hin as [[= -> ->]|Hin].
  - now rewrite String.eqb_refl.
  - destruct (String.eqb_spec k key) as [->|Hne]; [|now apply IH].
    exfalso. apply Hk. apply in_map_iff. now exists (key, v).
Qed.

Lemma params_get_all_In (d : params) (keys : list string) (args : list num) :
  List.NoDup (map fst d) ->
  Forall2 (fun key v => In (key, v) d) keys args ->
  params_get_all d keys = Ok args.
Proof.
  intros Hnd. induction 1 as [|key v keys args Hin _ IH]; [reflexivity|].
  cbn [params_get_all]. now rewrite (params_get_In d key v Hnd Hin), IH.
Qed.

(** C9, as stated, fails: the handler of the test names two exception
    classes, and a fit that fails with any other class, as an iteration
    that does not converge does, is passed on to the caller. *)
Lemma ks_stat_passes_on_other_failures :
  ~ (forall (L : Libs) (distr : string) (ld : lmom_distr_t) (ams : list num)
            (e : exn),
       get_lmom_distr distr = Ok ld ->
       lmom_fit ld ams = Raise e ->
       ks_stat distr ld ams = Ok (NaN, NaN)).
Proof.
  intros Hclaim.
  specialize (Hclaim Fixture.stalled "gev" ldistr_gev Fixture.sample
                (Exception "Iteration has not converged") eq_refl eq_refl).
  discriminate Hclaim.
Qed.

(** C9, amended. For a supported family, the goodness-of-fit test of a
    sample returns [(NaN, NaN)] when the L-moment fit, the scipy
    constructor or the KS computation raises a [ValueError] or a
    [ZeroDivisionError]; an exception of any other class is passed on.
    When nothing is raised, the test returns the D statistic and the
    p-value of the KS test of the sample against the family's scipy
    distribution, called with the fitted parameters in the order shape,
    location, scale (location, scale for the Gumbel family). *)
Theorem ks_stat_advisory `{L : Libs} (distr : string) (ld : lmom_distr_t)
    (ams : list num) :
  str_in distr distrs = true ->
  let failed (e : exn) : result (num * num) :=
    if caught_VZ e then Ok (NaN, NaN) else Raise e in
  (forall e, lmom_fit ld ams = Raise e -> ks_stat distr ld ams = failed e) /\
  (forall lmoments e,
     lmom_fit ld ams = Ok lmoments ->
     stats_frozen (scipy_of distr) lmoments = Raise e ->
     ks_stat distr ld ams = failed e) /\
  (forall lmoments fitted args,
     lmom_fit ld ams = Ok lmoments ->
     stats_frozen (scipy_of distr) lmoments = Ok fitted ->
     List.NoDup (map fst lmoments) ->
     Forall2 (fun key v => In (key, v) lmoments) (ks_keys distr) args ->
     (forall e, stats_kstest ams (ks_name distr) args = Raise e ->
        ks_stat distr ld ams = failed e) /\
     (forall d p, stats_kstest ams (ks_name distr) args = Ok (d, p) ->
        ks_stat distr ld ams = Ok (d, p))).
Proof.
  intros Hd failed. rewrite (ks_stat_supported distr ld ams Hd). unfold ks_try.
  rewrite (get_fitted_distr_supported ams distr ld Hd). unfold fit_with.
  split; [|split].
  - intros e Hfit. now rewrite Hfit.
  - intros lmoments e Hfit Hfr. rewrite Hfit. cbn [rbind]. now rewrite Hfr.
  - intros lmoments fitted args Hfit Hfr Hnd Hargs.
    rewrite Hfit. cbn [rbind]. rewrite Hfr. cbn [rbind].
    rewrite (params_get_all_In lmoments _ args Hnd Hargs). cbn [rbind]. split.
    + intros e Hks. now rewrite Hks.
    + intros d p Hks. now rewrite Hks.
Qed.

Lemma ks_stat_advisory_witness :
  ks_stat (H := Fixture.libs) "gev" ldistr_gev Fixture.sample =
    Ok (Num (1 # 4), Num (3 # 4)).
Proof.
  destruct (ks_stat_advisory (L := Fixture.libs) "gev" ldistr_gev Fixture.sample
              eq_refl) as (_ & _ & Hrun).
  destruct (Hrun [("c", Num (-1)%Q); ("loc", Num 1%Q); ("scale", Num (9 - 1)%Q)]
              (Fixture.uniform 1 (9 - 1))
              [Num (-1)%Q; Num 1%Q; Num (9 - 1)%Q] eq_refl eq_refl)
    as [_ Hok].
  - cbn [map fst].
    repeat (apply List.NoDup_cons; [cbn; intuition discriminate|]).
    apply List.NoDup_nil.
  - change (ks_keys "gev") with ["c"; "loc"; "scale"].
    repeat (apply List.Forall2_cons; [cbn; auto 6|]). apply List.Forall2_nil.
  - exact (Hok _ _ eq_refl).
Defined.

(** ** Percentiles *)

Lemma insert_sorted_In (x y : Q) (l : list Q) :
  In y (insert_sorted x l) -> y = x \/ In y l.
Proof.
  induction l as [|z l IH]; simpl.
  - intros [->|[]]. now left.
  - destruct (Qle_bool x z); simpl; intros [->|Hy]; auto.
    destruct (IH Hy); auto.
Qed.

Lemma insert_sorted_sorted (x : Q) (l : list Q) :
  StronglySorted Qle l -> StronglySorted Qle (insert_sorted x l).
Proof.
  induction 1 as [|z l Hs IH Hz]; simpl.
  - repeat constructor.
  - destruct (Qle_bool x z) eqn:E.
    + apply Qle_bool_iff in E. constructor.
      * now constructor.
      * constructor; [exact E|].
        rewrite List.Forall_forall in Hz |- *. intros y Hy.
        apply Qle_trans with z; auto.
    + assert (z <= x)%Q.
      { destruct (Qlt_le_dec z x) as [Hlt|Hle]; [now apply Qlt_le_weak|].
        apply Qle_bool_iff in Hle. congruence. }
      constructor; [exact IH|].
      rewrite List.Forall_forall in Hz |- *. intros y Hy.
      destruct (insert_sorted_In _ _ _ Hy) as [->|Hy']; auto.
Qed.

Lemma sort_values_sorted (l : list Q) : StronglySorted Qle (sort_values l).
Proof.
  induction l as [|x l IH]; simpl; [constructor|].
  now apply insert_sorted_sorted.
Qed.

Lemma insert_sorted_length (x : Q) (l : list Q) :
  length (insert_sorted x l) = S (length l).
Proof.
  induction l as [|z l IH]; simpl; [reflexivity|].
  destruct (Qle_bool x z); simpl; congruence.
Qed.

Lemma sort_values_length (l : list Q) : length (sort_values l) = length l.
Proof.
  induction l as [|x l IH]; simpl; [reflexivity|].
  now rewrite insert_sorted_length, IH.
Qed.

Lemma sorted_nth_le (s : list Q) (d : Q) :
  StronglySorted Qle s ->
  forall i j, (i <= j)%nat -> (j < length s)%nat -> (nth i s d <= nth j s d)%Q.
Proof.
  induction 1 as [|x s Hs IH Hx]; intros i j Hij Hj; simpl in Hj; [lia|].
  destruct i as [|i], j as [|j]; simpl; try lia.
  - apply Qle_refl.
  - rewrite List.Forall_forall in Hx. apply Hx, nth_In. lia.
  - apply IH; lia.
Qed.

Lemma lerp_bounds (a b t : Q) :
  (a <= b)%Q -> (0 <= t)%Q -> (t <= 1)%Q ->
  (a <= lerp a b t)%Q /\ (lerp a b t <= b)%Q.
Proof. intros Hab H0 H1. unfold lerp. split; nra. Qed.

Lemma lerp_mono (a b t t' : Q) :
  (a <= b)%Q -> (t <= t')%Q -> (lerp a b t <= lerp a b t')%Q.
Proof. intros Hab Ht. unfold lerp. nra. Qed.


Lemma at_rank_mono (s : list Q) (x0 vi vi' : Q) :
  StronglySorted Qle s -> (0 < length s)%nat ->
  (0 <= vi)%Q -> (vi <= vi')%Q ->
  (vi' <= inject_Z (Z.of_nat (length s - 1)))%Q ->
  (at_rank s x0 vi <= at_rank s x0 vi')%Q.
Proof.
  intros Hs Hlen H0 Hle Hmax. unfold at_rank.
  pose proof (Qfloor_le vi) as Hf1. pose proof (Qlt_floor vi) as Hf2.
  pose proof (Qfloor_le vi') as Hf1'. pose proof (Qlt_floor vi') as Hf2'.
  assert (Hpos : (0 <= Qfloor vi)%Z)
    by (change 0%Z with (Qfloor 0); now apply Qfloor_resp_le).
  assert (Hff : (Qfloor vi <= Qfloor vi')%Z) by now apply Qfloor_resp_le.
  assert (Htop : (Qfloor vi' <= Z.of_nat (length s - 1))%Z).
  { rewrite <- (Qfloor_Z (Z.of_nat (length s - 1))). now apply Qfloor_resp_le. }
  rewrite inject_Z_plus in Hf2, Hf2'.
  change (inject_Z 1) with 1%Q in Hf2, Hf2'.
  set (f := Qfloor vi) in *. set (f' := Qfloor vi') in *.
  assert (Hab : forall i, (i <= length s - 1)%nat ->
            (nth i s x0 <= nth (Nat.min (i + 1) (length s - 1)) s x0)%Q).
  { intros i Hi. apply sorted_nth_le; auto; lia. }
  destruct (Z.eq_dec f f') as [Heq|Hne].
  - rewrite <- Heq. apply lerp_mono; [apply Hab; lia | lra].
  - assert (Hlt : (f < f')%Z) by lia.
    apply Qle_trans with (nth (Z.to_nat f') s x0).
    + apply Qle_trans with (nth (Nat.min (Z.to_nat f + 1) (length s - 1)) s x0).
      * apply lerp_bounds; [apply Hab; lia | lra | lra].
      * apply sorted_nth_le; auto; lia.
    + apply lerp_bounds; [apply Hab; lia | lra | lra].
Qed.

Lemma virtual_index_bounds (n : nat) (q q' : Q) :
  (0 <= q)%Q -> (q <= q')%Q -> (q' <= 100)%Q ->
  (0 <= virtual_index n q)%Q /\
  (virtual_index n q <= virtual_index n q')%Q /\
  (virtual_index n q' <= inject_Z (Z.of_nat (n - 1)))%Q.
Proof.
  intros H0 Hle H100. unfold virtual_index.
  assert (Hk : (0 <= inject_Z (Z.of_nat (n - 1)))%Q).
  { change 0%Q with (inject_Z 0). rewrite <- Zle_Qle. lia. }
  set (k := inject_Z (Z.of_nat (n - 1))) in *.
  unfold Qdiv. change (/ 100)%Q with (1 # 100)%Q.
  repeat split; nra.
Qed.

Lemma finite_values_length (a : list num) :
  existsb is_nan a = false -> length (finite_values a) = length a.
Proof.
  induction a as [|[|q] a IH]; simpl; intros Hn; try discriminate; auto.
Qed.

Lemma percentile_linear_nan (a : list num) (q : Q) :
  existsb is_nan a = true -> percentile_linear a q = NaN.
Proof. intros Hn. unfold percentile_linear. now rewrite Hn. Qed.

Lemma percentile_linear_ordered (a : list num) (lo hi : Q) :
  existsb is_nan a = false -> (0 < length a)%nat ->
  (0 <= lo)%Q -> (lo <= hi)%Q -> (hi <= 100)%Q ->
  exists l u, percentile_linear a lo = Num l /\ percentile_linear a hi = Num u /\
              (l <= u)%Q.
Proof.
  intros Hn Hlen H0 Hle H100. unfold percentile_linear. rewrite Hn.
  pose proof (sort_values_sorted (finite_values a)) as Hs.
  pose proof (sort_values_length (finite_values a)) as Hl.
  rewrite (finite_values_length a Hn) in Hl.
  destruct (sort_values (finite_values a)) as [|x0 s] eqn:E;
    [simpl in Hl; lia|].
  destruct (virtual_index_bounds (length (x0 :: s)) lo hi H0 Hle H100)
    as (Hv0 & Hv1 & Hv2).
  eexists _, _. split; [reflexivity|]. split; [reflexivity|].
  apply at_rank_mono; auto. simpl. lia.
Qed.

(** ** The bootstrap estimator *)

Lemma get_lmom_distr_supported (distr : string) (ld : lmom_distr_t) :
  get_lmom_distr distr = Ok ld -> str_in distr distrs = true.
Proof.
  unfold get_lmom_distr. destruct (str_in distr distrs); [reflexivity|].
  discriminate.
Qed.

Lemma family_chain_same {A} (distr : string) (body otherwise : A) :
  str_in distr distrs = true ->
  family_chain distr body body body body body otherwise = body.
Proof. intros Hd. each_family Hd; reflexivity. Qed.

Lemma random_choice_same_size `{L : Libs} (ams : list num) (w : world) :
  random_choice ams (length ams) w =
    (Ok (resample ams (rng_pos w)), mkWorld (rng_pos w + length ams) (xr_log w)).
Proof. destruct ams; reflexivity. Qed.

Lemma resample_length `{L : Libs} (ams : list num) (pos : nat) :
  length (resample ams pos) = length ams.
Proof. unfold resample. now rewrite length_map, length_seq. Qed.

Lemma resample_In `{L : Libs} (ams : list num) (pos : nat) (x : num) :
  In x (resample ams pos) -> In x ams.
Proof.
  unfold resample. rewrite in_map_iff. intros (i & <- & Hi).
  apply in_seq in Hi. apply nth_In.
  apply Nat.mod_upper_bound. destruct ams; simpl in *; lia.
Qed.

(** The [try] block shared by [bootstrap] and the point functions is the
    evaluation of the specification. *)
Lemma fit_and_calculate_refit `{L : Libs} (a : list num) (distr : string)
    (ld : lmom_distr_t) (kind : string) (arg : num) :
  str_in distr distrs = true ->
  fit_and_calculate a distr ld kind arg = refit_metric a distr ld kind arg.
Proof.
  intros Hd. unfold fit_and_calculate, refit_metric.
  rewrite (get_fitted_distr_supported a distr ld Hd). unfold fit_with.
  destruct (lmom_fit ld a) as [lmoments|e]; cbn [rbind]; [|reflexivity].
  destruct (stats_frozen (scipy_of distr) lmoments) as [fitted|e]; cbn [rbind];
    [|reflexivity].
  destruct (calculate_return (Some fitted) kind arg); reflexivity.
Qed.

Lemma bootstrap_eq `{L : Libs} (ams : list num) (distr kind : string)
    (ld : lmom_distr_t) (arg : num) (w : world) :
  str_in kind data_variables = true ->
  get_lmom_distr distr = Ok ld ->
  bootstrap ams distr kind arg w =
    (replicate_at ams distr ld kind arg (rng_pos w),
     mkWorld (rng_pos w + length ams) (xr_log w)).
Proof.
  intros Hk Hld. unfold bootstrap. rewrite Hk. cbn [negb].
  pose proof (get_lmom_distr_supported distr ld Hld) as Hd.
  unfold mbind, lift. rewrite Hld, random_choice_same_size.
  rewrite (family_chain_same _ _ _ Hd), (fit_and_calculate_refit _ _ _ _ _ Hd).
  reflexivity.
Qed.

Lemma bootstrap_loop_eq `{L : Libs} (ams : list num) (distr kind : string)
    (ld : lmom_distr_t) (arg : num) (runs : nat) :
  str_in kind data_variables = true ->
  get_lmom_distr distr = Ok ld ->
  forall (acc : list num) (w : world),
  (forall i, (i < runs)%nat ->
     exists v, replicate_at ams distr ld kind arg (rng_pos w + i * length ams) = Ok v) ->
  bootstrap_loop runs ams distr kind arg acc w =
    (Ok (acc ++ outcomes ams distr ld kind arg (rng_pos w) runs)%list,
     mkWorld (rng_pos w + runs * length ams) (xr_log w)).
Proof.
  intros Hk Hld. induction runs as [|runs IH]; intros acc w Hok.
  - unfold outcomes. simpl. rewrite app_nil_r, Nat.add_0_r. now destruct w.
  - cbn [bootstrap_loop]. unfold mbind at 1.
    rewrite (bootstrap_eq ams distr kind ld arg w Hk Hld).
    destruct (Hok 0%nat ltac:(lia)) as [v Hv].
    rewrite Nat.mul_0_l, Nat.add_0_r in Hv. rewrite Hv.
    rewrite IH.
    + cbn [rng_pos xr_log]. f_equal.
      * f_equal. rewrite <- app_assoc. f_equal.
        unfold outcomes. cbn [seq map].
        rewrite Nat.mul_0_l, Nat.add_0_r, Hv. cbn [value_of app]. f_equal.
        rewrite <- seq_shift, map_map. apply map_ext. intros i.
        do 2 f_equal. lia.
      * f_equal. lia.
    + intros i Hi. cbn [rng_pos].
      destruct (Hok (S i) ltac:(lia)) as [v' Hv']. exists v'.
      rewrite <- Hv'. f_equal. lia.
Qed.

(** The loop stops at the first replicate that raises. *)
Lemma bootstrap_loop_raises `{L : Libs} (ams : list num) (distr kind : string)
    (ld : lmom_distr_t) (arg : num) (e : exn) (runs : nat) :
  str_in kind data_variables = true ->
  get_lmom_distr distr = Ok ld ->
  forall (i : nat) (acc : list num) (w : world),
  (i < runs)%nat ->
  (forall j, (j < i)%nat ->
     exists v, replicate_at ams distr ld kind arg (rng_pos w + j * length ams) = Ok v) ->
  replicate_at ams distr ld kind arg (rng_pos w + i * length ams) = Raise e ->
  bootstrap_loop runs ams distr kind arg acc w =
    (Raise e, mkWorld (rng_pos w + S i * length ams) (xr_log w)).
Proof.
  intros Hk Hld. induction runs as [|runs IH]; intros i acc w Hi Hbefore Hat; [lia|].
  cbn [bootstrap_loop]. unfold mbind at 1.
  rewrite (bootstrap_eq ams distr kind ld arg w Hk Hld).
  destruct i as [|i].
  - rewrite Nat.mul_0_l, Nat.add_0_r in Hat. rewrite Hat.
    do 2 f_equal. lia.
  - destruct (Hbefore 0%nat ltac:(lia)) as [v Hv].
    rewrite Nat.mul_0_l, Nat.add_0_r in Hv. rewrite Hv.
    rewrite (IH i); cbn [rng_pos xr_log].
    + do 2 f_equal. lia.
    + lia.
    + intros j Hj. destruct (Hbefore (S j) ltac:(lia)) as [v' Hv']. exists v'.
      rewrite <- Hv'. f_equal. lia.
    + rewrite <- Hat. f_equal. lia.
Qed.

Lemma outcomes_length `{L : Libs} ams distr ld kind arg pos runs :
  length (outcomes ams distr ld kind arg pos runs) = runs.
Proof. unfold outcomes. now rewrite length_map, length_seq. Qed.

Lemma conf_int_eq `{L : Libs} (ams : list num) (distr kind : string)
    (ld : lmom_distr_t) (arg : num) (runs : nat) (lo hi : Q) (w : world) :
  str_in kind data_variables = true ->
  get_lmom_distr distr = Ok ld ->
  (forall i, (i < runs)%nat ->
     exists v, replicate_at ams distr ld kind arg (rng_pos w + i * length ams) = Ok v) ->
  conf_int ams distr kind arg runs lo hi w =
    (rbind (np_percentile (outcomes ams distr ld kind arg (rng_pos w) runs) [lo; hi])
       (fun limits => Ok (nth 0 limits NaN, nth 1 limits NaN)),
     mkWorld (rng_pos w + runs * length ams) (xr_log w)).
Proof.
  intros Hk Hld Hok. unfold conf_int. unfold mbind at 1.
  rewrite (bootstrap_loop_eq ams distr kind ld arg runs Hk Hld [] w Hok).
  cbn [app]. unfold mbind, lift.
  destruct (np_percentile _ _); reflexivity.
Qed.

Lemma np_percentile_valid (a : list num) (lo hi : Q) :
  valid_percentile lo = true -> valid_percentile hi = true ->
  (0 < length a)%nat ->
  np_percentile a [lo; hi] = Ok [percentile_linear a lo; percentile_linear a hi].
Proof.
  intros Hlo Hhi Hlen. unfold np_percentile. cbn [forallb].
  rewrite Hlo, Hhi. destruct a; [simpl in Hlen; lia | reflexivity].
Qed.

Lemma conf_int_valid `{L : Libs} (ams : list num) (distr kind : string)
    (ld : lmom_distr_t) (arg : num) (runs : nat) (lo hi : Q) (w : world) :
  str_in kind data_variables = true ->
  get_lmom_distr distr = Ok ld ->
  valid_percentile lo = true -> valid_percentile hi = true ->
  (0 < runs)%nat ->
  (forall i, (i < runs)%nat ->
     exists v, replicate_at ams distr ld kind arg (rng_pos w + i * length ams) = Ok v) ->
  conf_int ams distr kind arg runs lo hi w =
    (Ok (percentile_linear (outcomes ams distr ld kind arg (rng_pos w) runs) lo,
         percentile_linear (outcomes ams distr ld kind arg (rng_pos w) runs) hi),
     mkWorld (rng_pos w + runs * length ams) (xr_log w)).
Proof.
  intros Hk Hld Hlo Hhi Hruns Hok.
  rewrite (conf_int_eq ams distr kind ld arg runs lo hi w Hk Hld Hok).
  rewrite (np_percentile_valid _ lo hi Hlo Hhi); [reflexivity|].
  now rewrite outcomes_length.
Qed.

Lemma outcomes_nth `{L : Libs} ams distr ld kind arg pos runs i :
  (i < runs)%nat ->
  nth i (outcomes ams distr ld kind arg pos runs) NaN =
    value_of (replicate_at ams distr ld kind arg (pos + i * length ams)).
Proof.
  intros Hi. unfold outcomes.
  rewrite (nth_indep _ NaN
             (value_of (replicate_at ams distr ld kind arg (pos + 0 * length ams))))
    by now rewrite length_map, length_seq.
  rewrite (map_nth (fun i => value_of
             (replicate_at ams distr ld kind arg (pos + i * length ams)))).
  now rewrite seq_nth.
Qed.

Lemma refit_metric_fit_failure `{L : Libs} sample distr ld kind arg e :
  lmom_fit ld sample = Raise e ->
  refit_metric sample distr ld kind arg = soft (Raise e).
Proof. intros Hfit. unfold refit_metric. now rewrite Hfit. Qed.

Lemma refit_metric_fitted `{L : Libs} sample distr ld kind arg lmoments fitted :
  lmom_fit ld sample = Ok lmoments ->
  stats_frozen (scipy_of distr) lmoments = Ok fitted ->
  refit_metric sample distr ld kind arg =
    soft (calculate_return (Some fitted) kind arg).
Proof. intros Hfit Hfr. unfold refit_metric. now rewrite Hfit, Hfr. Qed.

Lemma percentile_linear_In_nan (a : list num) (q : Q) :
  In NaN a -> percentile_linear a q = NaN.
Proof.
  intros Hin. apply percentile_linear_nan. apply existsb_exists.
  now exists NaN.
Qed.

(** C4, as stated, fails at the run count zero: no replicate is evaluated
    and numpy's percentile of the empty collection raises, so that
    [conf_int] returns no bounds. *)
Lemma conf_int_without_runs :
  ~ (forall (L : Libs) (ams : list num) (distr kind : string) (arg : num)
            (lo hi : Q) (w : world),
       str_in kind data_variables = true ->
       str_in distr distrs = true ->
       valid_percentile lo = true -> valid_percentile hi = true ->
       exists lower upper w',
         conf_int ams distr kind arg 0 lo hi w = (Ok (lower, upper), w')).
Proof.
  intros Hclaim.
  destruct (Hclaim Fixture.libs Fixture.sample "gev" "return_value" (Num 10%Q)
              (5 # 2) (195 # 2) Fixture.world0 eq_refl eq_refl eq_refl eq_refl)
    as (lower & upper & w' & Hrun).
  discriminate Hrun.
Qed.

(** C4, amended. With a supported kind and family, [conf_int] runs
    [bootstrap] exactly [runs] times. Each run draws, with replacement, a
    resample of the size of the sample from the sample, refits the family
    to it and evaluates [calculate_return] on the refit; a refit that fails
    with a [ValueError] or a [ZeroDivisionError] gives the outcome NaN.
    The result of [conf_int] is that of numpy's percentile on the list of
    all [runs] outcomes: with at least one run and bounds within
    [0, 100], the two percentiles of the whole list, which are NaN as soon
    as one outcome is NaN; with no run, an [IndexError]. *)
Theorem conf_int_runs_bootstrap `{L : Libs} (ams : list num)
    (distr kind : string) (ld : lmom_distr_t) (arg : num) (runs : nat)
    (lo hi : Q) (w : world) :
  str_in kind data_variables = true ->
  get_lmom_distr distr = Ok ld ->
  (forall i, (i < runs)%nat ->
     exists v, refit_metric (resample ams (rng_pos w + i * length ams))
                 distr ld kind arg = Ok v) ->
  let outs := outcomes ams distr ld kind arg (rng_pos w) runs in
  let w' := mkWorld (rng_pos w + runs * length ams) (xr_log w) in
  length outs = runs /\
  (forall w0, bootstrap ams distr kind arg w0 =
     (refit_metric (resample ams (rng_pos w0)) distr ld kind arg,
      mkWorld (rng_pos w0 + length ams) (xr_log w0))) /\
  (forall i, (i < runs)%nat ->
     let drawn := resample ams (rng_pos w + i * length ams) in
     length drawn = length ams /\
     (forall x, In x drawn -> In x ams) /\
     (forall e, lmom_fit ld drawn = Raise e -> caught_VZ e = true ->
        nth i outs NaN = NaN) /\
     (forall lmoments fitted x,
        lmom_fit ld drawn = Ok lmoments ->
        stats_frozen (scipy_of distr) lmoments = Ok fitted ->
        calculate_return (Some fitted) kind arg = Ok x ->
        nth i outs NaN = x)) /\
  conf_int ams distr kind arg runs lo hi w =
    (rbind (np_percentile outs [lo; hi])
       (fun limits => Ok (nth 0 limits NaN, nth 1 limits NaN)), w') /\
  (valid_percentile lo = true -> valid_percentile hi = true ->
     ((0 < runs)%nat ->
        conf_int ams distr kind arg runs lo hi w =
          (Ok (percentile_linear outs lo, percentile_linear outs hi), w') /\
        (In NaN outs ->
           conf_int ams distr kind arg runs lo hi w = (Ok (NaN, NaN), w'))) /\
     (runs = 0%nat ->
        exists msg,
          conf_int ams distr kind arg runs lo hi w = (Raise (IndexError msg), w))).
Proof.
  intros Hk Hld Hok outs w'.
  pose proof (conf_int_eq ams distr kind ld arg runs lo hi w Hk Hld Hok) as Heq.
  fold outs w' in Heq.
  split; [apply outcomes_length|].
  split; [intros w0; now apply bootstrap_eq|].
  split; [|split; [exact Heq|]].
  - intros i Hi drawn. split; [apply resample_length|].
    split; [apply resample_In|].
    unfold outs. rewrite (outcomes_nth _ _ _ _ _ _ _ _ Hi).
    unfold replicate_at. fold drawn. split.
    + intros e Hfit He.
      rewrite (refit_metric_fit_failure drawn distr ld kind arg e Hfit).
      cbn [soft]. now rewrite He.
    + intros lmoments fitted x Hfit Hfr Hx.
      rewrite (refit_metric_fitted drawn distr ld kind arg _ _ Hfit Hfr), Hx.
      reflexivity.
  - intros Hlo Hhi. split.
    + intros Hruns.
      assert (Hval : conf_int ams distr kind arg runs lo hi w =
                (Ok (percentile_linear outs lo, percentile_linear outs hi), w'))
        by now apply conf_int_valid.
      split; [exact Hval|]. intros Hnan.
      now rewrite Hval, !(percentile_linear_In_nan outs _ Hnan).
    + intros ->. eexists. rewrite Heq. unfold np_percentile. cbn [forallb].
      rewrite Hlo, Hhi. subst w'. cbn. rewrite Nat.add_0_r. destruct w. reflexivity.
Qed.

Lemma conf_int_runs_bootstrap_witness :
  let outs := outcomes (L := Fixture.libs) Fixture.sample "gev" ldistr_gev
                "return_value" (Num 10%Q) 0 5 in
  resample (L := Fixture.libs) Fixture.sample 8 =
    [Num 1%Q; Num 1%Q; Num 5%Q; Num 6%Q; Num 4%Q; Num 3%Q; Num 4%Q; Num 6%Q] /\
  calculate_return (Some (Fixture.uniform 1 (6 - 1))) "return_value" (Num 10%Q) =
    Ok (nth 1 outs NaN) /\
  outs = [Num (820000 # 100000); Num (550000 # 100000); Num (550000 # 100000);
          Num (460000 # 100000); Num (820000 # 100000)] /\
  conf_int (H := Fixture.libs) Fixture.sample "gev" "return_value" (Num 10%Q) 5
      (5 # 2) (195 # 2) Fixture.world0 =
    (Ok (percentile_linear outs (5 # 2), percentile_linear outs (195 # 2)),
     mkWorld 40 []).
Proof.
  intros outs.
  destruct (conf_int_runs_bootstrap (L := Fixture.libs) Fixture.sample "gev"
              "return_value" ldistr_gev (Num 10%Q) 5 (5 # 2) (195 # 2)
              Fixture.world0 eq_refl eq_refl)
    as (_ & _ & Hrep & _ & Hval).
  - intros i Hi.
    do 5 (destruct i as [|i]; [eexists; vm_compute; reflexivity|]). lia.
  - split; [vm_compute; reflexivity|]. split; [|split].
    + destruct (calculate_return (Some (Fixture.uniform 1 (6 - 1))) "return_value"
                  (Num 10%Q)) as [x|e] eqn:Hx; [|vm_compute in Hx; discriminate Hx].
      f_equal. symmetry.
      destruct (Hrep 1%nat ltac:(lia)) as (_ & _ & _ & Hcalc).
      exact (Hcalc _ _ x eq_refl eq_refl Hx).
    + vm_compute. reflexivity.
    + exact (proj1 (proj1 (Hval eq_refl eq_refl) ltac:(lia))).
Defined.

(** C6, as stated, fails: a replicate whose fit fails with an exception
    other than the two caught classes, as an iteration that does not
    converge does, makes [conf_int] raise instead of returning NaN
    bounds. *)
Lemma conf_int_passes_on_other_failures :
  ~ (forall (L : Libs) (ams : list num) (distr kind : string)
            (ld : lmom_distr_t) (arg : num) (runs : nat) (w : world) (e : exn),
       str_in kind data_variables = true ->
       get_lmom_distr distr = Ok ld ->
       (0 < runs)%nat ->
       lmom_fit ld (resample ams (rng_pos w)) = Raise e ->
       exists w',
         conf_int ams distr kind arg runs (5 # 2) (195 # 2) w = (Ok (NaN, NaN), w')).
Proof.
  intros Hclaim.
  destruct (Hclaim Fixture.stalled Fixture.sample "gev" "return_value"
              ldistr_gev (Num 10%Q) 5%nat Fixture.world0
              (Exception "Iteration has not converged")
              eq_refl eq_refl ltac:(lia) eq_refl) as (w' & Hrun).
  discriminate Hrun.
Qed.

(** C6, amended. With the percentiles 2.5 and 97.5 and at least one run:
    when every replicate gives a number, [conf_int] returns two numbers
    with lower <= upper; when an outcome is NaN, which is the case as soon
    as the refit of one replicate fails with a [ValueError] or a
    [ZeroDivisionError], both bounds are NaN. A refit that fails with an
    exception of another class is not caught: [conf_int] raises it at that
    replicate. *)
Theorem conf_int_bounds `{L : Libs} (ams : list num)
    (distr kind : string) (ld : lmom_distr_t) (arg : num) (runs : nat)
    (w : world) :
  str_in kind data_variables = true ->
  get_lmom_distr distr = Ok ld ->
  (0 < runs)%nat ->
  let drawn (i : nat) := resample ams (rng_pos w + i * length ams) in
  let outs := outcomes ams distr ld kind arg (rng_pos w) runs in
  let w' := mkWorld (rng_pos w + runs * length ams) (xr_log w) in
  ((forall i, (i < runs)%nat ->
      exists v, refit_metric (drawn i) distr ld kind arg = Ok v) ->
   (existsb is_nan outs = false ->
      exists lower upper,
        conf_int ams distr kind arg runs (5 # 2) (195 # 2) w =
          (Ok (Num lower, Num upper), w') /\ (lower <= upper)%Q) /\
   (existsb is_nan outs = true ->
      conf_int ams distr kind arg runs (5 # 2) (195 # 2) w = (Ok (NaN, NaN), w')) /\
   (forall i e, (i < runs)%nat ->
      lmom_fit ld (drawn i) = Raise e -> caught_VZ e = true ->
      existsb is_nan outs = true)) /\
  (forall i e, (i < runs)%nat ->
     (forall j, (j < i)%nat ->
        exists v, refit_metric (drawn j) distr ld kind arg = Ok v) ->
     lmom_fit ld (drawn i) = Raise e -> caught_VZ e = false ->
     conf_int ams distr kind arg runs (5 # 2) (195 # 2) w =
       (Raise e, mkWorld (rng_pos w + S i * length ams) (xr_log w))).
Proof.
  intros Hk Hld Hruns drawn outs w'. split.
  - intros Hok.
    pose proof (conf_int_valid ams distr kind ld arg runs (5 # 2) (195 # 2) w
                  Hk Hld eq_refl eq_refl Hruns Hok) as Heq.
    fold outs w' in Heq. split; [|split].
    + intros Hn.
      destruct (percentile_linear_ordered outs (5 # 2) (195 # 2) Hn)
        as (l & u & Hl & Hu & Hlu); try (unfold Qle; simpl; lia).
      * unfold outs. rewrite outcomes_length. exact Hruns.
      * exists l, u. now rewrite Heq, Hl, Hu.
    + intros Hn. now rewrite Heq, !percentile_linear_nan.
    + intros i e Hi Hfit He. apply existsb_exists. exists NaN.
      split; [|reflexivity].
      assert (Hnth : nth i outs NaN = NaN).
      { unfold outs. rewrite (outcomes_nth _ _ _ _ _ _ _ _ Hi).
        unfold replicate_at. fold (drawn i).
        rewrite (refit_metric_fit_failure (drawn i) distr ld kind arg e Hfit).
        cbn [soft]. now rewrite He. }
      rewrite <- Hnth. apply nth_In. unfold outs. now rewrite outcomes_length.
  - intros i e Hi Hbefore Hfit He. unfold conf_int. unfold mbind at 1.
    rewrite (bootstrap_loop_raises ams distr kind ld arg e runs Hk Hld i [] w
               Hi Hbefore); [reflexivity|].
    unfold replicate_at. fold (drawn i).
    rewrite (refit_metric_fit_failure (drawn i) distr ld kind arg e Hfit).
    cbn [soft]. now rewrite He.
Qed.

Lemma conf_int_bounds_witness :
  outcomes (L := Fixture.libs) Fixture.sample "gev" ldistr_gev "return_value"
    (Num 10%Q) 0 5 =
    [Num (820000 # 100000); Num (550000 # 100000); Num (550000 # 100000);
     Num (460000 # 100000); Num (820000 # 100000)] /\
  exists lower upper,
    conf_int (H := Fixture.libs) Fixture.sample "gev" "return_value" (Num 10%Q) 5
        (5 # 2) (195 # 2) Fixture.world0 =
      (Ok (Num lower, Num upper), mkWorld 40 []) /\
    (lower <= upper)%Q /\ (lower < 5)%Q /\ (8 < upper)%Q.
Proof.
  split; [vm_compute; reflexivity|].
  destruct (proj1 (conf_int_bounds (L := Fixture.libs) Fixture.sample "gev"
                     "return_value" ldistr_gev (Num 10%Q) 5 Fixture.world0
                     eq_refl eq_refl ltac:(lia)))
    as (Hnum & _ & _).
  - intros i Hi.
    do 5 (destruct i as [|i]; [eexists; vm_compute; reflexivity|]). lia.
  - destruct (Hnum ltac:(vm_compute; reflexivity)) as (lower & upper & Hrun & Hle).
    exists lower, upper. split; [exact Hrun|]. split; [exact Hle|].
    vm_compute in Hrun. injection Hrun as <- <-.
    split; reflexivity.
Defined.

(** ** The exceedance engine *)

Lemma add_to_group_keys (k v y : Z) (g : list (Z * Z)) :
  In y (map fst (add_to_group Z.compare k v g)) <-> y = k \/ In y (map fst g).
Proof.
  induction g as [|[k' v'] g IH]; simpl.
  - intuition.
  - destruct (Z.compare_spec k k') as [->|Hlt|Hgt]; simpl.
    + intuition.
    + intuition.
    + rewrite IH. intuition.
Qed.

Lemma add_to_group_sorted (k v : Z) (g : list (Z * Z)) :
  StronglySorted Z.lt (map fst g) ->
  StronglySorted Z.lt (map fst (add_to_group Z.compare k v g)).
Proof.
  induction g as [|[k' v'] g IH]; simpl; intros Hs.
  - repeat constructor.
  - apply StronglySorted_inv in Hs as [Hs Hk'].
    destruct (Z.compare_spec k k') as [->|Hlt|Hgt]; simpl.
    + now constructor.
    + constructor; [now constructor|].
      constructor; [exact Hlt|].
      rewrite List.Forall_forall in Hk' |- *. intros x Hx.
      specialize (Hk' x Hx). lia.
    + constructor; [now apply IH|].
      rewrite List.Forall_forall in Hk' |- *. intros x Hx.
      apply add_to_group_keys in Hx as [->|Hx]; [lia | now apply Hk'].
Qed.

Lemma add_to_group_total (k v y : Z) (g : list (Z * Z)) :
  group_total y (add_to_group Z.compare k v g) =
    (group_total y g + (if (k =? y)%Z then v else 0))%Z.
Proof.
  induction g as [|[k' v'] g IH]; simpl.
  - lia.
  - destruct (Z.compare_spec k k') as [->|Hlt|Hgt]; simpl.
    + destruct (k' =? y)%Z; lia.
    + lia.
    + rewrite IH. lia.
Qed.

Lemma group_total_absent (y : Z) (g : list (Z * Z)) :
  ~ In y (map fst g) -> group_total y g = 0%Z.
Proof.
  induction g as [|[k v] g IH]; simpl; intros Hy; [reflexivity|].
  destruct (Z.eqb_spec k y) as [->|Hne]; [tauto|].
  rewrite IH; tauto.
Qed.

Lemma group_total_sorted (y c : Z) (g : list (Z * Z)) :
  StronglySorted Z.lt (map fst g) -> In (y, c) g -> group_total y g = c.
Proof.
  induction g as [|[k v] g IH]; simpl; intros Hs Hin; [tauto|].
  apply StronglySorted_inv in Hs as [Hs Hk].
  rewrite List.Forall_forall in Hk.
  destruct Hin as [[= -> ->]|Hin].
  - rewrite Z.eqb_refl, group_total_absent; [lia|].
    intros Hy. specialize (Hk y Hy). lia.
  - assert (Hy : In y (map fst g)) by (apply in_map_iff; now exists (y, c)).
    specialize (Hk y Hy).
    destruct (Z.eqb_spec k y); [lia|]. rewrite IH; auto.
Qed.

Lemma flag_count_cons (y : Z) (t : Timestamp) (b : bool) (fl : series bool) :
  flag_count y ((t, b) :: fl) =
    (flag_count y fl + (if (year t =? y)%Z then Z.b2z b else 0))%Z.
Proof.
  unfold flag_count. cbn [List.filter].
  destruct (year t =? y)%Z, b; cbn [andb length Z.b2z]; lia.
Qed.

Lemma group_sum_from (fl : series bool) (g0 : list (Z * Z)) :
  StronglySorted Z.lt (map fst g0) ->
  let g := fold_left
             (fun groups '(t, b) => add_to_group Z.compare (year t) (Z.b2z b) groups)
             fl g0 in
  StronglySorted Z.lt (map fst g) /\
  (forall y, In y (map fst g) <->
             In y (map fst g0) \/ exists t b, In (t, b) fl /\ year t = y) /\
  (forall y, group_total y g = (group_total y g0 + flag_count y fl)%Z).
Proof.
  revert g0. induction fl as [|[t b] fl IH]; intros g0 Hs; cbn [fold_left].
  - split; [exact Hs|]. split.
    + intros y. split; [now left|]. intros [Hy|(t & b & [] & _)]. exact Hy.
    + intros y. unfold flag_count. simpl. lia.
  - destruct (IH _ (add_to_group_sorted (year t) (Z.b2z b) g0 Hs))
      as (Hsorted & Hkeys & Htotal).
    split; [exact Hsorted|]. split.
    + intros y. rewrite Hkeys, add_to_group_keys. split.
      * intros [[->|Hy]|(t' & b' & Hin & Hy)].
        -- right. exists t, b. split; [now left | reflexivity].
        -- now left.
        -- right. exists t', b'. split; [now right | exact Hy].
      * intros [Hy|(t' & b' & [[= <- <-]|Hin] & Hy)].
        -- left. now right.
        -- left. left. now symmetry.
        -- right. now exists t', b'.
    + intros y. rewrite Htotal, add_to_group_total, flag_count_cons. lia.
Qed.

Lemma flag_count_above (thr : num) (y : Z) (s : series num) :
  flag_count y (flags_above thr s) = count_above thr y s.
Proof.
  unfold flag_count, count_above, flags_above. f_equal.
  induction s as [|[t v] s IH]; cbn [map List.filter]; [reflexivity|].
  destruct ((year t =? y)%Z && num_gtb v thr); cbn [length]; now rewrite IH.
Qed.

Lemma sorted_same_keys (l1 l2 : list Z) :
  StronglySorted Z.lt l1 -> StronglySorted Z.lt l2 ->
  (forall y, In y l1 <-> In y l2) -> l1 = l2.
Proof.
  intros H1. revert l2. induction H1 as [|x l1 Hs1 IH Hx]; intros l2 H2 Heq.
  - destruct l2 as [|z l2]; [reflexivity|].
    exfalso. apply (proj2 (Heq z)). now left.
  - destruct H2 as [|z l2 Hs2 Hz].
    + exfalso. apply (proj1 (Heq x)). now left.
    + rewrite List.Forall_forall in Hx, Hz.
      assert (x = z).
      { destruct (proj1 (Heq x) (or_introl eq_refl)) as [Hxz|Hxz]; [auto|].
        destruct (proj2 (Heq z) (or_introl eq_refl)) as [Hzx|Hzx]; [auto|].
        specialize (Hx z Hzx). specialize (Hz x Hxz). lia. }
      subst z. f_equal. apply IH; [exact Hs2|].
      intros y. split; intros Hy.
      * destruct (proj1 (Heq y) (or_intror Hy)) as [<-|Hy']; [|exact Hy'].
        specialize (Hx x Hy). lia.
      * destruct (proj2 (Heq y) (or_intror Hy)) as [<-|Hy']; [|exact Hy'].
        specialize (Hz x Hy). lia.
Qed.

(** C5. With the period ["1year"] and the direction ["above"],
    [get_exceedance_count] compares the data once and sums the flags by
    year. An entry is flagged exactly when its value is strictly greater
    than the threshold. At every point the result lists the calendar
    years present in the series, in increasing order, each with the number
    of its entries above the threshold; so a series over three years
    yields exactly the three counts. *)
Theorem exceedance_count_per_year (da : DataArray (series num)) (thr : num)
    (w : world) :
  get_exceedance_count da thr "1year" "above" None None None w =
    (Ok (mkDA ∅ (map (fun s => group_sum Z.compare year (flags_above thr s))
                   (da_points da))),
     mkWorld (rng_pos w) (xr_log w ++ [OpCompare; OpGroupbySum "time.year"])) /\
  (forall a b, num_gtb (Num a) (Num b) = true <-> (b < a)%Q) /\
  forall s : series num,
    let counts := group_sum Z.compare year (flags_above thr s) in
    StronglySorted Z.lt (map fst counts) /\
    (forall y, In y (map fst counts) <-> exists t v, In (t, v) s /\ year t = y) /\
    (forall y c, In (y, c) counts -> c = count_above thr y s) /\
    (forall y1 y2 y3, (y1 < y2 < y3)%Z ->
       (forall t v, In (t, v) s -> year t = y1 \/ year t = y2 \/ year t = y3) ->
       (forall y, y = y1 \/ y = y2 \/ y = y3 ->
          exists t v, In (t, v) s /\ year t = y) ->
       counts = [(y1, count_above thr y1 s); (y2, count_above thr y2 s);
                 (y3, count_above thr y3 s)]).
Proof.
  split; [|split].
  - unfold get_exceedance_count, get_exceedance_events, xr_compare,
      xr_groupby_sum, mbind, mret, log_op. cbn.
    rewrite map_map, <- app_assoc. reflexivity.
  - intros a b. simpl. rewrite negb_true_iff. split.
    + intros Hle. apply Qnot_le_lt. intros Hab.
      apply Qle_bool_iff in Hab. congruence.
    + intros Hlt. destruct (Qle_bool a b) eqn:E; [|reflexivity].
      apply Qle_bool_iff in E. exfalso. now apply (Qlt_not_le b a).
  - intros s counts.
    destruct (group_sum_from (flags_above thr s) [] (SSorted_nil _))
      as (Hsorted & Hkeys & Htotal).
    fold (group_sum Z.compare year (flags_above thr s)) in Hsorted, Hkeys, Htotal.
    fold counts in Hsorted, Hkeys, Htotal.
    assert (Hyears : forall y, In y (map fst counts) <->
                       exists t v, In (t, v) s /\ year t = y).
    { intros y. rewrite Hkeys. unfold flags_above. split.
      - intros [[]|(t & b & Hin & Hy)].
        apply in_map_iff in Hin as ([t' v] & [= <- <-] & Hin). now exists t', v.
      - intros (t & v & Hin & Hy). right. exists t, (num_gtb v thr).
        split; [|exact Hy]. apply in_map_iff. now exists (t, v). }
    assert (Hcount : forall y c, In (y, c) counts -> c = count_above thr y s).
    { intros y c Hin.
      rewrite <- (group_total_sorted y c counts Hsorted Hin), Htotal.
      rewrite flag_count_above. simpl. lia. }
    split; [exact Hsorted|]. split; [exact Hyears|]. split; [exact Hcount|].
    intros y1 y2 y3 Hlt Hall Hsome.
    assert (Hk : map fst counts = [y1; y2; y3]).
    { apply sorted_same_keys; [exact Hsorted| |].
      - repeat constructor; lia.
      - intros y. rewrite Hyears. split.
        + intros (t & v & Hin & <-). simpl.
          destruct (Hall t v Hin) as [Hy | [Hy | Hy]]; rewrite Hy; auto.
        + simpl. intros [<- | [<- | [<- | []]]]; apply Hsome; auto. }
    destruct counts as [|[k1 c1] [|[k2 c2] [|[k3 c3] [|? ?]]]]; try discriminate.
    simpl in Hk. injection Hk as -> -> ->.
    rewrite (Hcount y1 c1), (Hcount y2 c2), (Hcount y3 c3); simpl; auto.
Qed.

Lemma exceedance_count_per_year_witness :
  group_sum Z.compare year (flags_above (Num 35%Q) Fixture.three_years) =
    [(2001, 5); (2002, 0); (2003, 12)]%Z.
Proof.
  destruct (proj2 (proj2 (exceedance_count_per_year
                            (mkDA ∅ [Fixture.three_years]) (Num 35%Q)
                            Fixture.world0)) Fixture.three_years)
    as (_ & _ & _ & Hthree).
  rewrite (Hthree 2001 2002 2003)%Z.
  - vm_compute. reflexivity.
  - lia.
  - intros t v Hin. vm_compute in Hin.
    repeat (destruct Hin as [Hin|Hin];
            [injection Hin as <- <-; cbn [year]; auto|]).
    destruct Hin.
  - intros y [-> | [-> | ->]].
    + exists (mkTime 2001 7 1 0), (Num 40%Q). split; [now left | reflexivity].
    + exists (mkTime 2002 7 1 0), (Num 20%Q). split; [|reflexivity].
      do 7 right. now left.
    + exists (mkTime 2003 7 1 0), (Num 36%Q). split; [|reflexivity].
      do 10 right. now left.
Defined.

(** ** Configuration errors *)

Lemma get_lmom_distr_unknown (distr : string) :
  str_in distr distrs = false ->
  get_lmom_distr distr =
    Raise (ValueError
      "invalid distr type. expected one of the following: ['gev', 'gumbel', 'weibull', 'pearson3', 'genpareto']").
Proof. intros Hd. unfold get_lmom_distr. now rewrite Hd. Qed.

Lemma raise_first {A B} (e : exn) (k : A -> M B) (w : world) :
  mbind (lift (Raise e)) k w = (Raise e, w).
Proof. reflexivity. Qed.

(** C3, as stated, fails: with [period_length="1month"] the error is
    raised only after the exceedance flags were computed on the data. *)
Lemma period_length_checked_after_flagging :
  ~ (forall (da : DataArray (series num)) (thr : num) (w : world),
       exists e,
         get_exceedance_count da thr "1month" "above" None None None w =
           (Raise e, w)).
Proof.
  intros Hclaim.
  destruct (Hclaim (mkDA ∅ [Fixture.three_years]) (Num 35%Q) Fixture.world0)
    as [e He].
  apply (f_equal (fun r => xr_log (snd r))) in He. cbn in He. discriminate He.
Qed.

(** C3, amended. An unknown distribution name, an invalid threshold
    direction, a given [duration] or [smoothing], and an invalid
    extremes-extraction kind raise a [ValueError] before any operation on
    the data and before any random draw. An unsupported [groupby] and an
    unsupported [period_length] raise a [ValueError] too, but once the
    exceedance flags have been computed: the first after the comparison
    with the threshold, the second after [get_exceedance_events] has
    returned. *)
Theorem configuration_errors `{L : Libs} (w : world) :
  (forall distr, str_in distr distrs = false ->
     exists e, get_lmom_distr distr = Raise e /\ is_ValueError e = true /\
     forall ams arg runs lo hi mp,
       get_lmoments ams distr mp w = (Raise e, w) /\
       get_ks_stat ams distr mp w = (Raise e, w) /\
       get_return_value ams arg distr runs lo hi mp w = (Raise e, w) /\
       get_return_prob ams arg distr runs lo hi mp w = (Raise e, w) /\
       get_return_period ams arg distr runs lo hi mp w = (Raise e, w)) /\
  (forall da thr dir period groupby,
     dir <> "above" -> dir <> "below" ->
     exists e, is_ValueError e = true /\
       get_exceedance_events da thr dir groupby w = (Raise e, w) /\
       get_exceedance_count da thr period dir None groupby None w = (Raise e, w)) /\
  (forall da thr dir period duration groupby smoothing,
     duration <> None \/ smoothing <> None ->
     exists e, is_ValueError e = true /\
       get_exceedance_count da thr period dir duration groupby smoothing w =
         (Raise e, w)) /\
  (forall da extremes_type,
     extremes_type <> "max" ->
     exists e, is_ValueError e = true /\ get_ams da extremes_type w = (Raise e, w)) /\
  (forall da thr dir g,
     dir = "above" \/ dir = "below" -> g <> "1day" ->
     get_exceedance_events da thr dir (Some g) w =
       (Raise (ValueError "Duration options other than '1day' not yet implmented."),
        mkWorld (rng_pos w) (xr_log w ++ [OpCompare]))) /\
  (forall da thr dir period groupby events w',
     period <> "1year" ->
     get_exceedance_events da thr dir groupby w = (Ok events, w') ->
     get_exceedance_count da thr period dir None groupby None w =
       (Raise (ValueError
          "Other period_length options not yet implemented. Please use '1year'."),
        w') /\
     exists ops, xr_log w' = (xr_log w ++ OpCompare :: ops)%list).
Proof.
  split; [|split; [|split; [|split; [|split]]]].
  - intros distr Hd. eexists. split; [now apply get_lmom_distr_unknown|].
    split; [reflexivity|]. intros ams arg runs lo hi mp.
    unfold get_lmoments, get_ks_stat, get_return_value, get_return_prob,
      get_return_period, return_dataset.
    rewrite (get_lmom_distr_unknown distr Hd), !raise_first. auto.
  - intros da thr dir period groupby Ha Hb.
    apply String.eqb_neq in Ha, Hb. eexists. split; [|split].
    2: { unfold get_exceedance_events. rewrite Ha, Hb. reflexivity. }
    + reflexivity.
    + unfold get_exceedance_count. cbn [bool_decide decide_rel].
      rewrite !bool_decide_eq_false_2 by (intros Hn; now apply Hn).
      unfold get_exceedance_events. rewrite Ha, Hb. reflexivity.
  - intros da thr dir period duration groupby smoothing Hgiven.
    unfold get_exceedance_count.
    destruct duration as [d|].
    + eexists. split; [|rewrite bool_decide_eq_true_2 by discriminate; reflexivity].
      reflexivity.
    + destruct smoothing as [sm|]; [|destruct Hgiven as [Hn|Hn]; now contradiction Hn].
      eexists. split; [|rewrite bool_decide_eq_false_2 by (intros Hn; now apply Hn);
                        rewrite bool_decide_eq_true_2 by discriminate; reflexivity].
      reflexivity.
  - intros da extremes_type Hne. apply String.eqb_neq in Hne.
    eexists. split; [|unfold get_ams, str_in; cbn [existsb]; rewrite Hne; reflexivity].
    reflexivity.
  - intros da thr dir g Hdir Hg. apply String.eqb_neq in Hg.
    unfold get_exceedance_events.
    destruct Hdir as [-> | ->]; cbn; rewrite Hg; reflexivity.
  - intros da thr dir period groupby events w' Hp Hev.
    apply String.eqb_neq in Hp. split.
    + unfold get_exceedance_count.
      rewrite !bool_decide_eq_false_2 by (intros Hn; now apply Hn).
      unfold mbind at 1. rewrite Hev, Hp. reflexivity.
    + revert Hev. unfold get_exceedance_events.
      destruct (String.eqb dir "above") eqn:Ha;
        [|destruct (String.eqb dir "below") eqn:Hb]; [| |discriminate].
      all: destruct groupby as [g|];
        [destruct (String.eqb g "1day") eqn:Hg|]; cbn; rewrite ?Hg; cbn;
        intros Heq; try discriminate; injection Heq as _ <-; cbn;
        eexists; rewrite <- ?app_assoc; reflexivity.
Qed.

Lemma configuration_errors_witness :
  exists e, get_lmom_distr "normal" = Raise e /\ is_ValueError e = true.
Proof.
  destruct (proj1 (configuration_errors (L := Fixture.libs) Fixture.world0)
              "normal" eq_refl) as (e & He & Hv & _).
  exists e. now split.
Defined.

(** ** Metadata of the derived datasets *)

Lemma mbind_ok {A B} (m : M A) (k : A -> M B) (w w' : world) (b : B) :
  mbind m k w = (Ok b, w') ->
  exists a w1, m w = (Ok a, w1) /\ k a w1 = (Ok b, w').
Proof.
  unfold mbind. destruct (m w) as [[a|e] w1]; [|discriminate].
  intros Hk. now exists a, w1.
Qed.

Lemma mret_ok {A} (a b : A) (w w' : world) :
  mret a w = (Ok b, w') -> b = a.
Proof. unfold mret. now intros [= -> _]. Qed.

Ltac run_until_return H :=
  repeat (let a := fresh "a" in
          let w1 := fresh "w" in
          let H1 := fresh "Hstep" in
          apply mbind_ok in H as (a & w1 & H1 & H));
  apply mret_ok in H; subst.

(** C7. Whenever one of the fit-derived functions returns its dataset,
    the metadata of that dataset is the metadata of the input series with
    the entry ["distribution"] set to the family name: every other key of
    the input is carried over with its value, and ["distribution"] holds
    the name that was passed. *)
Theorem derived_datasets_carry_metadata `{L : Libs}
    (ams : DataArray (series num)) (distr : string) (mp : bool)
    (arg : num) (runs : nat) (lo hi : Q) (w : world) :
  let expected : gmap string string :=
    <["distribution" := distr]> (da_attrs ams) in
  (forall ds w', get_lmoments ams distr mp w = (Ok ds, w') ->
     da_attrs ds = expected) /\
  (forall ds w', get_ks_stat ams distr mp w = (Ok ds, w') ->
     ds_attrs ds = expected) /\
  (forall ds w', get_return_value ams arg distr runs lo hi mp w = (Ok ds, w') ->
     ds_attrs ds = expected) /\
  (forall ds w', get_return_prob ams arg distr runs lo hi mp w = (Ok ds, w') ->
     ds_attrs ds = expected) /\
  (forall ds w', get_return_period ams arg distr runs lo hi mp w = (Ok ds, w') ->
     ds_attrs ds = expected) /\
  (forall key, key <> "distribution" -> expected !! key = da_attrs ams !! key) /\
  expected !! "distribution" = Some distr.
Proof.
  intros expected. repeat split.
  - intros ds w' Hrun. unfold get_lmoments in Hrun.
    run_until_return Hrun. reflexivity.
  - intros ds w' Hrun. unfold get_ks_stat in Hrun.
    run_until_return Hrun. reflexivity.
  - intros ds w' Hrun. unfold get_return_value, return_dataset in Hrun.
    run_until_return Hrun. reflexivity.
  - intros ds w' Hrun. unfold get_return_prob, return_dataset in Hrun.
    run_until_return Hrun. reflexivity.
  - intros ds w' Hrun. unfold get_return_period, return_dataset in Hrun.
    run_until_return Hrun. reflexivity.
  - intros key Hkey. unfold expected. now rewrite lookup_insert_ne.
  - unfold expected. now rewrite lookup_insert_eq.
Qed.

Lemma derived_datasets_carry_metadata_witness :
  exists ds w',
    get_ks_stat (H := Fixture.libs) Fixture.grid_array "gumbel" true
      Fixture.world0 = (Ok ds, w') /\
    ds_attrs ds = <["distribution" := "gumbel"]> {["units" := "K"]}.
Proof.
  eexists _, _. split.
  - vm_compute. reflexivity.
  - apply (proj1 (proj2 (derived_datasets_carry_metadata (L := Fixture.libs)
                           Fixture.grid_array "gumbel" true (Num 10%Q) 5
                           (5 # 2) (195 # 2) Fixture.world0))
             _ (mkWorld 0 [OpStack; OpApplyUfunc; OpUnstack])).
    vm_compute. reflexivity.
Defined.

(** ** The vectorisation of the point functions *)

Lemma map_points_returns {A B} (f : A -> M B) (l : list A) :
  (forall a w, exists b w', f a w = (Ok b, w')) ->
  forall w, exists bs w', map_points f l w = (Ok bs, w').
Proof.
  intros Hf. induction l as [|a l IH]; intros w; cbn [map_points].
  - now exists [], w.
  - unfold mbind. destruct (Hf a w) as (b & w1 & ->).
    destruct (IH w1) as (bs & w2 & ->). now exists (b :: bs), w2.
Qed.

Lemma map_points_one {A B} (f : A -> M B) (a : A) (w : world) :
  map_points f [a] w = (do b <- f a ;; mret [b]) w.
Proof.
  cbn [map_points]. unfold mbind, mret. destruct (f a w) as [[b|e] w1]; reflexivity.
Qed.

(** On an array of fitting shape, stacking (or not) and applying the point
    function comes to applying it to the values of every point in turn. *)
Lemma vectorised_fits `{L : Libs} {B} (f : list num -> M B)
    (ams : DataArray (series num)) (mp : bool) (w : world) :
  shape_fits mp (da_points ams) ->
  exists input,
    (if mp then stack ams else mret (Whole ams)) w =
      (Ok input, mkWorld (rng_pos w) (xr_log w ++ (if mp then [OpStack] else []))) /\
    forall w1, apply_ufunc f input w1 =
      map_points (fun s => f (map snd s)) (da_points ams)
        (mkWorld (rng_pos w1) (xr_log w1 ++ [OpApplyUfunc])).
Proof.
  intros [Hshape _]. destruct mp.
  - exists (Grouped ams). split; [|reflexivity].
    unfold stack, mbind, log_op, mret.
    destruct (da_points ams) as [|s [|s' points]]; cbn [length] in Hshape;
      [lia | lia | reflexivity].
  - exists (Whole ams). split.
    + unfold mret. rewrite app_nil_r. now destruct w.
    + intros w1. unfold apply_ufunc, mbind at 1, log_op.
      destruct (da_points ams) as [|s [|s' points]]; cbn [length] in Hshape;
        try discriminate.
      now rewrite map_points_one.
Qed.

(** Whenever stacking (or not) and applying the point function returns,
    the point function has run on the values of every point in turn. *)
Lemma vectorised_ok `{L : Libs} {B} (f : list num -> M B)
    (ams : DataArray (series num)) (mp : bool) (input : ufunc_input)
    (bs : list B) (w w1 w2 : world) :
  (if mp then stack ams else mret (Whole ams)) w = (Ok input, w1) ->
  apply_ufunc f input w1 = (Ok bs, w2) ->
  w1 = mkWorld (rng_pos w) (xr_log w ++ (if mp then [OpStack] else [])) /\
  map_points (fun s => f (map snd s)) (da_points ams)
    (mkWorld (rng_pos w1) (xr_log w1 ++ [OpApplyUfunc])) = (Ok bs, w2).
Proof.
  destruct mp.
  - unfold stack, mbind, log_op, mret, mraise.
    destruct (da_points ams) as [|s [|s' points]] eqn:Hpts; try discriminate.
    intros [= <- <-] Hrun. split; [reflexivity|].
    unfold apply_ufunc, mbind at 1, log_op in Hrun. cbn [da_points] in Hrun.
    now rewrite Hpts in Hrun.
  - unfold mret. intros [= <- <-] Hrun. split.
    + rewrite app_nil_r. now destruct w.
    + unfold apply_ufunc, mbind at 1, log_op in Hrun.
      destruct (da_points ams) as [|s [|s' points]]; try discriminate.
      now rewrite map_points_one.
Qed.

(** * Further properties of the module *)

(** ** Registry and fit *)

(** X1. The registry maps each of the five family names to its L-moment
    estimator and rejects every other string with a [ValueError]; the
    fall-through of its [if] chain is never reached. *)
Theorem get_lmom_distr_registry (distr : string) :
  (distr = "gev" /\ get_lmom_distr distr = Ok ldistr_gev) \/
  (distr = "gumbel" /\ get_lmom_distr distr = Ok ldistr_gum) \/
  (distr = "weibull" /\ get_lmom_distr distr = Ok ldistr_wei) \/
  (distr = "pearson3" /\ get_lmom_distr distr = Ok ldistr_pe3) \/
  (distr = "genpareto" /\ get_lmom_distr distr = Ok ldistr_gpa) \/
  (str_in distr distrs = false /\
   get_lmom_distr distr =
     Raise (ValueError
       "invalid distr type. expected one of the following: ['gev', 'gumbel', 'weibull', 'pearson3', 'genpareto']")).
Proof.
  destruct (str_in distr distrs) eqn:Hd.
  - each_family Hd; auto 10.
  - do 5 right. split; [reflexivity | now apply get_lmom_distr_unknown].
Qed.

Lemma not_in_distrs (distr : string) :
  str_in distr distrs = false ->
  String.eqb distr "gev" = false /\ String.eqb distr "gumbel" = false /\
  String.eqb distr "weibull" = false /\ String.eqb distr "pearson3" = false /\
  String.eqb distr "genpareto" = false.
Proof.
  unfold str_in, distrs. cbn [existsb]. rewrite orb_false_r. intros Hd.
  repeat (apply orb_false_elim in Hd as [? Hd]). auto.
Qed.

(** X2. [get_fitted_distr] does not validate the family name: outside the
    five names it raises [UnboundLocalError] without fitting. On a
    supported name an error of the L-moment fit is passed on unchanged,
    and a successful fit is returned as it is, together with the scipy
    distribution of that family frozen at the fitted parameters. *)
Theorem get_fitted_distr_behaviour `{L : Libs} (ams : list num)
    (distr : string) (ld : lmom_distr_t) :
  (str_in distr distrs = false ->
     get_fitted_distr ams distr ld = Raise (UnboundLocalError "lmoments")) /\
  (str_in distr distrs = true ->
     (forall e, lmom_fit ld ams = Raise e ->
        get_fitted_distr ams distr ld = Raise e) /\
     (forall lmoments, lmom_fit ld ams = Ok lmoments ->
        get_fitted_distr ams distr ld =
          rbind (stats_frozen (scipy_of distr) lmoments)
                (fun fitted => Ok (lmoments, fitted)))).
Proof.
  split.
  - intros Hd. destruct (not_in_distrs distr Hd) as (H1 & H2 & H3 & H4 & H5).
    unfold get_fitted_distr, family_chain. now rewrite H1, H2, H3, H4, H5.
  - intros Hd. rewrite (get_fitted_distr_supported ams distr ld Hd).
    unfold fit_with. split.
    + intros e He. now rewrite He.
    + intros lmoments Hfit. now rewrite Hfit.
Qed.

Lemma get_fitted_distr_behaviour_witness :
  get_fitted_distr (H := Fixture.libs) [] "gev" ldistr_gev =
    Raise (ValueError "At least 2 data points must be provided.").
Proof.
  apply (proj1 (proj2 (get_fitted_distr_behaviour (L := Fixture.libs)
                         [] "gev" ldistr_gev) eq_refl)).
  reflexivity.
Defined.

(** ** Vectorised functions without random draws *)

Lemma map_points_lift {A B} (f : A -> result B) (l : list A) (w : world) :
  map_points (fun a => lift (f a)) l w = (traverse f l, w).
Proof.
  induction l as [|a l IH]; cbn [map_points traverse]; [reflexivity|].
  unfold mbind, lift at 1. destruct (f a) as [b|e]; cbn [rbind]; [|reflexivity].
  rewrite IH. destruct (traverse f l); reflexivity.
Qed.

Lemma traverse_all {A B} (f : A -> result B) (l : list A) (bs : list B) :
  Forall2 (fun a b => f a = Ok b) l bs -> traverse f l = Ok bs.
Proof.
  induction 1 as [|a b l bs Hab _ IH]; cbn [traverse]; [reflexivity|].
  now rewrite Hab, IH.
Qed.

Lemma traverse_first_error {A B} (f : A -> result B) (pre post : list A)
    (a : A) (e : exn) :
  (forall x, In x pre -> exists b, f x = Ok b) ->
  f a = Raise e ->
  traverse f (pre ++ a :: post) = Raise e.
Proof.
  intros Hpre Ha. induction pre as [|x pre IH]; cbn [app traverse].
  - now rewrite Ha.
  - destruct (Hpre x (or_introl eq_refl)) as [b ->]. cbn [rbind].
    rewrite IH; [reflexivity|]. intros y Hy. apply Hpre. now right.
Qed.

Lemma stack_too_few `{L : Libs} (ams : DataArray (series num)) (w : world) :
  (length (da_points ams) < 2)%nat ->
  stack ams w =
    (Raise (xr_groupby_error (length (da_points ams))),
     mkWorld (rng_pos w) (xr_log w ++ [OpStack])).
Proof.
  intros Hlen. unfold stack, mbind, log_op, mraise.
  destruct (da_points ams) as [|s [|s' points]]; cbn [length] in *;
    [reflexivity | reflexivity | lia].
Qed.

(** X3. On an array of fitting shape [get_lmoments] has no soft failure.
    When the fit succeeds at every point it returns the fitted parameters,
    one per point and in order, under the input metadata with the family
    recorded, and draws no random number. When the fit raises at some
    point and succeeded at the points before it, the whole call raises
    that error. With [multiple_points] and fewer than two points the call
    raises at the grouping, before any fit. *)
Theorem get_lmoments_all_or_nothing `{L : Libs}
    (ams : DataArray (series num)) (distr : string) (ld : lmom_distr_t)
    (mp : bool) (w : world) :
  get_lmom_distr distr = Ok ld ->
  (shape_fits mp (da_points ams) ->
   (forall fits,
      Forall2 (fun s p => lmom_fit ld (map snd s) = Ok p) (da_points ams) fits ->
      get_lmoments ams distr mp w =
        (Ok (mkDA (<["distribution" := distr]> (da_attrs ams)) fits),
         mkWorld (rng_pos w) (xr_log w ++ vectorised_ops mp))) /\
   (forall pre s post e,
      da_points ams = (pre ++ s :: post)%list ->
      (forall x, In x pre -> exists p, lmom_fit ld (map snd x) = Ok p) ->
      lmom_fit ld (map snd s) = Raise e ->
      exists w', get_lmoments ams distr mp w = (Raise e, w'))) /\
  ((length (da_points ams) < 2)%nat ->
   exists w',
     get_lmoments ams distr true w =
       (Raise (xr_groupby_error (length (da_points ams))), w') /\
     rng_pos w' = rng_pos w).
Proof.
  intros Hld. split.
  - intros Hshape.
    destruct (vectorised_fits (fun a => lift (lmom_fit ld a)) ams mp w Hshape)
      as (input & Hstack & Hufunc).
    split.
    + intros fits Hfits. unfold get_lmoments. unfold mbind at 1, lift at 1.
      rewrite Hld. unfold mbind at 1. rewrite Hstack.
      unfold mbind at 1. rewrite Hufunc.
      rewrite (map_points_lift (fun s => lmom_fit ld (map snd s))).
      rewrite (traverse_all (fun s => lmom_fit ld (map snd s)) _ _ Hfits).
      destruct mp; unfold unstack, mbind, mret, log_op; cbn;
        rewrite <- ?app_assoc; reflexivity.
    + intros pre s post e Hpts Hpre Hs.
      assert (Ht : traverse (fun s => lmom_fit ld (map snd s)) (da_points ams)
                   = Raise e).
      { rewrite Hpts.
        exact (traverse_first_error (fun s => lmom_fit ld (map snd s))
                 pre post s e Hpre Hs). }
      unfold get_lmoments.
      unfold mbind at 1, lift at 1. rewrite Hld. unfold mbind at 1.
      rewrite Hstack. unfold mbind at 1. rewrite Hufunc.
      rewrite (map_points_lift (fun s => lmom_fit ld (map snd s))), Ht.
      eauto.
  - intros Hlen. unfold get_lmoments. unfold mbind at 1, lift at 1.
    rewrite Hld. unfold mbind at 1. rewrite (stack_too_few ams w Hlen).
    eexists. split; reflexivity.
Qed.

Lemma get_lmoments_all_or_nothing_witness :
  exists w',
    get_lmoments (H := Fixture.libs)
      (mkDA ∅ [ [Fixture.at_hour 2000 12 31 0 1; Fixture.at_hour 2001 12 31 0 4];
                [Fixture.at_hour 2000 12 31 0 2; Fixture.at_hour 2001 12 31 0 2] ])
      "gumbel" true Fixture.world0 = (Raise (ValueError "L-Moments invalid"), w').
Proof.
  apply (proj2 (proj1 (get_lmoments_all_or_nothing (L := Fixture.libs)
                  (mkDA ∅ [ [Fixture.at_hour 2000 12 31 0 1; Fixture.at_hour 2001 12 31 0 4];
                            [Fixture.at_hour 2000 12 31 0 2; Fixture.at_hour 2001 12 31 0 2] ])
                  "gumbel" ldistr_gum true Fixture.world0 eq_refl)
                 ltac:(split; [cbn; lia | repeat constructor]))
           [ [Fixture.at_hour 2000 12 31 0 1; Fixture.at_hour 2001 12 31 0 4] ]
           [Fixture.at_hour 2000 12 31 0 2; Fixture.at_hour 2001 12 31 0 2]
           [] (ValueError "L-Moments invalid") eq_refl).
  - intros x [<-|[]]. eexists. vm_compute. reflexivity.
  - vm_compute. reflexivity.
Defined.

(** X4. For a supported family and an array of fitting shape, when the
    goodness-of-fit test returns at every point, [get_ks_stat] returns a
    dataset with exactly the two variables [d_statistic] and [p_value],
    each labelled as a KS test and holding the statistic of every point in
    order, under the input metadata with the family recorded; it draws no
    random number. With [multiple_points] and fewer than two points the
    call raises at the grouping, before any test. *)
Theorem get_ks_stat_dataset `{L : Libs} (ams : DataArray (series num))
    (distr : string) (ld : lmom_distr_t) (mp : bool) (w : world) :
  get_lmom_distr distr = Ok ld ->
  (forall stats,
     shape_fits mp (da_points ams) ->
     Forall2 (fun s r => ks_stat distr ld (map snd s) = Ok r) (da_points ams) stats ->
     get_ks_stat ams distr mp w =
       (Ok (mkDS (<["distribution" := distr]> (da_attrs ams))
              [("d_statistic", mkDA (<["stat test" := "KS test"]> ∅) (map fst stats));
               ("p_value", mkDA (<["stat test" := "KS test"]> ∅) (map snd stats))]),
        mkWorld (rng_pos w) (xr_log w ++ vectorised_ops mp))) /\
  ((length (da_points ams) < 2)%nat ->
   exists w',
     get_ks_stat ams distr true w =
       (Raise (xr_groupby_error (length (da_points ams))), w') /\
     rng_pos w' = rng_pos w).
Proof.
  intros Hld. split.
  - intros stats Hshape Hstats.
    destruct (vectorised_fits (fun a => lift (ks_stat distr ld a)) ams mp w Hshape)
      as (input & Hstack & Hufunc).
    unfold get_ks_stat. unfold mbind at 1, lift at 1. rewrite Hld.
    unfold mbind at 1. rewrite Hstack. unfold mbind at 1. rewrite Hufunc.
    rewrite (map_points_lift (fun s => ks_stat distr ld (map snd s))).
    rewrite (traverse_all (fun s => ks_stat distr ld (map snd s)) _ _ Hstats).
    destruct mp; unfold unstack, mbind, mret, log_op; cbn;
      rewrite <- ?app_assoc; reflexivity.
  - intros Hlen. unfold get_ks_stat. unfold mbind at 1, lift at 1.
    rewrite Hld. unfold mbind at 1. rewrite (stack_too_few ams w Hlen).
    eexists. split; reflexivity.
Qed.

Lemma get_ks_stat_dataset_witness :
  get_ks_stat (H := Fixture.libs) Fixture.grid_array "gumbel" true Fixture.world0 =
    (Ok (mkDS (<["distribution" := "gumbel"]> (da_attrs Fixture.grid_array))
           [("d_statistic",
             mkDA (<["stat test" := "KS test"]> ∅) [Num (1 # 4); Num (1 # 4)]);
            ("p_value",
             mkDA (<["stat test" := "KS test"]> ∅) [Num (3 # 4); Num (3 # 4)])]),
     mkWorld 0 [OpStack; OpApplyUfunc; OpUnstack]).
Proof.
  apply (proj1 (get_ks_stat_dataset (L := Fixture.libs) Fixture.grid_array "gumbel"
                  ldistr_gum true Fixture.world0 eq_refl)
           [(Num (1 # 4), Num (3 # 4)); (Num (1 # 4), Num (3 # 4))]).
  - split; [cbn; lia | repeat constructor; cbn; lia].
  - repeat constructor.
Defined.

(** ** Bootstrap: validation and bounds *)

(** X5. [bootstrap] rejects an unsupported kind or an unknown family with
    a [ValueError] before it draws its resample, and [conf_int] with at
    least one run fails on its first replicate in the same way: the
    random generator is left where it was. *)
Theorem bootstrap_rejects_before_drawing `{L : Libs} (ams : list num)
    (distr kind : string) (arg : num) (w : world) :
  str_in kind data_variables = false \/ str_in distr distrs = false ->
  exists e, is_ValueError e = true /\
    bootstrap ams distr kind arg w = (Raise e, w) /\
    forall runs lo hi, (0 < runs)%nat ->
      conf_int ams distr kind arg runs lo hi w = (Raise e, w).
Proof.
  intros Hbad.
  assert (Hb : exists e, is_ValueError e = true /\
                 bootstrap ams distr kind arg w = (Raise e, w)).
  { unfold bootstrap. destruct (str_in kind data_variables) eqn:Hk.
    - destruct Hbad as [Hbad|Hd]; [discriminate|].
      cbn [negb]. unfold mbind, lift. rewrite (get_lmom_distr_unknown distr Hd).
      eexists. split; [|reflexivity]. reflexivity.
    - cbn [negb]. eexists. split; [|reflexivity]. reflexivity. }
  destruct Hb as (e & He & Hb). exists e. split; [exact He|]. split; [exact Hb|].
  intros runs lo hi Hruns. destruct runs as [|runs]; [lia|].
  unfold conf_int. cbn [bootstrap_loop]. unfold mbind. now rewrite Hb.
Qed.

Lemma bootstrap_rejects_before_drawing_witness :
  exists e, is_ValueError e = true /\
    bootstrap (H := Fixture.libs) Fixture.sample "normal" "return_value"
      (Num 10%Q) Fixture.world0 = (Raise e, Fixture.world0).
Proof.
  destruct (bootstrap_rejects_before_drawing (L := Fixture.libs) Fixture.sample
              "normal" "return_value" (Num 10%Q) Fixture.world0
              (or_intror eq_refl)) as (e & He & Hb & _).
  exists e. now split.
Defined.

(** X6. [conf_int] checks the percentile bounds last: with a bound outside
    [0, 100] it still runs every bootstrap replicate, consuming their
    random draws, and only then raises the [ValueError] of the percentile
    computation. *)
Theorem conf_int_checks_bounds_last `{L : Libs} (ams : list num)
    (distr kind : string) (ld : lmom_distr_t) (arg : num) (runs : nat)
    (lo hi : Q) (w : world) :
  str_in kind data_variables = true ->
  get_lmom_distr distr = Ok ld ->
  (forall i, (i < runs)%nat ->
     exists v, replicate_at ams distr ld kind arg (rng_pos w + i * length ams) = Ok v) ->
  valid_percentile lo = false \/ valid_percentile hi = false ->
  conf_int ams distr kind arg runs lo hi w =
    (Raise (ValueError "Percentiles must be in the range [0, 100]"),
     mkWorld (rng_pos w + runs * length ams) (xr_log w)).
Proof.
  intros Hk Hld Hok Hbad. unfold conf_int. unfold mbind at 1.
  rewrite (bootstrap_loop_eq ams distr kind ld arg runs Hk Hld [] w Hok).
  cbn [app]. unfold mbind, lift, np_percentile. cbn [forallb].
  destruct Hbad as [-> | ->]; [reflexivity|].
  now rewrite andb_false_r.
Qed.

Lemma conf_int_checks_bounds_last_witness :
  conf_int (H := Fixture.libs) Fixture.sample "gev" "return_value" (Num 10%Q) 2
      (5 # 2) 975 Fixture.world0 =
    (Raise (ValueError "Percentiles must be in the range [0, 100]"),
     mkWorld 16 []).
Proof.
  apply (conf_int_checks_bounds_last (L := Fixture.libs) Fixture.sample "gev"
           "return_value" ldistr_gev (Num 10%Q) 2 (5 # 2) 975 Fixture.world0
           eq_refl eq_refl).
  - intros i Hi.
    do 2 (destruct i as [|i]; [eexists; vm_compute; reflexivity|]). lia.
  - right. reflexivity.
Defined.

Lemma insert_sorted_In_iff (x y : Q) (l : list Q) :
  In y (insert_sorted x l) <-> y = x \/ In y l.
Proof.
  split; [apply insert_sorted_In|].
  induction l as [|z l IH]; simpl.
  - intros [->|[]]. now left.
  - destruct (Qle_bool x z); simpl; intros [->|[->|Hy]]; auto.
Qed.

Lemma sort_values_In (y : Q) (l : list Q) :
  In y (sort_values l) <-> In y l.
Proof.
  induction l as [|x l IH]; simpl; [reflexivity|].
  rewrite insert_sorted_In_iff, IH. intuition.
Qed.

Lemma finite_values_In (q : Q) (a : list num) :
  In q (finite_values a) <-> In (Num q) a.
Proof.
  induction a as [|[|x] a IH]; simpl.
  - reflexivity.
  - rewrite IH. split; [now right | intros [?|?]; [discriminate | assumption]].
  - rewrite IH. split.
    + intros [->|?]; auto.
    + intros [[= ->]|?]; auto.
Qed.

Lemma at_rank_between (s : list Q) (x0 vi : Q) :
  StronglySorted Qle s -> (0 < length s)%nat ->
  (0 <= vi)%Q -> (vi <= inject_Z (Z.of_nat (length s - 1)))%Q ->
  exists a b, In a s /\ In b s /\ (a <= at_rank s x0 vi)%Q /\ (at_rank s x0 vi <= b)%Q.
Proof.
  intros Hs Hlen H0 Hmax. unfold at_rank.
  pose proof (Qfloor_le vi) as Hf1. pose proof (Qlt_floor vi) as Hf2.
  assert (Hpos : (0 <= Qfloor vi)%Z)
    by (change 0%Z with (Qfloor 0); now apply Qfloor_resp_le).
  assert (Htop : (Qfloor vi <= Z.of_nat (length s - 1))%Z).
  { rewrite <- (Qfloor_Z (Z.of_nat (length s - 1))). now apply Qfloor_resp_le. }
  rewrite inject_Z_plus in Hf2. change (inject_Z 1) with 1%Q in Hf2.
  set (f := Qfloor vi) in *.
  exists (nth (Z.to_nat f) s x0), (nth (Nat.min (Z.to_nat f + 1) (length s - 1)) s x0).
  split; [apply nth_In; lia|]. split; [apply nth_In; lia|].
  apply lerp_bounds; [|lra|lra].
  apply sorted_nth_le; auto; lia.
Qed.

Lemma percentile_linear_within (a : list num) (q : Q) :
  existsb is_nan a = false -> (0 < length a)%nat ->
  valid_percentile q = true ->
  exists x, percentile_linear a q = Num x /\ within_outcomes a x.
Proof.
  intros Hn Hlen Hq. unfold percentile_linear. rewrite Hn.
  apply andb_prop in Hq as [Hq0 Hq1]. apply Qle_bool_iff in Hq0, Hq1.
  pose proof (sort_values_sorted (finite_values a)) as Hs.
  pose proof (sort_values_length (finite_values a)) as Hl.
  rewrite (finite_values_length a Hn) in Hl.
  assert (Hin : forall y, In y (sort_values (finite_values a)) -> In (Num y) a).
  { intros y Hy. now apply finite_values_In, sort_values_In. }
  destruct (sort_values (finite_values a)) as [|x0 s] eqn:E;
    [simpl in Hl; lia|].
  destruct (virtual_index_bounds (length (x0 :: s)) q q Hq0 (Qle_refl q) Hq1)
    as (Hv0 & _ & Hv2).
  destruct (at_rank_between (x0 :: s) x0 _ Hs ltac:(simpl; lia) Hv0 Hv2)
    as (lo & hi & Hlo & Hhi & Hle1 & Hle2).
  eexists. split; [reflexivity|]. exists lo, hi. auto.
Qed.

(** X7. With percentile bounds in range, at least one run and no NaN among
    the outcomes of the replicates, each bound returned by [conf_int] lies
    between two of the outcomes: the interval never leaves the range of
    the bootstrap values. *)
Theorem conf_int_within_outcomes `{L : Libs} (ams : list num)
    (distr kind : string) (ld : lmom_distr_t) (arg : num) (runs : nat)
    (lo hi : Q) (w : world) :
  str_in kind data_variables = true ->
  get_lmom_distr distr = Ok ld ->
  valid_percentile lo = true -> valid_percentile hi = true ->
  (0 < runs)%nat ->
  (forall i, (i < runs)%nat ->
     exists v, replicate_at ams distr ld kind arg (rng_pos w + i * length ams) = Ok v) ->
  let outs := outcomes ams distr ld kind arg (rng_pos w) runs in
  existsb is_nan outs = false ->
  exists lower upper,
    conf_int ams distr kind arg runs lo hi w =
      (Ok (Num lower, Num upper),
       mkWorld (rng_pos w + runs * length ams) (xr_log w)) /\
    within_outcomes outs lower /\ within_outcomes outs upper.
Proof.
  intros Hk Hld Hlo Hhi Hruns Hok outs Hn.
  assert (Hlen : (0 < length outs)%nat)
    by (unfold outs; now rewrite outcomes_length).
  destruct (percentile_linear_within outs lo Hn Hlen Hlo) as (l & Hl & Hwl).
  destruct (percentile_linear_within outs hi Hn Hlen Hhi) as (u & Hu & Hwu).
  exists l, u. split; [|now split].
  rewrite (conf_int_valid ams distr kind ld arg runs lo hi w Hk Hld Hlo Hhi
             Hruns Hok).
  fold outs. now rewrite Hl, Hu.
Qed.

Lemma conf_int_within_outcomes_witness :
  let outs := outcomes (L := Fixture.libs) Fixture.sample "gev" ldistr_gev
                "return_prob" (Num 5%Q) 0 4 in
  outs = [Num (4 # 8); Num (1 # 5); Num (1 # 5); Num 0%Q] /\
  exists lower upper,
    conf_int (H := Fixture.libs) Fixture.sample "gev" "return_prob" (Num 5%Q) 4
        10 90 Fixture.world0 =
      (Ok (Num lower, Num upper), mkWorld 32 []) /\
    within_outcomes outs lower /\ within_outcomes outs upper.
Proof.
  intros outs. split; [vm_compute; reflexivity|].
  apply (conf_int_within_outcomes (L := Fixture.libs) Fixture.sample "gev"
           "return_prob" ldistr_gev (Num 5%Q) 4 10 90 Fixture.world0
           eq_refl eq_refl eq_refl eq_refl ltac:(lia)).
  - intros i Hi.
    do 4 (destruct i as [|i]; [eexists; vm_compute; reflexivity|]). lia.
  - vm_compute. reflexivity.
Defined.

(** ** The return datasets *)

Lemma bootstrap_ok_world `{L : Libs} (ams : list num) (distr kind : string)
    (arg v : num) (w w' : world) :
  bootstrap ams distr kind arg w = (Ok v, w') ->
  w' = mkWorld (rng_pos w + length ams) (xr_log w).
Proof.
  unfold bootstrap. destruct (negb (str_in kind data_variables)); [discriminate|].
  unfold mbind, lift. destruct (get_lmom_distr distr) as [ld|e]; [|discriminate].
  rewrite random_choice_same_size.
  match goal with |- (?r, ?w1) = _ -> _ => intros [= _ <-] end. reflexivity.
Qed.

Lemma bootstrap_loop_ok_world `{L : Libs} (ams : list num) (distr kind : string)
    (arg : num) (runs : nat) :
  forall (acc vs : list num) (w w' : world),
  bootstrap_loop runs ams distr kind arg acc w = (Ok vs, w') ->
  w' = mkWorld (rng_pos w + runs * length ams) (xr_log w).
Proof.
  induction runs as [|runs IH]; intros acc vs w w'; cbn [bootstrap_loop].
  - intros [= _ <-]. destruct w. cbn. f_equal. lia.
  - intros Hrun. apply mbind_ok in Hrun as (v & w1 & Hb & Hrun).
    apply bootstrap_ok_world in Hb. apply IH in Hrun. subst. cbn. f_equal. lia.
Qed.

Lemma conf_int_ok_world `{L : Libs} (ams : list num) (distr kind : string)
    (arg : num) (runs : nat) (lo hi : Q) (r : num * num) (w w' : world) :
  conf_int ams distr kind arg runs lo hi w = (Ok r, w') ->
  w' = mkWorld (rng_pos w + runs * length ams) (xr_log w).
Proof.
  unfold conf_int. intros Hrun.
  apply mbind_ok in Hrun as (vs & w1 & Hloop & Hrun).
  apply bootstrap_loop_ok_world in Hloop.
  apply mbind_ok in Hrun as (arr & w2 & Hp & Hrun).
  unfold lift in Hp. injection Hp as _ <-.
  unfold mret in Hrun. injection Hrun as _ <-. exact Hloop.
Qed.

Lemma point_function_ok `{L : Libs} (local distr : string) (ld : lmom_distr_t)
    (kind : string) (arg : num) (runs : nat) (lo hi : Q) (a : list num)
    (t : num * num * num) (w w' : world) :
  str_in distr distrs = true ->
  point_function local distr ld kind arg runs lo hi a w = (Ok t, w') ->
  refit_metric a distr ld kind arg = Ok (fst (fst t)) /\
  conf_int a distr kind arg runs lo hi w = (Ok (snd (fst t), snd t), w') /\
  w' = mkWorld (rng_pos w + runs * length a) (xr_log w).
Proof.
  intros Hd. unfold point_function. rewrite (family_chain_same _ _ _ Hd).
  unfold estimate_with_conf_int. intros Hrun.
  apply mbind_ok in Hrun as (est & w1 & Hest & Hrun).
  unfold lift in Hest. rewrite (fit_and_calculate_refit _ _ _ _ _ Hd) in Hest.
  injection Hest as Hest <-.
  apply mbind_ok in Hrun as (limits & w2 & Hci & Hrun).
  unfold mret in Hrun. injection Hrun as <- <-.
  pose proof (conf_int_ok_world _ _ _ _ _ _ _ _ _ _ Hci) as Hw.
  destruct limits as [l u]. cbn [fst snd]. auto.
Qed.

Lemma total_draws_cons (runs : nat) (s : series num) (points : list (series num)) :
  total_draws runs (s :: points) = (runs * length s + total_draws runs points)%nat.
Proof. reflexivity. Qed.

Lemma map_points_point_function `{L : Libs} (local distr : string)
    (ld : lmom_distr_t) (kind : string) (arg : num) (runs : nat) (lo hi : Q)
    (points : list (series num)) :
  str_in distr distrs = true ->
  forall (triples : list (num * num * num)) (w w' : world),
  map_points (fun s => point_function local distr ld kind arg runs lo hi (map snd s))
    points w = (Ok triples, w') ->
  Forall2 (fun s t => refit_metric (map snd s) distr ld kind arg = Ok (fst (fst t)))
    points triples /\
  w' = mkWorld (rng_pos w + total_draws runs points) (xr_log w).
Proof.
  intros Hd. induction points as [|s points IH]; intros triples w w';
    cbn [map_points].
  - intros [= <- <-]. split; [constructor|]. destruct w. cbn. f_equal. lia.
  - intros Hrun. apply mbind_ok in Hrun as (t & w1 & Hpt & Hrun).
    apply mbind_ok in Hrun as (ts & w2 & Hrest & Hrun).
    unfold mret in Hrun. injection Hrun as <- <-.
    apply (point_function_ok _ _ _ _ _ _ _ _ _ _ _ _ Hd) in Hpt as (Hest & _ & ->).
    apply IH in Hrest as (Hall & ->). split; [now constructor|].
    rewrite total_draws_cons. cbn [rng_pos xr_log]. rewrite length_map.
    f_equal. lia.
Qed.

Lemma return_dataset_ok `{L : Libs} (kind key label : string)
    (ams : DataArray (series num)) (arg : num) (distr : string) (runs : nat)
    (lo hi : Q) (mp : bool) (ds : Dataset) (w w' : world) :
  return_dataset kind key label ams arg distr runs lo hi mp w = (Ok ds, w') ->
  exists ld triples,
    get_lmom_distr distr = Ok ld /\
    Forall2 (fun s t => refit_metric (map snd s) distr ld kind arg = Ok (fst (fst t)))
      (da_points ams) triples /\
    ds = assembled kind key label lo hi (da_attrs ams) distr triples /\
    w' = mkWorld (rng_pos w + total_draws runs (da_points ams))
           (xr_log w ++ vectorised_ops mp).
Proof.
  unfold return_dataset. intros Hrun.
  apply mbind_ok in Hrun as (ld & w0 & Hld & Hrun).
  unfold lift in Hld. injection Hld as Hld <-.
  pose proof (get_lmom_distr_supported distr ld Hld) as Hd.
  apply mbind_ok in Hrun as (ams' & w1 & Hstack & Hrun).
  apply mbind_ok in Hrun as (triples & w2 & Hufunc & Hrun).
  apply mbind_ok in Hrun as (ds' & w3 & Hunstack & Hrun).
  apply mret_ok in Hrun as Hds.
  unfold mret in Hrun. injection Hrun as _ <-.
  destruct (vectorised_ok _ ams mp ams' triples w w1 w2 Hstack Hufunc)
    as [-> Hmap].
  apply (map_points_point_function _ _ _ _ _ _ _ _ _ Hd) in Hmap as (Hall & ->).
  exists ld, triples. split; [exact Hld|]. split; [exact Hall|].
  destruct mp; unfold unstack, mbind, mret, log_op in Hunstack;
    injection Hunstack as <- <-;
    (split; [subst ds; reflexivity|]);
    cbn; f_equal; rewrite <- ?app_assoc, ?app_nil_r; reflexivity.
Qed.

Ltac layout_of Hrun :=
  apply return_dataset_ok in Hrun as (ld & triples & _ & Hall & -> & _);
  apply Forall2_length in Hall;
  exists (map (fun t => fst (fst t)) triples),
         (map (fun t => snd (fst t)) triples), (map snd triples);
  split; [reflexivity|];
  rewrite !length_map; auto.

(** X8. Whenever [get_return_value], [get_return_prob] or
    [get_return_period] returns, its dataset holds exactly three
    variables, in this order: the estimate under the name of the metric,
    labelled with the argument of the call, then [conf_int_lower_limit]
    and [conf_int_upper_limit], labelled with their percentiles; each
    holds one value per point of the input. *)
Theorem return_datasets_layout `{L : Libs} (ams : DataArray (series num))
    (arg : num) (distr : string) (runs : nat) (lo hi : Q) (mp : bool)
    (w : world) :
  let n := length (da_points ams) in
  let labelled (key value : string) : gmap string string := <[key := value]> ∅ in
  let limits (lower upper : list num) :=
    [("conf_int_lower_limit",
      mkDA (labelled "confidence interval lower bound"
              (py_str (Num lo) ++ "th percentile")) lower);
     ("conf_int_upper_limit",
      mkDA (labelled "confidence interval upper bound"
              (py_str (Num hi) ++ "th percentile")) upper)] in
  (forall ds w', get_return_value ams arg distr runs lo hi mp w = (Ok ds, w') ->
     exists est lower upper,
       ds_vars ds =
         ("return_value",
          mkDA (labelled "return period" ("1 in " ++ py_str arg ++ " year event")) est)
         :: limits lower upper /\
       length est = n /\ length lower = n /\ length upper = n) /\
  (forall ds w', get_return_prob ams arg distr runs lo hi mp w = (Ok ds, w') ->
     exists est lower upper,
       ds_vars ds =
         ("return_prob",
          mkDA (labelled "threshold" ("exceedance of " ++ py_str arg ++ " value event")) est)
         :: limits lower upper /\
       length est = n /\ length lower = n /\ length upper = n) /\
  (forall ds w', get_return_period ams arg distr runs lo hi mp w = (Ok ds, w') ->
     exists est lower upper,
       ds_vars ds =
         ("return_period",
          mkDA (labelled "return value" ("occurrence of a " ++ py_str arg ++ " value event")) est)
         :: limits lower upper /\
       length est = n /\ length lower = n /\ length upper = n).
Proof.
  intros n labelled limits. subst n. split; [|split]; intros ds w' Hrun.
  - unfold get_return_value in Hrun. layout_of Hrun.
  - unfold get_return_prob in Hrun. layout_of Hrun.
  - unfold get_return_period in Hrun. layout_of Hrun.
Qed.

Lemma return_datasets_layout_witness :
  exists ds w' est lower upper,
    get_return_value (H := Fixture.libs) Fixture.grid_array (Num 10%Q) "gev" 2
      (5 # 2) (195 # 2) true Fixture.world0 = (Ok ds, w') /\
    map fst (ds_vars ds) =
      ["return_value"; "conf_int_lower_limit"; "conf_int_upper_limit"] /\
    map (fun v => da_points (snd v)) (ds_vars ds) = [est; lower; upper] /\
    length est = 2%nat /\ length lower = 2%nat /\ length upper = 2%nat.
Proof.
  destruct (get_return_value (H := Fixture.libs) Fixture.grid_array (Num 10%Q)
              "gev" 2 (5 # 2) (195 # 2) true Fixture.world0) as [[ds|e] w'] eqn:Hrun;
    [|vm_compute in Hrun; discriminate Hrun].
  destruct (proj1 (return_datasets_layout (L := Fixture.libs) Fixture.grid_array
                     (Num 10%Q) "gev" 2 (5 # 2) (195 # 2) true Fixture.world0)
              ds w' Hrun) as (est & lower & upper & Hvars & H1 & H2 & H3).
  exists ds, w', est, lower, upper. rewrite Hvars. cbn. auto 10.
Defined.

Lemma estimates_of `{L : Libs} (distr : string) (ld : lmom_distr_t)
    (kind : string) (arg : num) (points : list (series num))
    (triples : list (num * num * num)) :
  Forall2 (fun s t => refit_metric (map snd s) distr ld kind arg = Ok (fst (fst t)))
    points triples ->
  Forall2 (fun s v =>
             (forall e, lmom_fit ld (map snd s) = Raise e ->
                caught_VZ e = true /\ v = NaN) /\
             (forall lmoments e,
                lmom_fit ld (map snd s) = Ok lmoments ->
                stats_frozen (scipy_of distr) lmoments = Raise e ->
                caught_VZ e = true /\ v = NaN) /\
             (forall lmoments fitted x,
                lmom_fit ld (map snd s) = Ok lmoments ->
                stats_frozen (scipy_of distr) lmoments = Ok fitted ->
                calculate_return (Some fitted) kind arg = Ok x -> v = x))
    points (map (fun t => fst (fst t)) triples).
Proof.
  induction 1 as [|s t points triples Hst _ IH]; cbn [map]; constructor; auto.
  unfold refit_metric in Hst. split; [|split].
  - intros e Hfit. rewrite Hfit in Hst. cbn [soft] in Hst.
    destruct (caught_VZ e); [|discriminate]. now injection Hst as <-.
  - intros lmoments e Hfit Hfr. rewrite Hfit, Hfr in Hst. cbn [soft] in Hst.
    destruct (caught_VZ e); [|discriminate]. now injection Hst as <-.
  - intros lmoments fitted x Hfit Hfr Hx. rewrite Hfit, Hfr, Hx in Hst.
    cbn [soft] in Hst. now injection Hst as <-.
Qed.

Ltac estimates_from Hrun :=
  apply return_dataset_ok in Hrun as (ld & triples & Hld & Hall & -> & _);
  exists ld; eexists; split; [exact Hld|]; split; [reflexivity|];
  now apply estimates_of.

(** X9. Whenever a [get_return_*] function returns, the estimate it
    reports at a point comes from the series of that point itself, not
    from a resample, and so does not depend on the random generator: it
    is what [calculate_return] returns on the family's scipy distribution
    at the parameters fitted to the series. Where the L-moment fit or the
    scipy constructor raised, the exception was a [ValueError] or a
    [ZeroDivisionError] and the estimate is NaN. *)
Theorem return_estimates_from_sample `{L : Libs} (ams : DataArray (series num))
    (arg : num) (distr : string) (runs : nat) (lo hi : Q) (mp : bool)
    (w : world) :
  let from_sample (kind : string) (ld : lmom_distr_t) (ds : Dataset)
      (est : DataArray num) : Prop :=
    hd_error (ds_vars ds) = Some (kind, est) /\
    Forall2 (fun s v =>
               (forall e, lmom_fit ld (map snd s) = Raise e ->
                  caught_VZ e = true /\ v = NaN) /\
               (forall lmoments e,
                  lmom_fit ld (map snd s) = Ok lmoments ->
                  stats_frozen (scipy_of distr) lmoments = Raise e ->
                  caught_VZ e = true /\ v = NaN) /\
               (forall lmoments fitted x,
                  lmom_fit ld (map snd s) = Ok lmoments ->
                  stats_frozen (scipy_of distr) lmoments = Ok fitted ->
                  calculate_return (Some fitted) kind arg = Ok x -> v = x))
      (da_points ams) (da_points est) in
  (forall ds w', get_return_value ams arg distr runs lo hi mp w = (Ok ds, w') ->
     exists ld est, get_lmom_distr distr = Ok ld /\
       from_sample "return_value" ld ds est) /\
  (forall ds w', get_return_prob ams arg distr runs lo hi mp w = (Ok ds, w') ->
     exists ld est, get_lmom_distr distr = Ok ld /\
       from_sample "return_prob" ld ds est) /\
  (forall ds w', get_return_period ams arg distr runs lo hi mp w = (Ok ds, w') ->
     exists ld est, get_lmom_distr distr = Ok ld /\
       from_sample "return_period" ld ds est).
Proof.
  intros from_sample. subst from_sample. cbv beta.
  split; [|split]; intros ds w' Hrun.
  - unfold get_return_value in Hrun. estimates_from Hrun.
  - unfold get_return_prob in Hrun. estimates_from Hrun.
  - unfold get_return_period in Hrun. estimates_from Hrun.
Qed.

Lemma return_estimates_from_sample_witness :
  exists ds w' est v,
    get_return_value (H := Fixture.libs) Fixture.sample_array (Num 10%Q) "gev" 2
      (5 # 2) (195 # 2) false Fixture.world0 = (Ok ds, w') /\
    hd_error (ds_vars ds) = Some ("return_value", est) /\
    da_points est = [v] /\
    calculate_return (Some (Fixture.uniform 1 (9 - 1))) "return_value" (Num 10%Q)
      = Ok v.
Proof.
  destruct (get_return_value (H := Fixture.libs) Fixture.sample_array (Num 10%Q)
              "gev" 2 (5 # 2) (195 # 2) false Fixture.world0)
    as [[ds|e] w'] eqn:Hrun; [|vm_compute in Hrun; discriminate Hrun].
  destruct (proj1 (return_estimates_from_sample (L := Fixture.libs)
                     Fixture.sample_array (Num 10%Q) "gev" 2 (5 # 2) (195 # 2)
                     false Fixture.world0)
              ds w' Hrun) as (ld & est & Hld & Hhd & Hall).
  injection Hld as <-.
  destruct (calculate_return (Some (Fixture.uniform 1 (9 - 1))) "return_value"
              (Num 10%Q)) as [x|e] eqn:Hx; [|vm_compute in Hx; discriminate Hx].
  exists ds, w', est, x. split; [reflexivity|]. split; [exact Hhd|].
  split; [|reflexivity].
  change (da_points Fixture.sample_array) with [Fixture.annual Fixture.sample] in Hall.
  inversion Hall as [|s v pts vs (_ & _ & Hv) Hrest]; subst.
  inversion Hrest; subst. f_equal.
  exact (Hv _ _ x eq_refl eq_refl Hx).
Defined.

Lemma total_draws_uniform (runs n : nat) (points : list (series num)) :
  (forall s, In s points -> length s = n) ->
  total_draws runs points = (length points * (runs * n))%nat.
Proof.
  induction points as [|s points IH]; intros Hn; [reflexivity|].
  rewrite total_draws_cons, IH by (intros x Hx; apply Hn; now right).
  rewrite (Hn s (or_introl eq_refl)). cbn [length]. lia.
Qed.

(** X10. The points of a [get_return_*] call share numpy's generator:
    when the call returns, the generator has advanced by [runs] resamples
    of every series, point after point, so by
    points x runs x length draws when all series have the same length;
    the data went through the stacking, the point function and the
    unstacking, and through nothing else. *)
Theorem return_datasets_consume_draws `{L : Libs} (ams : DataArray (series num))
    (arg : num) (distr : string) (runs : nat) (lo hi : Q) (mp : bool)
    (w : world) :
  let after (w' : world) : Prop :=
    rng_pos w' = (rng_pos w + total_draws runs (da_points ams))%nat /\
    xr_log w' = (xr_log w ++ vectorised_ops mp)%list /\
    (forall n, (forall s, In s (da_points ams) -> length s = n) ->
       rng_pos w' = (rng_pos w + length (da_points ams) * (runs * n))%nat) in
  (forall ds w', get_return_value ams arg distr runs lo hi mp w = (Ok ds, w') ->
     after w') /\
  (forall ds w', get_return_prob ams arg distr runs lo hi mp w = (Ok ds, w') ->
     after w') /\
  (forall ds w', get_return_period ams arg distr runs lo hi mp w = (Ok ds, w') ->
     after w').
Proof.
  intros after. subst after. cbv beta.
  assert (Hany : forall kind key label ds w',
            return_dataset kind key label ams arg distr runs lo hi mp w = (Ok ds, w') ->
            rng_pos w' = (rng_pos w + total_draws runs (da_points ams))%nat /\
            xr_log w' = (xr_log w ++ vectorised_ops mp)%list /\
            (forall n, (forall s, In s (da_points ams) -> length s = n) ->
               rng_pos w' = (rng_pos w + length (da_points ams) * (runs * n))%nat)).
  { intros kind key label ds w' Hrun.
    apply return_dataset_ok in Hrun as (ld & triples & _ & _ & _ & ->).
    cbn [rng_pos xr_log]. split; [reflexivity|]. split; [reflexivity|].
    intros n Hn. now rewrite (total_draws_uniform runs n _ Hn). }
  split; [|split]; intros ds w' Hrun; eapply Hany; exact Hrun.
Qed.

Lemma return_datasets_consume_draws_witness :
  exists ds w',
    get_return_period (H := Fixture.libs) Fixture.grid_array (Num 7%Q) "gumbel" 3
      (5 # 2) (195 # 2) true Fixture.world0 = (Ok ds, w') /\
    rng_pos w' = 48%nat /\
    xr_log w' = [OpStack; OpApplyUfunc; OpUnstack].
Proof.
  destruct (get_return_period (H := Fixture.libs) Fixture.grid_array (Num 7%Q)
              "gumbel" 3 (5 # 2) (195 # 2) true Fixture.world0)
    as [[ds|e] w'] eqn:Hrun; [|vm_compute in Hrun; discriminate Hrun].
  destruct (proj2 (proj2 (return_datasets_consume_draws (L := Fixture.libs)
                            Fixture.grid_array (Num 7%Q) "gumbel" 3 (5 # 2)
                            (195 # 2) true Fixture.world0)) ds w' Hrun)
    as (Hpos & Hlog & _).
  exists ds, w'. split; [reflexivity|]. split; [exact Hpos | exact Hlog].
Defined.

(** ** More on the exceedance engine *)

Lemma group_sum_years (fl : series bool) :
  let counts := group_sum Z.compare year fl in
  StronglySorted Z.lt (map fst counts) /\
  (forall y, In y (map fst counts) <-> exists t b, In (t, b) fl /\ year t = y) /\
  (forall y c, In (y, c) counts -> c = flag_count y fl).
Proof.
  intros counts.
  destruct (group_sum_from fl [] (SSorted_nil _)) as (Hsorted & Hkeys & Htotal).
  fold (group_sum Z.compare year fl) in Hsorted, Hkeys, Htotal.
  fold counts in Hsorted, Hkeys, Htotal.
  split; [exact Hsorted|]. split.
  - intros y. rewrite Hkeys. split; [intros [[]|Hy]; exact Hy | now right].
  - intros y c Hin.
    rewrite <- (group_total_sorted y c counts Hsorted Hin), Htotal. simpl. lia.
Qed.

Lemma flag_count_below (thr : num) (y : Z) (s : series num) :
  flag_count y (flags_below thr s) = count_below thr y s.
Proof.
  unfold flag_count, count_below, flags_below. f_equal.
  induction s as [|[t v] s IH]; cbn [map List.filter]; [reflexivity|].
  destruct ((year t =? y)%Z && num_ltb v thr); cbn [length]; now rewrite IH.
Qed.

Lemma flags_keep_times (test : num -> bool) (s : series num) :
  map fst (map (fun '(t, v) => (t, test v)) s) = map fst s.
Proof.
  induction s as [|[t v] s IH]; cbn [map fst]; [reflexivity|]. now rewrite IH.
Qed.

Lemma gtb_ltb_exclusive (v thr : num) : num_gtb v thr && num_ltb v thr = false.
Proof.
  destruct v as [|a], thr as [|b]; simpl; try reflexivity.
  destruct (Qle_bool a b) eqn:E1, (Qle_bool b a) eqn:E2; simpl; try reflexivity.
  exfalso.
  destruct (Qlt_le_dec b a) as [Hlt|Hle].
  - apply Qlt_le_weak, Qle_bool_iff in Hlt. congruence.
  - apply Qle_bool_iff in Hle. congruence.
Qed.

Lemma unflagged_spec (thr v : num) :
  unflagged thr v = true <->
  v = NaN \/ thr = NaN \/ exists a b, v = Num a /\ thr = Num b /\ (a == b)%Q.
Proof.
  unfold unflagged, num_ltb. destruct v as [|a], thr as [|b]; simpl.
  - intuition.
  - intuition.
  - intuition.
  - rewrite !negb_involutive, andb_true_iff, !Qle_bool_iff. split.
    + intros [H1 H2]. right. right. exists a, b.
      split; [reflexivity|]. split; [reflexivity|]. now apply Qle_antisym.
    + intros [?|[?|(a' & b' & [= <-] & [= <-] & Heq)]]; try discriminate.
      rewrite Heq. split; apply Qle_refl.
Qed.

(** X11. Without grouping, [get_exceedance_events] compares the data once
    and keeps every entry at its time stamp. An entry is never flagged in
    both directions, and it is flagged in neither exactly when its value
    or the threshold is NaN or when the value equals the threshold. *)
Theorem exceedance_flags_exclusive (da : DataArray (series num)) (thr : num)
    (w : world) :
  get_exceedance_events da thr "above" None w =
    (Ok (mkDA ∅ (map (flags_above thr) (da_points da))),
     mkWorld (rng_pos w) (xr_log w ++ [OpCompare])) /\
  get_exceedance_events da thr "below" None w =
    (Ok (mkDA ∅ (map (flags_below thr) (da_points da))),
     mkWorld (rng_pos w) (xr_log w ++ [OpCompare])) /\
  (forall s, map fst (flags_above thr s) = map fst s /\
             map fst (flags_below thr s) = map fst s) /\
  (forall v, num_gtb v thr && num_ltb v thr = false) /\
  (forall v, num_gtb v thr = false /\ num_ltb v thr = false <->
             v = NaN \/ thr = NaN \/
             exists a b, v = Num a /\ thr = Num b /\ (a == b)%Q).
Proof.
  split; [reflexivity|]. split; [reflexivity|]. split; [|split].
  - intros s. split; apply flags_keep_times.
  - intros v. apply gtb_ltb_exclusive.
  - intros v. rewrite <- unflagged_spec. unfold unflagged.
    rewrite andb_true_iff, !negb_true_iff. reflexivity.
Qed.

(** X12. With the direction ["below"], [get_exceedance_count] lists the
    calendar years present in the series, in increasing order, each with
    the number of its entries strictly below the threshold. *)
Theorem exceedance_count_below (da : DataArray (series num)) (thr : num)
    (w : world) :
  get_exceedance_count da thr "1year" "below" None None None w =
    (Ok (mkDA ∅ (map (fun s => group_sum Z.compare year (flags_below thr s))
                   (da_points da))),
     mkWorld (rng_pos w) (xr_log w ++ [OpCompare; OpGroupbySum "time.year"])) /\
  forall s : series num,
    let counts := group_sum Z.compare year (flags_below thr s) in
    StronglySorted Z.lt (map fst counts) /\
    (forall y, In y (map fst counts) <-> exists t v, In (t, v) s /\ year t = y) /\
    (forall y c, In (y, c) counts -> c = count_below thr y s).
Proof.
  split.
  - unfold get_exceedance_count, get_exceedance_events, xr_compare,
      xr_groupby_sum, mbind, mret, log_op. cbn.
    rewrite map_map, <- app_assoc. reflexivity.
  - intros s counts.
    destruct (group_sum_years (flags_below thr s)) as (Hsorted & Hkeys & Hcount).
    fold counts in Hsorted, Hkeys, Hcount.
    split; [exact Hsorted|]. split.
    + intros y. rewrite Hkeys. unfold flags_below. split.
      * intros (t & b & Hin & Hy).
        apply in_map_iff in Hin as ([t' v] & [= <- <-] & Hin). now exists t', v.
      * intros (t & v & Hin & Hy). exists t, (num_ltb v thr).
        split; [|exact Hy]. apply in_map_iff. now exists (t, v).
    + intros y c Hin. rewrite <- flag_count_below. now apply Hcount.
Qed.

Lemma exceedance_count_below_witness :
  In (2002, 3)%Z (group_sum Z.compare year (flags_below (Num 35%Q) Fixture.three_years)) /\
  count_below (Num 35%Q) 2002 Fixture.three_years = 3%Z.
Proof.
  assert (Hin : In (2002, 3)%Z
            (group_sum Z.compare year (flags_below (Num 35%Q) Fixture.three_years))).
  { vm_compute. right. now left. }
  split; [exact Hin|].
  symmetry.
  apply (proj2 (proj2 (proj2 (exceedance_count_below
                                (mkDA ∅ [Fixture.three_years]) (Num 35%Q)
                                Fixture.world0) Fixture.three_years))
           2002%Z 3%Z Hin).
Defined.

Lemma year_counts_partition (thr : num) (y : Z) (s : series num) :
  (count_above thr y s + count_below thr y s + count_unflagged thr y s)%Z =
    entries_in_year y s.
Proof.
  unfold count_above, count_below, count_unflagged, entries_in_year, unflagged.
  induction s as [|[t v] s IH]; cbn [List.filter]; [reflexivity|].
  pose proof (gtb_ltb_exclusive v thr) as Hex.
  destruct (year t =? y)%Z; cbn [andb]; [|exact IH].
  destruct (num_gtb v thr), (num_ltb v thr); cbn [andb negb length] in *;
    try discriminate; lia.
Qed.

Lemma count_above_of_group (thr : num) (s : series num) (y c : Z) :
  In (y, c) (group_sum Z.compare year (flags_above thr s)) ->
  c = count_above thr y s.
Proof.
  intros Hin. rewrite <- flag_count_above.
  now apply (group_sum_years (flags_above thr s)).
Qed.

Lemma count_below_of_group (thr : num) (s : series num) (y c : Z) :
  In (y, c) (group_sum Z.compare year (flags_below thr s)) ->
  c = count_below thr y s.
Proof.
  intros Hin. rewrite <- flag_count_below.
  now apply (group_sum_years (flags_below thr s)).
Qed.

(** X13. In every calendar year the counts of the two directions and the
    entries flagged in neither (NaN values and values equal to the
    threshold) add up to the entries of the year: the yearly counts are
    not negative and together never exceed the number of entries. *)
Theorem exceedance_counts_partition (thr : num) (s : series num) (y ca cb : Z) :
  In (y, ca) (group_sum Z.compare year (flags_above thr s)) ->
  In (y, cb) (group_sum Z.compare year (flags_below thr s)) ->
  (ca + cb + count_unflagged thr y s = entries_in_year y s)%Z /\
  (0 <= ca)%Z /\ (0 <= cb)%Z /\ (ca + cb <= entries_in_year y s)%Z.
Proof.
  intros Ha Hb.
  rewrite (count_above_of_group thr s y ca Ha),
          (count_below_of_group thr s y cb Hb).
  pose proof (year_counts_partition thr y s) as Hsum.
  unfold count_above, count_below, count_unflagged in *. lia.
Qed.

Lemma exceedance_counts_partition_witness :
  (12 + 0 + count_unflagged (Num 35%Q) 2003 Fixture.three_years =
     entries_in_year 2003 Fixture.three_years)%Z /\
  (12 + 0 <= entries_in_year 2003 Fixture.three_years)%Z.
Proof.
  destruct (exceedance_counts_partition (Num 35%Q) Fixture.three_years 2003 12 0)
    as (H1 & _ & _ & H2).
  - vm_compute. do 2 right. now left.
  - vm_compute. do 2 right. now left.
  - split; [exact H1 | exact H2].
Defined.

Lemma sum_counts_add {K} (cmp : K -> K -> comparison) (k : K) (v : Z)
    (g : list (K * Z)) :
  sum_counts (add_to_group cmp k v g) = (sum_counts g + v)%Z.
Proof.
  induction g as [|[k' v'] g IH]; cbn [add_to_group sum_counts fold_right snd].
  - lia.
  - destruct (cmp k k'); cbn [sum_counts fold_right snd];
      fold (sum_counts g); fold (sum_counts (add_to_group cmp k v g)); lia.
Qed.

Lemma sum_counts_fold {K} (cmp : K -> K -> comparison) (key : Timestamp -> K)
    (fl : series bool) (g0 : list (K * Z)) :
  sum_counts (fold_left
                (fun groups '(t, b) => add_to_group cmp (key t) (Z.b2z b) groups)
                fl g0) =
    (sum_counts g0 + Z.of_nat (length (List.filter snd fl)))%Z.
Proof.
  revert g0. induction fl as [|[t b] fl IH]; intros g0; cbn [fold_left].
  - cbn. lia.
  - rewrite IH, sum_counts_add. cbn [List.filter snd].
    destruct b; cbn [length Z.b2z]; lia.
Qed.

(** X14. The yearly counts add up to the number of entries of the series
    that lie strictly above the threshold: no exceedance is lost and none
    is counted twice. *)
Theorem exceedance_count_total (thr : num) (s : series num) :
  sum_counts (group_sum Z.compare year (flags_above thr s)) =
    Z.of_nat (length (List.filter (fun '(_, v) => num_gtb v thr) s)).
Proof.
  unfold group_sum. rewrite sum_counts_fold. cbn [sum_counts fold_right].
  rewrite Z.add_0_l. f_equal. unfold flags_above.
  induction s as [|[t v] s IH]; cbn [map List.filter snd]; [reflexivity|].
  destruct (num_gtb v thr); cbn [length]; now rewrite IH.
Qed.

Lemma filter_length_le {A} (p q : A -> bool) (l : list A) :
  (forall x, p x = true -> q x = true) ->
  (length (List.filter p l) <= length (List.filter q l))%nat.
Proof.
  intros Hpq. induction l as [|x l IH]; cbn [List.filter]; [lia|].
  destruct (p x) eqn:Hp.
  - rewrite (Hpq x Hp). cbn [length]. lia.
  - destruct (q x); cbn [length]; lia.
Qed.

Lemma gtb_antitone (v : num) (a b : Q) :
  (a <= b)%Q -> num_gtb v (Num b) = true -> num_gtb v (Num a) = true.
Proof.
  intros Hab. destruct v as [|x]; simpl; [discriminate|].
  rewrite !negb_true_iff. intros Hb.
  destruct (Qle_bool x a) eqn:E; [|reflexivity].
  apply Qle_bool_iff in E.
  assert (Hxb : Qle_bool x b = true) by (apply Qle_bool_iff; lra).
  congruence.
Qed.

(** X15. Raising the threshold never raises a count: for two numeric
    thresholds [a <= b] the results list the same years, and the count of
    every year at [b] is at most its count at [a]. *)
Theorem exceedance_count_antitone (a b : Q) (s : series num) :
  (a <= b)%Q ->
  let at_a := group_sum Z.compare year (flags_above (Num a) s) in
  let at_b := group_sum Z.compare year (flags_above (Num b) s) in
  map fst at_a = map fst at_b /\
  forall y ca cb, In (y, ca) at_a -> In (y, cb) at_b -> (cb <= ca)%Z.
Proof.
  intros Hab at_a at_b.
  destruct (group_sum_years (flags_above (Num a) s)) as (Hsa & Hka & _).
  destruct (group_sum_years (flags_above (Num b) s)) as (Hsb & Hkb & _).
  fold at_a in Hsa, Hka. fold at_b in Hsb, Hkb. split.
  - apply sorted_same_keys; auto. intros y. rewrite Hka, Hkb.
    unfold flags_above. split; intros (t & fl & Hin & Hy);
      apply in_map_iff in Hin as ([t' v] & [= <- <-] & Hin);
      eexists t', _; (split; [|exact Hy]); apply in_map_iff; now exists (t', v).
  - intros y ca cb Ha Hb.
    rewrite (count_above_of_group _ s y ca Ha), (count_above_of_group _ s y cb Hb).
    unfold count_above. apply inj_le, filter_length_le.
    intros [t v] Hp. apply andb_prop in Hp as [Hy Hv].
    rewrite Hy. cbn [andb]. now apply (gtb_antitone v a b).
Qed.

Lemma exceedance_count_antitone_witness :
  map fst (group_sum Z.compare year (flags_above (Num 15%Q) Fixture.three_years)) =
  map fst (group_sum Z.compare year (flags_above (Num 35%Q) Fixture.three_years)).
Proof.
  apply (exceedance_count_antitone 15 35 Fixture.three_years).
  unfold Qle. simpl. lia.
Defined.

(** ** Grouping by day *)

Section GroupBy.
Context {K : Type} (cmp : K -> K -> comparison) (lt : K -> K -> Prop).
Hypothesis cmp_spec : forall a b, CompareSpec (a = b) (lt a b) (lt b a) (cmp a b).
Hypothesis lt_irrefl : forall a, ~ lt a a.
Hypothesis lt_trans : forall a b c, lt a b -> lt b c -> lt a c.

Lemma is_Eq_cmp (a b : K) : is_Eq (cmp a b) = true <-> a = b.
Proof.
  destruct (cmp_spec a b) as [Heq|Hlt|Hgt]; simpl.
  - tauto.
  - split; [discriminate|]. intros ->. now apply lt_irrefl in Hlt.
  - split; [discriminate|]. intros ->. now apply lt_irrefl in Hgt.
Qed.

Lemma add_to_group_keys_gen (k y : K) (v : Z) (g : list (K * Z)) :
  In y (map fst (add_to_group cmp k v g)) <-> y = k \/ In y (map fst g).
Proof.
  induction g as [|[k' v'] g IH]; simpl.
  - intuition.
  - destruct (cmp_spec k k') as [->|Hlt|Hgt]; simpl.
    + intuition.
    + intuition.
    + rewrite IH. intuition.
Qed.

Lemma add_to_group_sorted_gen (k : K) (v : Z) (g : list (K * Z)) :
  StronglySorted lt (map fst g) ->
  StronglySorted lt (map fst (add_to_group cmp k v g)).
Proof.
  induction g as [|[k' v'] g IH]; simpl; intros Hs.
  - repeat constructor.
  - apply StronglySorted_inv in Hs as [Hs Hk'].
    destruct (cmp_spec k k') as [->|Hlt|Hgt]; simpl.
    + now constructor.
    + constructor; [now constructor|].
      constructor; [exact Hlt|].
      rewrite List.Forall_forall in Hk' |- *. intros x Hx.
      apply lt_trans with k'; auto.
    + constructor; [now apply IH|].
      rewrite List.Forall_forall in Hk' |- *. intros x Hx.
      apply add_to_group_keys_gen in Hx as [->|Hx]; [exact Hgt | now apply Hk'].
Qed.

Lemma key_total_add (k y : K) (v : Z) (g : list (K * Z)) :
  key_total cmp y (add_to_group cmp k v g) =
    (key_total cmp y g + (if is_Eq (cmp k y) then v else 0))%Z.
Proof.
  induction g as [|[k' v'] g IH]; simpl.
  - lia.
  - destruct (cmp_spec k k') as [->|Hlt|Hgt]; simpl.
    + destruct (is_Eq (cmp k' y)); lia.
    + lia.
    + rewrite IH. lia.
Qed.

Lemma key_total_absent (y : K) (g : list (K * Z)) :
  ~ In y (map fst g) -> key_total cmp y g = 0%Z.
Proof.
  induction g as [|[k v] g IH]; simpl; intros Hy; [reflexivity|].
  destruct (is_Eq (cmp k y)) eqn:E.
  - apply is_Eq_cmp in E. tauto.
  - rewrite IH; tauto.
Qed.

Lemma key_total_sorted (y : K) (c : Z) (g : list (K * Z)) :
  StronglySorted lt (map fst g) -> In (y, c) g -> key_total cmp y g = c.
Proof.
  induction g as [|[k v] g IH]; simpl; intros Hs Hin; [tauto|].
  apply StronglySorted_inv in Hs as [Hs Hk].
  rewrite List.Forall_forall in Hk.
  destruct Hin as [[= -> ->]|Hin].
  - rewrite (proj2 (is_Eq_cmp y y) eq_refl), key_total_absent; [lia|].
    intros Hy. now apply (lt_irrefl y), Hk.
  - assert (Hy : In y (map fst g)) by (apply in_map_iff; now exists (y, c)).
    specialize (Hk y Hy).
    destruct (is_Eq (cmp k y)) eqn:E.
    + apply is_Eq_cmp in E. subst. now apply lt_irrefl in Hk.
    + rewrite IH; auto.
Qed.

Lemma add_to_group_nonneg (k : K) (v : Z) (g : list (K * Z)) :
  (0 <= v)%Z -> Forall (fun kv => (0 <= snd kv)%Z) g ->
  Forall (fun kv => (0 <= snd kv)%Z) (add_to_group cmp k v g).
Proof.
  intros Hv. induction 1 as [|[k' v'] g Hv' Hg IH]; simpl.
  - repeat constructor. exact Hv.
  - simpl in Hv'. destruct (cmp k k'); repeat constructor; simpl; auto; lia.
Qed.

Variable key : Timestamp -> K.

Lemma key_count_cons (y : K) (t : Timestamp) (b : bool) (fl : series bool) :
  key_count cmp key y ((t, b) :: fl) =
    (key_count cmp key y fl + (if is_Eq (cmp (key t) y) then Z.b2z b else 0))%Z.
Proof.
  unfold key_count. cbn [List.filter].
  destruct (is_Eq (cmp (key t) y)), b; cbn [andb length Z.b2z]; lia.
Qed.

Lemma group_sum_from_gen (fl : series bool) (g0 : list (K * Z)) :
  StronglySorted lt (map fst g0) ->
  Forall (fun kv => (0 <= snd kv)%Z) g0 ->
  let g := fold_left
             (fun groups '(t, b) => add_to_group cmp (key t) (Z.b2z b) groups)
             fl g0 in
  StronglySorted lt (map fst g) /\
  Forall (fun kv => (0 <= snd kv)%Z) g /\
  (forall y, In y (map fst g) <->
             In y (map fst g0) \/ exists t b, In (t, b) fl /\ key t = y) /\
  (forall y, key_total cmp y g = (key_total cmp y g0 + key_count cmp key y fl)%Z).
Proof.
  revert g0. induction fl as [|[t b] fl IH]; intros g0 Hs Hpos; cbn [fold_left].
  - split; [exact Hs|]. split; [exact Hpos|]. split.
    + intros y. split; [now left|]. intros [Hy|(t & b & [] & _)]. exact Hy.
    + intros y. unfold key_count. simpl. lia.
  - assert (Hb : (0 <= Z.b2z b)%Z) by (destruct b; simpl; lia).
    destruct (IH _ (add_to_group_sorted_gen (key t) (Z.b2z b) g0 Hs)
                (add_to_group_nonneg (key t) (Z.b2z b) g0 Hb Hpos))
      as (Hsorted & Hnn & Hkeys & Htotal).
    split; [exact Hsorted|]. split; [exact Hnn|]. split.
    + intros y. rewrite Hkeys, add_to_group_keys_gen. split.
      * intros [[->|Hy]|(t' & b' & Hin & Hy)].
        -- right. exists t, b. split; [now left | reflexivity].
        -- now left.
        -- right. exists t', b'. split; [now right | exact Hy].
      * intros [Hy|(t' & b' & [[= <- <-]|Hin] & Hy)].
        -- left. now right.
        -- left. left. now symmetry.
        -- right. now exists t', b'.
    + intros y. rewrite Htotal, key_total_add, key_count_cons. lia.
Qed.

Lemma group_sum_keys (fl : series bool) :
  let counts := group_sum cmp key fl in
  StronglySorted lt (map fst counts) /\
  Forall (fun kv => (0 <= snd kv)%Z) counts /\
  (forall y, In y (map fst counts) <-> exists t b, In (t, b) fl /\ key t = y) /\
  (forall y c, In (y, c) counts -> c = key_count cmp key y fl).
Proof.
  intros counts.
  destruct (group_sum_from_gen fl [] (SSorted_nil _) (List.Forall_nil _))
    as (Hsorted & Hnn & Hkeys & Htotal).
  fold (group_sum cmp key fl) in Hsorted, Hnn, Hkeys, Htotal.
  fold counts in Hsorted, Hnn, Hkeys, Htotal.
  split; [exact Hsorted|]. split; [exact Hnn|]. split.
  - intros y. rewrite Hkeys. split; [intros [[]|Hy]; exact Hy | now right].
  - intros y c Hin.
    rewrite <- (key_total_sorted y c counts Hsorted Hin), Htotal. simpl. lia.
Qed.
End GroupBy.

Lemma date_compare_lt_iff (a b : date_t) :
  date_lt a b <->
  (fst (fst a) < fst (fst b))%Z \/
  (fst (fst a) = fst (fst b) /\
   ((snd (fst a) < snd (fst b))%Z \/
    (snd (fst a) = snd (fst b) /\ (snd a < snd b)%Z))).
Proof.
  destruct a as [[y1 m1] d1], b as [[y2 m2] d2]. unfold date_lt, date_compare.
  cbn [fst snd].
  destruct (Z.compare_spec y1 y2) as [Hy|Hy|Hy];
    [destruct (Z.compare_spec m1 m2) as [Hm|Hm|Hm];
       [destruct (Z.compare_spec d1 d2) as [Hd|Hd|Hd]| |]| |];
    split; try discriminate; try reflexivity; intros; lia.
Qed.

Lemma date_compare_spec (a b : date_t) :
  CompareSpec (a = b) (date_lt a b) (date_lt b a) (date_compare a b).
Proof.
  destruct (date_compare a b) eqn:E; constructor.
  - destruct a as [[y1 m1] d1], b as [[y2 m2] d2]. unfold date_compare in E.
    destruct (Z.compare_spec y1 y2); try discriminate.
    destruct (Z.compare_spec m1 m2); try discriminate.
    destruct (Z.compare_spec d1 d2); try discriminate. now subst.
  - exact E.
  - apply date_compare_lt_iff.
    destruct a as [[y1 m1] d1], b as [[y2 m2] d2]. unfold date_compare in E.
    cbn [fst snd].
    destruct (Z.compare_spec y1 y2); try discriminate; try lia.
    destruct (Z.compare_spec m1 m2); try discriminate; try lia.
    destruct (Z.compare_spec d1 d2); try discriminate; lia.
Qed.

Lemma date_lt_irrefl (a : date_t) : ~ date_lt a a.
Proof. rewrite date_compare_lt_iff. lia. Qed.

Lemma date_lt_trans (a b c : date_t) : date_lt a b -> date_lt b c -> date_lt a c.
Proof. rewrite !date_compare_lt_iff. lia. Qed.

Lemma key_count_pos {K} (cmp : K -> K -> comparison) (key : Timestamp -> K)
    (y : K) (fl : series bool) :
  (forall a b, is_Eq (cmp a b) = true <-> a = b) ->
  ((0 <? key_count cmp key y fl)%Z = true <->
   exists t, In (t, true) fl /\ key t = y).
Proof.
  intros Heq. unfold key_count. rewrite Z.ltb_lt.
  induction fl as [|[t b] fl IH]; cbn [List.filter].
  - simpl. split; [lia | intros (t & [] & _)].
  - destruct (is_Eq (cmp (key t) y) && b) eqn:E.
    + apply andb_prop in E as [Ek ->]. apply Heq in Ek.
      cbn [length]. split; [|lia]. intros _. exists t. split; [now left | exact Ek].
    + rewrite IH. split.
      * intros (t' & Hin & Hy). exists t'. split; [now right | exact Hy].
      * intros (t' & [Hhd|Hin] & Hy); [|now exists t'].
        injection Hhd as -> ->. apply (proj2 (Heq _ _)) in Hy.
        rewrite Hy in E. discriminate.
Qed.

Lemma flags_above_true (thr : num) (s : series num) (t : Timestamp) :
  In (t, true) (flags_above thr s) <->
  exists v, In (t, v) s /\ num_gtb v thr = true.
Proof.
  unfold flags_above. rewrite in_map_iff. split.
  - intros ([t' v] & [= <- Hv] & Hin). now exists v.
  - intros (v & Hin & Hv). exists (t, v). now rewrite Hv.
Qed.

Lemma flags_above_keys {K} (key : Timestamp -> K) (thr : num) (s : series num)
    (y : K) :
  (exists t b, In (t, b) (flags_above thr s) /\ key t = y) <->
  (exists t v, In (t, v) s /\ key t = y).
Proof.
  unfold flags_above. split.
  - intros (t & b & Hin & Hy).
    apply in_map_iff in Hin as ([t' v] & [= <- <-] & Hin). now exists t', v.
  - intros (t & v & Hin & Hy). exists t, (num_gtb v thr).
    split; [|exact Hy]. apply in_map_iff. now exists (t, v).
Qed.

Lemma day_flags_dates (thr : num) (s : series num) :
  map (fun e => date (fst e)) (day_flags thr s) =
  map fst (group_sum date_compare date (flags_above thr s)).
Proof.
  unfold day_flags. rewrite !map_map. apply map_ext.
  intros [[[y m] d] n]. reflexivity.
Qed.

Lemma day_flags_In (thr : num) (s : series num) (t : Timestamp) (b : bool) :
  In (t, b) (day_flags thr s) ->
  exists d n, In (d, n) (group_sum date_compare date (flags_above thr s)) /\
              t = to_datetime d /\ b = (0 <? n)%Z.
Proof.
  unfold day_flags. rewrite map_map, in_map_iff.
  intros ([d n] & [= <- <-] & Hin). now exists d, n.
Qed.

(** X16. With [groupby="1day"] and the direction ["above"],
    [get_exceedance_events] returns, at every point, one flag per calendar
    day that has entries, in chronological order and stamped at midnight;
    the flag of a day is true exactly when some entry of that day lies
    strictly above the threshold. *)
Theorem exceedance_events_by_day (da : DataArray (series num)) (thr : num)
    (w : world) :
  get_exceedance_events da thr "above" (Some "1day") w =
    (Ok (mkDA ∅ (map (day_flags thr) (da_points da))),
     mkWorld (rng_pos w)
       (xr_log w ++ [OpCompare; OpGroupbySum "time.date"; OpCompare])) /\
  forall s : series num,
    (forall t b, In (t, b) (day_flags thr s) -> hour t = 0%Z) /\
    StronglySorted date_lt (map (fun e => date (fst e)) (day_flags thr s)) /\
    (forall d, In d (map (fun e => date (fst e)) (day_flags thr s)) <->
               exists t v, In (t, v) s /\ date t = d) /\
    (forall t b, In (t, b) (day_flags thr s) ->
       (b = true <->
        exists t' v, In (t', v) s /\ date t' = date t /\ num_gtb v thr = true)).
Proof.
  split.
  - unfold get_exceedance_events, xr_compare, xr_groupby_sum, xr_positive,
      mbind, mret, log_op. cbn.
    rewrite !map_map, <- !app_assoc. reflexivity.
  - intros s.
    destruct (group_sum_keys date_compare date_lt date_compare_spec
                date_lt_irrefl date_lt_trans date (flags_above thr s))
      as (Hsorted & _ & Hkeys & Hcount).
    split; [|split; [|split]].
    + intros t b Hin. apply day_flags_In in Hin as ([[y m] d] & n & _ & -> & _).
      reflexivity.
    + now rewrite day_flags_dates.
    + intros d. rewrite day_flags_dates, Hkeys. apply flags_above_keys.
    + intros t b Hin. apply day_flags_In in Hin as (d & n & Hin & -> & ->).
      rewrite (Hcount d n Hin).
      rewrite (key_count_pos date_compare date d _
                 (is_Eq_cmp date_compare date_lt date_compare_spec date_lt_irrefl)).
      assert (Hd : date (to_datetime d) = d) by now destruct d as [[y m] dd].
      rewrite Hd. split.
      * intros (t' & Hflag & Ht'). apply flags_above_true in Hflag as (v & Hv & Hgt).
        now exists t', v.
      * intros (t' & v & Hv & Ht' & Hgt). exists t'. split; [|exact Ht'].
        apply flags_above_true. now exists v.
Qed.

Lemma year_total_add (y : Z) (d : date_t) (v : Z) (g : list (date_t * Z)) :
  year_total y (add_to_group date_compare d v g) =
    (year_total y g + (if (fst (fst d) =? y)%Z then v else 0))%Z.
Proof.
  induction g as [|[k' v'] g IH]; simpl.
  - lia.
  - destruct (date_compare_spec d k') as [->|Hlt|Hgt]; simpl.
    + destruct (fst (fst k') =? y)%Z; lia.
    + lia.
    + rewrite IH. lia.
Qed.

Lemma year_total_fold (y : Z) (fl : series bool) (g0 : list (date_t * Z)) :
  year_total y (fold_left
                  (fun groups '(t, b) => add_to_group date_compare (date t) (Z.b2z b) groups)
                  fl g0) =
    (year_total y g0 + flag_count y fl)%Z.
Proof.
  revert g0. induction fl as [|[t b] fl IH]; intros g0; cbn [fold_left].
  - unfold flag_count. simpl. lia.
  - rewrite IH, year_total_add, flag_count_cons. cbn [date fst]. lia.
Qed.

Lemma flagged_days_le_total (y : Z) (g : list (date_t * Z)) :
  Forall (fun kv => (0 <= snd kv)%Z) g ->
  (0 <= flag_count y
          (map (fun '(d, b) => (to_datetime d, b))
             (map (fun '(d, n) => (d, (0 <? n)%Z)) g)) <= year_total y g)%Z.
Proof.
  induction 1 as [|[[[yy m] d] n] g Hn _ IH]; [unfold flag_count; simpl; lia|].
  cbn [map]. rewrite flag_count_cons. cbn [to_datetime year year_total fst snd] in *.
  destruct (yy =? y)%Z; [|lia].
  destruct (Z.ltb_spec 0 n); cbn [Z.b2z]; lia.
Qed.

(** X17. With [groupby="1day"], [get_exceedance_count] counts days, not
    entries: the count of a year is the number of its days flagged by
    [get_exceedance_events], and it never exceeds the number of entries of
    that year above the threshold. *)
Theorem exceedance_count_by_day (da : DataArray (series num)) (thr : num)
    (w : world) :
  get_exceedance_count da thr "1year" "above" None (Some "1day") None w =
    (Ok (mkDA ∅ (map (fun s => group_sum Z.compare year (day_flags thr s))
                   (da_points da))),
     mkWorld (rng_pos w)
       (xr_log w ++ [OpCompare; OpGroupbySum "time.date"; OpCompare;
                     OpGroupbySum "time.year"])) /\
  forall (s : series num) (y c : Z),
    In (y, c) (group_sum Z.compare year (day_flags thr s)) ->
    c = flag_count y (day_flags thr s) /\
    (0 <= c)%Z /\ (c <= count_above thr y s)%Z.
Proof.
  split.
  - unfold get_exceedance_count, get_exceedance_events, xr_compare,
      xr_groupby_sum, xr_positive, mbind, mret, log_op. cbn.
    rewrite !map_map, <- !app_assoc. reflexivity.
  - intros s y c Hin.
    destruct (group_sum_years (day_flags thr s)) as (_ & _ & Hcount).
    rewrite (Hcount y c Hin).
    destruct (group_sum_keys date_compare date_lt date_compare_spec
                date_lt_irrefl date_lt_trans date (flags_above thr s))
      as (_ & Hnn & _ & _).
    pose proof (flagged_days_le_total y _ Hnn) as Hle.
    fold (day_flags thr s) in Hle.
    unfold group_sum in Hle. rewrite year_total_fold in Hle.
    rewrite flag_count_above in Hle. cbn [year_total] in Hle.
    split; [reflexivity|]. lia.
Qed.

Lemma exceedance_count_by_day_witness :
  (1 <= count_above (Num 35%Q) 2003 Fixture.three_years)%Z.
Proof.
  destruct (proj2 (exceedance_count_by_day (mkDA ∅ [Fixture.three_years])
                     (Num 35%Q) Fixture.world0) Fixture.three_years 2003%Z 1%Z)
    as (_ & _ & Hle).
  - vm_compute. do 2 right. now left.
  - exact Hle.
Defined.

(** ** Order of the checks, annotations, ranges *)

(** X18. [get_exceedance_count] reports the first invalid option in the
    order [duration], [smoothing], [threshold_direction]: a given
    [duration] wins over everything else, then a given [smoothing], then
    an unknown direction, each before any operation on the data and
    whatever the period and the grouping are. *)
Theorem exceedance_count_error_order (da : DataArray (series num)) (thr : num)
    (period dir : string) (duration groupby smoothing : option string)
    (w : world) :
  (duration <> None ->
     get_exceedance_count da thr period dir duration groupby smoothing w =
       (Raise (ValueError "Duration option not yet implemented."), w)) /\
  (duration = None -> smoothing <> None ->
     get_exceedance_count da thr period dir duration groupby smoothing w =
       (Raise (ValueError "Smoothing option not yet implemented."), w)) /\
  (duration = None -> smoothing = None -> dir <> "above" -> dir <> "below" ->
     get_exceedance_count da thr period dir duration groupby smoothing w =
       (Raise (ValueError
          ("Unknown value for `threshold_direction` parameter: " ++ dir
           ++ ". Available options are 'above' or 'below'.")), w)).
Proof.
  unfold get_exceedance_count. split; [|split].
  - intros Hd. now rewrite bool_decide_eq_true_2.
  - intros -> Hs. rewrite bool_decide_eq_false_2 by (intros Hn; now apply Hn).
    now rewrite bool_decide_eq_true_2.
  - intros -> -> Ha Hb. apply String.eqb_neq in Ha, Hb.
    rewrite !bool_decide_eq_false_2 by (intros Hn; now apply Hn).
    unfold get_exceedance_events, mbind. now rewrite Ha, Hb.
Qed.

Lemma exceedance_count_error_order_witness :
  get_exceedance_count (mkDA ∅ [Fixture.three_years]) (Num 35%Q) "1month"
      "sideways" (Some "3days") (Some "1week") (Some "running") Fixture.world0 =
    (Raise (ValueError "Duration option not yet implemented."), Fixture.world0).
Proof.
  apply (proj1 (exceedance_count_error_order (mkDA ∅ [Fixture.three_years])
                  (Num 35%Q) "1month" "sideways" (Some "3days") (Some "1week")
                  (Some "running") Fixture.world0)).
  discriminate.
Defined.

(** X19. [get_ams] with the kind ["max"] resamples every point once,
    keeps the metadata of its input and records the four annotations of
    the block-maxima extraction, which replace entries of the same names;
    every other key keeps its value. *)
Theorem get_ams_annotates `{L : Libs} (da : DataArray (series num)) (w : world) :
  exists ams,
    get_ams da "max" w =
      (Ok ams, mkWorld (rng_pos w) (xr_log w ++ [OpResampleMax])) /\
    da_points ams = map resample_year_max (da_points da) /\
    da_attrs ams !! "extreme value extraction method" = Some "block maxima" /\
    da_attrs ams !! "extremes type" = Some "maxima" /\
    da_attrs ams !! "block size" = Some "1 year" /\
    da_attrs ams !! "timeseries type" = Some "annual max series" /\
    forall key,
      key <> "extreme value extraction method" -> key <> "extremes type" ->
      key <> "block size" -> key <> "timeseries type" ->
      da_attrs ams !! key = da_attrs da !! key.
Proof.
  eexists. split; [reflexivity|]. cbn [da_points da_attrs attrs_setitem].
  split; [reflexivity|].
  split; [now rewrite !lookup_insert_ne, lookup_insert_eq by discriminate|].
  split; [now rewrite !lookup_insert_ne, lookup_insert_eq by discriminate|].
  split; [now rewrite !lookup_insert_ne, lookup_insert_eq by discriminate|].
  split; [now rewrite lookup_insert_eq|].
  intros key H1 H2 H3 H4. now rewrite !lookup_insert_ne by congruence.
Qed.

Lemma get_ams_annotates_witness :
  exists ams,
    get_ams (H := Fixture.libs) Fixture.sample_array "max" Fixture.world0 =
      (Ok ams, mkWorld 0 [OpResampleMax]) /\
    da_attrs ams !! "units" = Some "K".
Proof.
  destruct (get_ams_annotates (L := Fixture.libs) Fixture.sample_array
              Fixture.world0) as (ams & Hrun & _ & _ & _ & _ & _ & Hkeep).
  exists ams. split; [exact Hrun|].
  rewrite Hkeep by discriminate. reflexivity.
Defined.

Lemma round_half_even_bounds (q : Q) :
  (inject_Z (round_half_even q) - q <= 1 # 2)%Q /\
  (q - inject_Z (round_half_even q) <= 1 # 2)%Q /\
  (Qfloor q <= round_half_even q)%Z.
Proof.
  unfold round_half_even.
  pose proof (Qfloor_le q) as Hf1. pose proof (Qlt_floor q) as Hf2.
  rewrite inject_Z_plus in Hf2. change (inject_Z 1) with 1%Q in Hf2.
  set (fl := Qfloor q) in *.
  destruct (Qcompare_spec (q - inject_Z fl) (1 # 2)) as [Heq|Hlt|Hgt].
  - destruct (Z.even fl); rewrite ?inject_Z_plus;
      change (inject_Z 1) with 1%Q; repeat split; try lra; lia.
  - repeat split; try lra; lia.
  - rewrite inject_Z_plus. change (inject_Z 1) with 1%Q.
    repeat split; try lra; lia.
Qed.

Lemma py_round_3 (q : Q) :
  exists r, py_round (Num q) 3 = Num r /\
    (r - q <= 1 # 2000)%Q /\ (q - r <= 1 # 2000)%Q /\
    ((1 <= q)%Q -> (1 <= r)%Q).
Proof.
  unfold py_round. change (inject_Z (10 ^ Z.of_nat 3)) with 1000%Q.
  eexists. split; [reflexivity|].
  destruct (round_half_even_bounds (q * 1000)) as (H1 & H2 & H3).
  set (z := round_half_even (q * 1000)) in *.
  unfold Qdiv. change (/ 1000)%Q with (1 # 1000)%Q.
  split; [lra|]. split; [lra|]. intros Hq.
  assert (Hz : (1000 <= z)%Z).
  { assert (Hfl : (Qfloor (inject_Z 1000) <= Qfloor (q * 1000))%Z)
      by (apply Qfloor_resp_le; change (inject_Z 1000) with 1000%Q; lra).
    rewrite Qfloor_Z in Hfl. lia. }
  rewrite Zle_Qle in Hz. change (inject_Z 1000) with 1000%Q in Hz. lra.
Qed.


Lemma period_at_least_one (p : Q) :
  (0 <= p)%Q -> (p < 1)%Q -> (1 <= -1 / (p - 1))%Q.
Proof.
  intros H0 H1.
  assert (Heq : (-1 / (p - 1) == 1 / (1 - p))%Q) by (field; lra).
  rewrite Heq. apply Qle_shift_div_l; lra.
Qed.

(** X20. When the forward function returns a probability [p] in [0, 1],
    the exceedance probability returned for ["return_prob"] lies in
    [0, 1] as well, and for [p < 1] the return period returned for
    ["return_period"] is a number not below 1. *)
Theorem return_metrics_ranges (fd : option rv_frozen) (m : num) (p : Q) :
  call_cdf fd m = Ok (Num p) -> (0 <= p)%Q -> (p <= 1)%Q ->
  (exists q, calculate_return fd "return_prob" m = Ok (Num q) /\
             (0 <= q)%Q /\ (q <= 1)%Q) /\
  ((p < 1)%Q ->
   exists r, calculate_return fd "return_period" m = Ok (Num r) /\ (1 <= r)%Q).
Proof.
  intros Hc H0 H1. split.
  - rewrite calculate_return_prob_eq, Hc. cbn. eexists. split; [reflexivity|].
    split; lra.
  - intros Hlt. rewrite (return_period_of_cdf fd m (Num p) Hc).
    unfold spec_return_period.
    assert (Hne : num_eqb (Num p) (Num 1%Q) = false).
    { simpl. destruct (Qeq_bool p 1) eqn:E; [|reflexivity].
      apply Qeq_bool_iff in E. lra. }
    rewrite Hne. cbn [num_sub num_quot num_lift2].
    destruct (py_round_3 (-1 / (p - 1))) as (r & Hr & _ & _ & Hge).
    exists r. split; [now rewrite Hr|]. apply Hge. now apply period_at_least_one.
Qed.

Lemma return_metrics_ranges_witness :
  exists r, calculate_return (Some (Fixture.uniform 1 8)) "return_period" (Num 7%Q)
              = Ok (Num r) /\ (1 <= r)%Q.
Proof.
  apply (proj2 (return_metrics_ranges (Some (Fixture.uniform 1 8)) (Num 7%Q)
                  ((7 - 1) / 8) eq_refl
                  ltac:(unfold Qle; simpl; lia) ltac:(unfold Qle; simpl; lia))).
  unfold Qlt. simpl. lia.
Defined.

(** ** Degenerate samples and unordered series *)

Lemma all_equal_repeat {A} (x : A) (l : list A) :
  (forall y, In y l -> y = x) -> l = repeat x (length l).
Proof.
  induction l as [|a l IH]; intros Hall; [reflexivity|].
  cbn [length repeat]. rewrite (Hall a (or_introl eq_refl)). f_equal.
  apply IH. intros y Hy. apply Hall. now right.
Qed.

Lemma resample_constant `{L : Libs} (x : num) (n pos : nat) :
  resample (repeat x n) pos = repeat x n.
Proof.
  rewrite (all_equal_repeat x (resample (repeat x n) pos)).
  - now rewrite resample_length, repeat_length.
  - intros y Hy. apply resample_In in Hy. now apply repeat_spec in Hy.
Qed.

Lemma outcomes_constant `{L : Libs} (x : num) (n : nat) (distr : string)
    (ld : lmom_distr_t) (kind : string) (arg v : num) (pos runs : nat) :
  str_in distr distrs = true ->
  fit_and_calculate (repeat x n) distr ld kind arg = Ok v ->
  outcomes (repeat x n) distr ld kind arg pos runs = repeat v runs.
Proof.
  intros Hd Hv. unfold outcomes.
  rewrite (all_equal_repeat v (map _ (seq 0 runs))).
  - now rewrite length_map, length_seq.
  - intros y Hy. apply in_map_iff in Hy as (i & <- & _).
    unfold replicate_at.
    now rewrite resample_constant, <- (fit_and_calculate_refit _ _ _ _ _ Hd), Hv.
Qed.

(** X22. On a constant sample every bootstrap resample is the sample
    itself, so every replicate repeats the direct computation: when that
    computation gives NaN (as it does when the fit fails) both bounds of
    [conf_int] are NaN, and when it gives a number both bounds equal it. *)
Theorem conf_int_constant_sample `{L : Libs} (x : num) (n : nat)
    (distr kind : string) (ld : lmom_distr_t) (arg v : num) (runs : nat)
    (lo hi : Q) (w : world) :
  str_in kind data_variables = true ->
  get_lmom_distr distr = Ok ld ->
  valid_percentile lo = true -> valid_percentile hi = true ->
  (0 < runs)%nat ->
  fit_and_calculate (repeat x n) distr ld kind arg = Ok v ->
  let w' := mkWorld (rng_pos w + runs * n) (xr_log w) in
  (v = NaN ->
     conf_int (repeat x n) distr kind arg runs lo hi w = (Ok (NaN, NaN), w')) /\
  (forall q, v = Num q ->
     exists lower upper,
       conf_int (repeat x n) distr kind arg runs lo hi w =
         (Ok (Num lower, Num upper), w') /\
       (lower == q)%Q /\ (upper == q)%Q).
Proof.
  intros Hk Hld Hlo Hhi Hruns Hv w'.
  pose proof (get_lmom_distr_supported distr ld Hld) as Hd.
  assert (Hok : forall i, (i < runs)%nat ->
            exists u, replicate_at (repeat x n) distr ld kind arg
                        (rng_pos w + i * length (repeat x n)) = Ok u).
  { intros i _. exists v. unfold replicate_at.
    now rewrite resample_constant, <- (fit_and_calculate_refit _ _ _ _ _ Hd). }
  pose proof (conf_int_valid (repeat x n) distr kind ld arg runs lo hi w
                Hk Hld Hlo Hhi Hruns Hok) as Heq.
  rewrite (outcomes_constant x n distr ld kind arg v _ runs Hd Hv) in Heq.
  rewrite repeat_length in Heq. fold w' in Heq.
  destruct runs as [|runs]; [lia|]. split.
  - intros ->. rewrite Heq. unfold percentile_linear. reflexivity.
  - intros q ->.
    assert (Hn : existsb is_nan (repeat (Num q) (S runs)) = false).
    { apply not_true_is_false. intros Hex.
      apply existsb_exists in Hex as (y & Hy & Hnan).
      apply repeat_spec in Hy. now subst. }
    assert (Hlen : (0 < length (repeat (Num q) (S runs)))%nat)
      by (rewrite repeat_length; lia).
    assert (Hone : forall z, within_outcomes (repeat (Num q) (S runs)) z -> (z == q)%Q).
    { intros z (a & b & Ha & Hb & Hle1 & Hle2).
      apply repeat_spec in Ha, Hb. injection Ha as ->. injection Hb as ->.
      now apply Qle_antisym. }
    destruct (percentile_linear_within _ lo Hn Hlen Hlo) as (l & Hl & Hwl).
    destruct (percentile_linear_within _ hi Hn Hlen Hhi) as (u & Hu & Hwu).
    exists l, u. rewrite Heq, Hl, Hu. auto.
Qed.

Lemma conf_int_constant_sample_witness :
  conf_int (H := Fixture.libs) (repeat (Num 2%Q) 4) "gev" "return_value"
      (Num 10%Q) 3 (5 # 2) (195 # 2) Fixture.world0 =
    (Ok (NaN, NaN), mkWorld 12 []).
Proof.
  apply (proj1 (conf_int_constant_sample (L := Fixture.libs) (Num 2%Q) 4 "gev"
                  "return_value" ldistr_gev (Num 10%Q) NaN 3 (5 # 2) (195 # 2)
                  Fixture.world0 eq_refl eq_refl eq_refl eq_refl ltac:(lia)
                  eq_refl)).
  reflexivity.
Defined.

Lemma filter_length_perm {A} (p : A -> bool) (l l' : list A) :
  Permutation l l' -> length (List.filter p l) = length (List.filter p l').
Proof.
  induction 1 as [|x l l' _ IH|x y l|l l' l'' _ IH1 _ IH2]; cbn [List.filter].
  - reflexivity.
  - destruct (p x); cbn [length]; now rewrite IH.
  - destruct (p x), (p y); reflexivity.
  - now rewrite IH1.
Qed.

Section GroupPermutation.
Context {K : Type} (cmp : K -> K -> comparison) (lt : K -> K -> Prop).
Hypothesis cmp_spec : forall a b, CompareSpec (a = b) (lt a b) (lt b a) (cmp a b).
Hypothesis lt_irrefl : forall a, ~ lt a a.
Hypothesis lt_trans : forall a b c, lt a b -> lt b c -> lt a c.
Variable key : Timestamp -> K.

Lemma sorted_keys_unique (l1 l2 : list K) :
  StronglySorted lt l1 -> StronglySorted lt l2 ->
  (forall y, In y l1 <-> In y l2) -> l1 = l2.
Proof.
  intros H1. revert l2. induction H1 as [|x l1 Hs1 IH Hx]; intros l2 H2 Heq.
  - destruct l2 as [|z l2]; [reflexivity|].
    exfalso. apply (proj2 (Heq z)). now left.
  - destruct H2 as [|z l2 Hs2 Hz].
    + exfalso. apply (proj1 (Heq x)). now left.
    + rewrite List.Forall_forall in Hx, Hz.
      assert (x = z).
      { destruct (proj1 (Heq x) (or_introl eq_refl)) as [Hxz|Hxz]; [auto|].
        destruct (proj2 (Heq z) (or_introl eq_refl)) as [Hzx|Hzx]; [auto|].
        exfalso. apply (lt_irrefl x), lt_trans with z; auto. }
      subst z. f_equal. apply IH; [exact Hs2|].
      intros y. split; intros Hy.
      * destruct (proj1 (Heq y) (or_intror Hy)) as [<-|Hy']; [|exact Hy'].
        exfalso. now apply (lt_irrefl x), Hx.
      * destruct (proj2 (Heq y) (or_intror Hy)) as [<-|Hy']; [|exact Hy'].
        exfalso. now apply (lt_irrefl x), Hz.
Qed.

Lemma sorted_groups_eq (l1 l2 : list (K * Z)) :
  StronglySorted lt (map fst l1) ->
  map fst l1 = map fst l2 ->
  (forall y c1 c2, In (y, c1) l1 -> In (y, c2) l2 -> c1 = c2) ->
  l1 = l2.
Proof.
  revert l2. induction l1 as [|[k1 c1] l1 IH]; intros [|[k2 c2] l2] Hs Hk Hv;
    try discriminate; [reflexivity|].
  cbn [map fst] in Hs, Hk. injection Hk as -> Hk.
  apply StronglySorted_inv in Hs as [Hs _].
  f_equal.
  - f_equal. apply (Hv k2); now left.
  - apply IH; auto. intros y a b Ha Hb. apply (Hv y); now right.
Qed.

Lemma group_sum_perm (fl fl' : series bool) :
  Permutation fl fl' -> group_sum cmp key fl = group_sum cmp key fl'.
Proof.
  intros Hperm.
  destruct (group_sum_keys cmp lt cmp_spec lt_irrefl lt_trans key fl)
    as (Hs1 & _ & Hk1 & Hc1).
  destruct (group_sum_keys cmp lt cmp_spec lt_irrefl lt_trans key fl')
    as (Hs2 & _ & Hk2 & Hc2).
  assert (Hkeys : map fst (group_sum cmp key fl) = map fst (group_sum cmp key fl')).
  { apply sorted_keys_unique; auto. intros y. rewrite Hk1, Hk2.
    split; intros (t & b & Hin & Hy); exists t, b; (split; [|exact Hy]).
    - now apply (Permutation_in _ Hperm).
    - now apply (Permutation_in _ (Permutation_sym Hperm)). }
  apply sorted_groups_eq; [exact Hs1 | exact Hkeys |].
  intros y c1 c2 H1 H2. rewrite (Hc1 y c1 H1), (Hc2 y c2 H2).
  unfold key_count. f_equal. now apply filter_length_perm.
Qed.

Lemma flagged_groups_perm (test : num -> num -> bool) (thr : num)
    (pts pts' : list (series num)) :
  Forall2 (@Permutation (Timestamp * num)) pts pts' ->
  map (group_sum cmp key) (map (map (fun '(t, v) => (t, test v thr))) pts) =
  map (group_sum cmp key) (map (map (fun '(t, v) => (t, test v thr))) pts').
Proof.
  induction 1 as [|s s' pts pts' Hperm _ IH]; [reflexivity|].
  cbn [map]. f_equal; [|exact IH].
  apply group_sum_perm. now apply Permutation_map.
Qed.
End GroupPermutation.

(** X23. [get_exceedance_count] does not depend on the order in which the
    entries of a series are stored: two arrays whose series are, point by
    point, rearrangements of each other give the same outcome (the same
    counts or the same error) for every choice of the options. *)
Theorem exceedance_count_order_free (da da' : DataArray (series num)) (thr : num)
    (period dir : string) (duration groupby smoothing : option string)
    (w : world) :
  Forall2 (@Permutation (Timestamp * num)) (da_points da) (da_points da') ->
  get_exceedance_count da thr period dir duration groupby smoothing w =
  get_exceedance_count da' thr period dir duration groupby smoothing w.
Proof.
  intros Hperm. unfold get_exceedance_count.
  destruct (bool_decide (duration <> None)); [reflexivity|].
  destruct (bool_decide (smoothing <> None)); [reflexivity|].
  unfold get_exceedance_events.
  pose proof (flagged_groups_perm Z.compare Z.lt Z.compare_spec Z.lt_irrefl
                Z.lt_trans year) as Hyear.
  pose proof (flagged_groups_perm date_compare date_lt date_compare_spec
                date_lt_irrefl date_lt_trans date) as Hday.
  destruct (String.eqb dir "above"); [|destruct (String.eqb dir "below")];
    [| |reflexivity];
    (destruct groupby as [g|]; [destruct (String.eqb g "1day")|]);
    unfold xr_compare, xr_groupby_sum, xr_positive, mbind, mret, log_op, mraise;
    cbn [fst snd da_points da_attrs xr_log rng_pos];
    destruct (String.eqb period "1year");
    cbn [fst snd da_points da_attrs xr_log rng_pos];
    try reflexivity;
    try (rewrite (Hday _ thr _ _ Hperm); reflexivity);
    try (rewrite (Hyear _ thr _ _ Hperm); reflexivity).
Qed.

Lemma exceedance_count_order_free_witness :
  get_exceedance_count (mkDA ∅ [rev Fixture.three_years]) (Num 35%Q)
    "1year" "above" None None None Fixture.world0 =
  get_exceedance_count (mkDA ∅ [Fixture.three_years]) (Num 35%Q)
    "1year" "above" None None None Fixture.world0.
Proof.
  apply (exceedance_count_order_free (mkDA ∅ [rev Fixture.three_years])
           (mkDA ∅ [Fixture.three_years])).
  cbn [da_points]. constructor; [|constructor].
  apply Permutation_sym, Permutation_rev.
Defined.

(** ** The soft-failure policy as a whole *)

Lemma data_variable_cases (kind : string) :
  str_in kind data_variables = true ->
  kind = "return_value" \/ kind = "return_prob" \/ kind = "return_period".
Proof.
  unfold str_in, data_variables. cbn [existsb]. rewrite orb_false_r.
  intros Hk. repeat (apply orb_prop in Hk as [Hk|Hk]);
    apply String.eqb_eq in Hk; tauto.
Qed.

Lemma try_except_total {A} (r : result A) (caught : exn -> bool) (h : A) :
  (forall e, r = Raise e -> caught e = true) ->
  exists a, try_except r caught h = Ok a.
Proof.
  intros Hr. destruct r as [a|e]; [now exists a|].
  exists h. apply try_except_caught. now apply Hr.
Qed.

Lemma calculate_return_returns (d : rv_frozen) (kind : string) (arg : num) :
  str_in kind data_variables = true ->
  (forall x e, ppf d x = Raise e -> caught_VZA e = true) ->
  (forall x e, cdf d x = Raise e -> caught_VZA e = true) ->
  exists v, calculate_return (Some d) kind arg = Ok v.
Proof.
  intros Hk Hppf Hcdf.
  destruct (data_variable_cases kind Hk) as [-> | [-> | ->]].
  - rewrite calculate_return_value_eq. apply try_except_total.
    intros e. destruct (num_div (Num 1%Q) arg) as [inv|e0] eqn:Hdiv; cbn [rbind].
    + cbn [call_ppf]. destruct (ppf d (num_sub (Num 1%Q) inv)) as [v|e1] eqn:Hp;
        cbn [rbind]; [discriminate|]. intros [= <-]. now apply (Hppf _ _ Hp).
    + intros [= <-]. destruct arg as [|b]; cbn [num_div] in Hdiv; [discriminate|].
      destruct (Qeq_bool b 0); [|discriminate].
      injection Hdiv as <-. reflexivity.
  - rewrite calculate_return_prob_eq. apply try_except_total.
    intros e. cbn [call_cdf]. destruct (cdf d arg) as [c|e1] eqn:Hc; cbn [rbind];
      [discriminate|]. intros [= <-]. now apply (Hcdf _ _ Hc).
  - destruct (call_cdf (Some d) arg) as [p|e1] eqn:Hc.
    + rewrite (return_period_of_cdf _ _ _ Hc). eauto.
    + rewrite calculate_return_period_eq, Hc. cbn [rbind].
      exists NaN. apply try_except_caught. now apply (Hcdf _ _ Hc).
Qed.

Lemma return_dataset_returns `{L : Libs} (kind key label : string)
    (ams : DataArray (series num)) (arg : num) (distr : string)
    (ld : lmom_distr_t) (runs : nat) (lo hi : Q) (mp : bool) (w : world) :
  get_lmom_distr distr = Ok ld ->
  shape_fits mp (da_points ams) ->
  (forall a w0, exists r w1,
     point_function kind distr ld kind arg runs lo hi a w0 = (Ok r, w1)) ->
  exists ds w',
    return_dataset kind key label ams arg distr runs lo hi mp w = (Ok ds, w').
Proof.
  intros Hld Hshape Hpt. unfold return_dataset. unfold mbind at 1, lift at 1.
  rewrite Hld.
  destruct (vectorised_fits (point_function kind distr ld kind arg runs lo hi)
              ams mp w Hshape) as (input & Hstack & Hufunc).
  unfold mbind at 1. rewrite Hstack. unfold mbind at 1. rewrite Hufunc.
  destruct (map_points_returns
              (fun s => point_function kind distr ld kind arg runs lo hi (map snd s))
              (da_points ams) (fun a w0 => Hpt (map snd a) w0)
              (mkWorld (rng_pos w)
                 ((xr_log w ++ (if mp then [OpStack] else [])) ++ [OpApplyUfunc])))
    as (bs & w2 & Hmap).
  cbn [rng_pos xr_log]. rewrite Hmap.
  destruct mp; unfold unstack, mbind, mret, log_op; eauto.
Qed.

Section SoftFailure.
Context `{L : Libs}.
Hypothesis fit_errors : forall ld a e, lmom_fit ld a = Raise e -> caught_VZ e = true.
Hypothesis frozen_errors :
  forall sd p e, stats_frozen sd p = Raise e -> caught_VZ e = true.
Hypothesis ppf_errors :
  forall sd p d x e, stats_frozen sd p = Ok d -> ppf d x = Raise e ->
                     caught_VZA e = true.
Hypothesis cdf_errors :
  forall sd p d x e, stats_frozen sd p = Ok d -> cdf d x = Raise e ->
                     caught_VZA e = true.

Lemma refit_metric_returns (a : list num) (distr : string)
    (ld : lmom_distr_t) (kind : string) (arg : num) :
  str_in kind data_variables = true ->
  exists v, refit_metric a distr ld kind arg = Ok v.
Proof.
  intros Hk. unfold refit_metric.
  destruct (lmom_fit ld a) as [p|e] eqn:Hfit.
  - destruct (stats_frozen (scipy_of distr) p) as [d|e] eqn:Hfr.
    + destruct (calculate_return_returns d kind arg Hk
                  (fun x e => ppf_errors _ _ d x e Hfr)
                  (fun x e => cdf_errors _ _ d x e Hfr)) as [v Hv].
      exists v. now rewrite Hv.
    + exists NaN. cbn [soft]. now rewrite (frozen_errors _ _ _ Hfr).
  - exists NaN. cbn [soft]. now rewrite (fit_errors _ _ _ Hfit).
Qed.

Lemma point_function_returns (local distr : string) (ld : lmom_distr_t)
    (kind : string) (arg : num) (runs : nat) (lo hi : Q) :
  get_lmom_distr distr = Ok ld -> str_in kind data_variables = true ->
  valid_percentile lo = true -> valid_percentile hi = true ->
  (0 < runs)%nat ->
  forall a w, exists r w',
    point_function local distr ld kind arg runs lo hi a w = (Ok r, w').
Proof.
  intros Hld Hk Hlo Hhi Hruns a w.
  pose proof (get_lmom_distr_supported distr ld Hld) as Hd.
  unfold point_function. rewrite (family_chain_same _ _ _ Hd).
  unfold estimate_with_conf_int, mbind, lift.
  rewrite (fit_and_calculate_refit _ _ _ _ _ Hd).
  destruct (refit_metric_returns a distr ld kind arg Hk) as [v ->].
  rewrite (conf_int_valid a distr kind ld arg runs lo hi w Hk Hld Hlo Hhi Hruns).
  - unfold mret. eauto.
  - intros i _. apply refit_metric_returns; auto.
Qed.

(** X25. The soft-failure policy holds for the whole pipeline. Suppose
    the L-moment fit and the scipy constructors raise nothing but
    [ValueError] and [ZeroDivisionError], and the inverse and forward
    functions of the fitted distributions nothing but these and
    [AttributeError]. Then, for a supported family, percentile bounds in
    range, at least one bootstrap run and an array of fitting shape,
    [get_return_value], [get_return_prob] and [get_return_period] return
    a dataset: no point can abort the analysis. *)
Theorem return_datasets_never_abort (ams : DataArray (series num)) (arg : num)
    (distr : string) (runs : nat) (lo hi : Q) (mp : bool) (w : world) :
  str_in distr distrs = true ->
  valid_percentile lo = true -> valid_percentile hi = true ->
  (0 < runs)%nat ->
  shape_fits mp (da_points ams) ->
  (exists ds w', get_return_value ams arg distr runs lo hi mp w = (Ok ds, w')) /\
  (exists ds w', get_return_prob ams arg distr runs lo hi mp w = (Ok ds, w')) /\
  (exists ds w', get_return_period ams arg distr runs lo hi mp w = (Ok ds, w')).
Proof.
  intros Hd Hlo Hhi Hruns Hshape.
  assert (Hld : exists ld, get_lmom_distr distr = Ok ld)
    by (each_family Hd; eexists; reflexivity).
  destruct Hld as [ld Hld].
  split; [|split];
    apply (return_dataset_returns _ _ _ ams arg distr ld runs lo hi mp w Hld Hshape);
    apply point_function_returns; auto.
Qed.
End SoftFailure.

Lemma fixture_fit_errors (ld : lmom_distr_t) (a : list num) (e : exn) :
  lmom_fit (Libs := Fixture.libs) ld a = Raise e -> caught_VZ e = true.
Proof.
  cbn [lmom_fit Fixture.libs]. unfold Fixture.fit.
  destruct (existsb is_nan a); [now intros [= <-]|].
  destruct (finite_values a) as [|x l]; [now intros [= <-]|].
  destruct (Qeq_bool _ _); [now intros [= <-] | discriminate].
Qed.

Lemma fixture_uniform_ppf (loc scale : Q) (x : num) (e : exn) :
  ppf (Fixture.uniform loc scale) x <> Raise e.
Proof.
  cbn [ppf Fixture.uniform]. destruct x as [|q]; [discriminate|].
  destruct (Qle_bool 0 q && Qle_bool q 1); discriminate.
Qed.

Lemma fixture_uniform_cdf (loc scale : Q) (x : num) (e : exn) :
  cdf (Fixture.uniform loc scale) x <> Raise e.
Proof.
  cbn [cdf Fixture.uniform]. destruct x as [|q]; [discriminate|].
  destruct (Qle_bool q loc); [discriminate|].
  destruct (Qle_bool (loc + scale) q); discriminate.
Qed.

Lemma return_datasets_never_abort_witness :
  exists ds w',
    get_return_value (H := Fixture.libs) Fixture.grid_array (Num 10%Q) "gev"
      3 (5 # 2) (195 # 2) true Fixture.world0 = (Ok ds, w').
Proof.
  refine (proj1 (return_datasets_never_abort (L := Fixture.libs)
            fixture_fit_errors _ _ _
            Fixture.grid_array (Num 10%Q) "gev" 3 (5 # 2) (195 # 2) true
            Fixture.world0 eq_refl eq_refl eq_refl _ _)).
  - intros sd p e He. discriminate He.
  - intros sd p d x e [= <-] He. now apply fixture_uniform_ppf in He.
  - intros sd p d x e [= <-] He. now apply fixture_uniform_cdf in He.
  - lia.
  - split; [cbn; lia | repeat constructor; cbn; lia].
Defined.

(** ** The round trip between return value and return period *)




